(** * SolidBlock-RL: grid environment, replay buffer and exploration schedule

  A shallow embedding of the training-orchestration core of SolidBlock-RL
  (ai/train.js and game/game.js) and of the play and auto-play modes of
  index.js, together with the properties its specification states about it
  and further properties of the code.

  Conventions of the embedding.
  - Grid coordinates, counters and indices are integers ([Z], [nat]).
  - The exploration rate is an IEEE-754 binary64 number, exactly the
    JavaScript Number type: [PrimFloat.float] with the kernel's operations.
  - Scores, rewards, priorities and the values returned by [Math.random()]
    are exact rationals ([Q]) in [Replay], [Grid] and the modules built on
    them: a sum or a product there is the number that the code rounds to
    binary64. The properties stated are those the rounding leaves alone:
    which branch is taken, which cells and entries are read and written, how
    many draws are made, that an index is in range, which additions the score
    receives and in which order, and the bounds that a rounded result meets
    as the exact one does. Where the value of a score is stated (an example
    run, the sums of integers of the play mode) it is the exact one.
    [Binary64] has the sampler with the numbers of the code, for the inputs
    on which the rounding decides the outcome.
  - A checkpoint is a value of the language, written and read by
    [JSON.stringify] and [JSON.parse] as ECMAScript specifies them.
  - [Math.random()] is an oracle: the sequence of values it returns, in call
    order, is an [nat -> Q] function carried by the state together with the
    number of calls made so far.
  - A method of the [Game] class is a computation over the mutable object
    and the oracle which either returns or throws; the object keeps what was
    written to it before a throw, as in JavaScript. *)

From Stdlib Require Import ZArith QArith Qround Qabs String Ascii List Bool Lia Lqa Floats.
Import ListNotations.

Set Warnings "-inexact-float,-register-all".
Close Scope Q_scope.

(* ================================================================= *)
(** * Part I: the program *)
(* ================================================================= *)

(** ** Exploration schedule (ai/train.js, module-level constants) *)

Module Exploration.
Local Open Scope float_scope.

Definition epsilonDecay : float := 0.999.
Definition epsilonMin : float := 0.1.
Definition epsilonBoost : float := 0.2.

Definition explorationCycleLength : nat := 1200.
Definition epsilonResetCycle : float := 0.2.

(** The non-boost branch of the per-episode update:
    [epsilon = epsilon * epsilonDecay; if (epsilon < epsilonMin) epsilon = epsilonBoost]. *)
Definition decayEpsilon (epsilon : float) : float :=
  let epsilon := epsilon * epsilonDecay in
  if epsilon <? epsilonMin then epsilonBoost else epsilon.

(** The whole per-episode update, [episode] being the counter after its
    increment and [random] the value [Math.random()] returns in the boost
    branch. *)
Definition updateEpsilon (episode : nat) (random epsilon : float) : float :=
  if Nat.eqb (episode mod explorationCycleLength) 0 then
    let boostAmount := epsilonMin + random * (epsilonResetCycle - epsilonMin) in
    epsilon + boostAmount
  else decayEpsilon epsilon.

End Exploration.

(** ** Computations that read [Math.random()] and may throw *)

Module Js.

(** What a call does: it returns a value or throws an [Error] whose
    message is [e]. *)
Inductive Outcome (A : Type) : Type :=
| Return (a : A)
| Throw (e : string).
Arguments Return {A} a.
Arguments Throw {A} e.

(** A computation over a mutable state [S]; the state reached is given in
    both cases, since a throw does not undo earlier writes. *)
Definition M (S A : Type) : Type := S -> Outcome A * S.

Definition ret {S A : Type} (a : A) : M S A := fun s => (Return a, s).

Definition bind {S A B : Type} (c : M S A) (k : A -> M S B) : M S B :=
  fun s => match c s with
           | (Return a, s') => k a s'
           | (Throw e, s') => (Throw e, s')
           end.

Definition throw {S A : Type} (e : string) : M S A := fun s => (Throw e, s).

(** The source of randomness: [entropy k] is the value the [k]-th call of
    [Math.random()] returns, [calls] the number of calls made so far. *)
Record Rng : Type := { entropy : nat -> Q; calls : nat }.

Definition Math_random : M Rng Q :=
  fun r => (Return (entropy r (calls r)), {| entropy := entropy r; calls := S (calls r) |}).

(** [Math.floor(Math.random() * n)] for an integer [n], the product being
    the exact one; the code rounds it to binary64 before it takes the floor,
    which for some draws gives the next index ([Binary64.randomItem]). *)
Definition randomBelow (n : Z) : M Rng Z :=
  bind Math_random (fun random => ret (Qfloor (random * inject_Z n))).

(** The source as it stands after [n] more calls. *)
Definition advance (r : Rng) (n : nat) : Rng :=
  {| entropy := entropy r; calls := calls r + n |}.

(** Sources for the examples: every draw is [q]; the draws are those of
    [draws], in turn, and [0] from then on. *)
Definition constantRng (q : Q) : Rng := {| entropy := fun _ => q; calls := 0 |}.
Definition rngOf (draws : list Q) : Rng := {| entropy := fun k => nth k draws 0%Q; calls := 0 |}.

(** [a < b] on numbers. *)
Definition Qltb (a b : Q) : bool := negb (Qle_bool b a).

(** [array[i]] for an integer index: [undefined] ([None]) out of range. *)
Definition item {A : Type} (array : list A) (i : Z) : option A :=
  if (i <? 0)%Z then None else nth_error array (Z.to_nat i).

(** [array.splice(start, 1)] for a non-negative [start], as the array left. *)
Definition removeAt {A : Type} (start : nat) (array : list A) : list A :=
  firstn start array ++ skipn (S start) array.

End Js.

Declare Scope js_scope.
Delimit Scope js_scope with js.
Notation "x <- c1 ;; c2" := (Js.bind c1 (fun x => c2))
  (at level 61, c1 at next level, right associativity) : js_scope.
Notation "c1 ;; c2" := (Js.bind c1 (fun _ => c2))
  (at level 61, right associativity) : js_scope.

(** ** Replay buffer and hybrid sampler (ai/train.js) *)

Module Replay.
Import Js.

(** The feature vector of [getFeatureVector]: a one-hot grid and the food offset. *)
Record Feature : Type := { grid : list (list (list Z)); offset : list Q }.

(** A stored transition; [priority] may be absent in an object read from a
    checkpoint, the sampler tests it against [undefined]. *)
Record Transition : Type := {
  state : Feature;
  action : Z;
  reward : Q;
  nextState : Feature;
  done : bool;
  priority : option Q
}.

#[warnings="-abstract-large-number"] Definition REPLAY_BUFFER_SIZE : nat := 10000.
Definition BATCH_SIZE : nat := 32.

(** [replayBuffer.push(t)] followed by the eviction of the step loop:
    [if (replayBuffer.length > REPLAY_BUFFER_SIZE)
       replayBuffer.splice(0, replayBuffer.length - REPLAY_BUFFER_SIZE)]. *)
Definition pushTransition (replayBuffer : list Transition) (t : Transition) : list Transition :=
  let replayBuffer := replayBuffer ++ [t] in
  if REPLAY_BUFFER_SIZE <? length replayBuffer
  then skipn (length replayBuffer - REPLAY_BUFFER_SIZE) replayBuffer
  else replayBuffer.

(** The purge at the end of every 500th episode:
    [splice(0, Math.floor(replayBuffer.length * 0.2))]. *)
Definition purge (episode : nat) (replayBuffer : list Transition) : list Transition :=
  if (episode mod 500 =? 0) && (0 <? length replayBuffer)
  then skipn (length replayBuffer / 5) replayBuffer
  else replayBuffer.

(** The first loop of [sampleEnhancedBatch]: [halfBatch] times, push
    [buffer[Math.floor(Math.random() * buffer.length)]]. *)
Fixpoint uniformLoop (halfBatch : nat) (buffer : list Transition)
    (uniformSamples : list (option Transition)) : M Rng (list (option Transition)) :=
  match halfBatch with
  | O => ret uniformSamples
  | S n =>
      (index <- randomBelow (Z.of_nat (length buffer)) ;;
       uniformLoop n buffer (uniformSamples ++ [item buffer index]))%js
  end.

Definition alpha : positive := 2.

(** The second loop: the effective priority of [buffer[i]], for the entries
    [rest] from index [i] on. *)
Fixpoint effectivePrioritiesFrom (i len : nat) (rest : list Transition) : list Q :=
  match rest with
  | [] => []
  | transition :: rest' =>
      let originalPriority :=
        match priority transition with
        | Some p => p
        | None => Qabs (reward transition)
        end in
      let recencyWeight := (inject_Z (Z.of_nat i + 1) / inject_Z (Z.of_nat len))%Q in
      let effectivePriority := (originalPriority * Qpower_positive recencyWeight alpha)%Q in
      effectivePriority :: effectivePrioritiesFrom (S i) len rest'
  end.

Definition totalOf (effectivePriorities : list Q) : Q :=
  fold_left (fun sum p => (sum + p)%Q) effectivePriorities 0%Q.

(** The inner loop of the roulette wheel over the priorities from index [j]
    on: the first [j] whose cumulative share exceeds [random] is pushed and
    the loop is left; when no share does, nothing is pushed. The shares are
    added exactly here; [Binary64.rouletteLoop] adds them as the code does. *)
Fixpoint rouletteLoop (buffer : list Transition) (random totalPriority : Q)
    (priorities : list Q) (j : nat) (cumulative : Q)
    (prioritizedSamples : list (option Transition)) : list (option Transition) :=
  match priorities with
  | [] => prioritizedSamples
  | p :: priorities' =>
      let cumulative := (cumulative + p / totalPriority)%Q in
      if Qltb random cumulative
      then prioritizedSamples ++ [nth_error buffer j]
      else rouletteLoop buffer random totalPriority priorities' (S j) cumulative prioritizedSamples
  end.

Fixpoint prioritizedLoop (halfBatch : nat) (buffer : list Transition)
    (effectivePriorities : list Q) (totalPriority : Q)
    (prioritizedSamples : list (option Transition)) : M Rng (list (option Transition)) :=
  match halfBatch with
  | O => ret prioritizedSamples
  | S n =>
      (random <- Math_random ;;
       prioritizedLoop n buffer effectivePriorities totalPriority
         (rouletteLoop buffer random totalPriority effectivePriorities 0 0%Q prioritizedSamples))%js
  end.

(** [sampleEnhancedBatch(buffer, batchSize)]. The batch holds the entries of
    the buffer themselves; [buffer.slice()] is the buffer entry by entry. *)
Definition sampleEnhancedBatch (buffer : list Transition) (batchSize : nat)
    : M Rng (list (option Transition)) :=
  if length buffer <? batchSize then ret (map Some buffer)
  else
    let halfBatch := batchSize / 2 in
    (uniformSamples <- uniformLoop halfBatch buffer [] ;;
     let effectivePriorities := effectivePrioritiesFrom 0 (length buffer) buffer in
     let totalPriority := totalOf effectivePriorities in
     prioritizedSamples <- prioritizedLoop halfBatch buffer effectivePriorities totalPriority [] ;;
     ret (uniformSamples ++ prioritizedSamples))%js.

(** [sampleRandomBatch(buffer, batchSize)]. *)
Fixpoint sampleRandomBatch (buffer : list Transition) (batchSize : nat)
    : M Rng (list (option Transition)) :=
  match batchSize with
  | O => ret []
  | S n =>
      (index <- randomBelow (Z.of_nat (length buffer)) ;;
       sample <- sampleRandomBatch buffer n ;;
       ret (item buffer index :: sample))%js
  end.

(** The cumulative share the inner loop has reached once it has walked the
    whole wheel from share [c]. *)
Definition cumulativeAfter (total : Q) (ps : list Q) (c : Q) : Q :=
  fold_left (fun c p => (c + p / total)%Q) ps c.

(** Sample data: a transition of priority [p]. *)
Definition transitionOf (p : Q) : Transition :=
  {| state := {| grid := []; offset := [] |}; action := 0%Z; reward := p;
     nextState := {| grid := []; offset := [] |}; done := false; priority := Some p |}.

End Replay.

(** ** Grid environment (game/game.js) *)

Module Grid.
Import Js.
Local Open Scope Z_scope.
Local Open Scope js_scope.

(** game/constants.js is not among the sources at hand: the three constants
    it exports are parameters of the environment. *)
Record Constants : Type := {
  BOARD_WIDTH : Z;
  BOARD_HEIGHT : Z;
  TICK_SPAWN_INTERVAL : Z
}.

Definition EXPLORATION_BONUS : Q := 6 # 10.

(** A cell object [{ x, y }]. *)
Record Pos : Type := { x : Z; y : Z }.

(** The test [o => o.x === cx && o.y === cy] of the [some] calls. *)
Definition isAt (cx cy : Z) (o : Pos) : bool := (x o =? cx) && (y o =? cy).

(** The fields of a [Game] object. [visitedCells] holds the cells whose keys
    ["x,y"] are in the set, in insertion order. The [debugPatternDetection]
    flag only switches console output and is left out. *)
Record Game : Type := {
  width : Z;
  height : Z;
  tickCount : Z;
  score : Q;
  foodEaten : Z;
  redBlocksEaten : Z;
  greenBlocksEaten : Z;
  obstacles : list Pos;
  redBlocks : list Pos;
  greenBlocks : list Pos;
  player : Pos;
  food : Pos;
  moveHistory : list string;
  cyclePenaltyCount : Z;
  wallPenaltyCount : Z;
  visitedCells : list Pos
}.

(** Assignments to one field: [this.f = v]. *)
Definition set_tickCount (g : Game) (v : Z) : Game :=
  {| width := width g; height := height g; tickCount := v; score := score g;
     foodEaten := foodEaten g; redBlocksEaten := redBlocksEaten g;
     greenBlocksEaten := greenBlocksEaten g; obstacles := obstacles g;
     redBlocks := redBlocks g; greenBlocks := greenBlocks g;
     player := player g; food := food g; moveHistory := moveHistory g;
     cyclePenaltyCount := cyclePenaltyCount g;
     wallPenaltyCount := wallPenaltyCount g; visitedCells := visitedCells g |}.

Definition set_score (g : Game) (v : Q) : Game :=
  {| width := width g; height := height g; tickCount := tickCount g;
     score := v; foodEaten := foodEaten g; redBlocksEaten := redBlocksEaten g;
     greenBlocksEaten := greenBlocksEaten g; obstacles := obstacles g;
     redBlocks := redBlocks g; greenBlocks := greenBlocks g;
     player := player g; food := food g; moveHistory := moveHistory g;
     cyclePenaltyCount := cyclePenaltyCount g;
     wallPenaltyCount := wallPenaltyCount g; visitedCells := visitedCells g |}.

Definition set_foodEaten (g : Game) (v : Z) : Game :=
  {| width := width g; height := height g; tickCount := tickCount g;
     score := score g; foodEaten := v; redBlocksEaten := redBlocksEaten g;
     greenBlocksEaten := greenBlocksEaten g; obstacles := obstacles g;
     redBlocks := redBlocks g; greenBlocks := greenBlocks g;
     player := player g; food := food g; moveHistory := moveHistory g;
     cyclePenaltyCount := cyclePenaltyCount g;
     wallPenaltyCount := wallPenaltyCount g; visitedCells := visitedCells g |}.

Definition set_redBlocksEaten (g : Game) (v : Z) : Game :=
  {| width := width g; height := height g; tickCount := tickCount g;
     score := score g; foodEaten := foodEaten g; redBlocksEaten := v;
     greenBlocksEaten := greenBlocksEaten g; obstacles := obstacles g;
     redBlocks := redBlocks g; greenBlocks := greenBlocks g;
     player := player g; food := food g; moveHistory := moveHistory g;
     cyclePenaltyCount := cyclePenaltyCount g;
     wallPenaltyCount := wallPenaltyCount g; visitedCells := visitedCells g |}.

Definition set_greenBlocksEaten (g : Game) (v : Z) : Game :=
  {| width := width g; height := height g; tickCount := tickCount g;
     score := score g; foodEaten := foodEaten g;
     redBlocksEaten := redBlocksEaten g; greenBlocksEaten := v;
     obstacles := obstacles g; redBlocks := redBlocks g;
     greenBlocks := greenBlocks g; player := player g; food := food g;
     moveHistory := moveHistory g; cyclePenaltyCount := cyclePenaltyCount g;
     wallPenaltyCount := wallPenaltyCount g; visitedCells := visitedCells g |}.

Definition set_obstacles (g : Game) (v : list Pos) : Game :=
  {| width := width g; height := height g; tickCount := tickCount g;
     score := score g; foodEaten := foodEaten g;
     redBlocksEaten := redBlocksEaten g;
     greenBlocksEaten := greenBlocksEaten g; obstacles := v;
     redBlocks := redBlocks g; greenBlocks := greenBlocks g;
     player := player g; food := food g; moveHistory := moveHistory g;
     cyclePenaltyCount := cyclePenaltyCount g;
     wallPenaltyCount := wallPenaltyCount g; visitedCells := visitedCells g |}.

Definition set_redBlocks (g : Game) (v : list Pos) : Game :=
  {| width := width g; height := height g; tickCount := tickCount g;
     score := score g; foodEaten := foodEaten g;
     redBlocksEaten := redBlocksEaten g;
     greenBlocksEaten := greenBlocksEaten g; obstacles := obstacles g;
     redBlocks := v; greenBlocks := greenBlocks g; player := player g;
     food := food g; moveHistory := moveHistory g;
     cyclePenaltyCount := cyclePenaltyCount g;
     wallPenaltyCount := wallPenaltyCount g; visitedCells := visitedCells g |}.

Definition set_greenBlocks (g : Game) (v : list Pos) : Game :=
  {| width := width g; height := height g; tickCount := tickCount g;
     score := score g; foodEaten := foodEaten g;
     redBlocksEaten := redBlocksEaten g;
     greenBlocksEaten := greenBlocksEaten g; obstacles := obstacles g;
     redBlocks := redBlocks g; greenBlocks := v; player := player g;
     food := food g; moveHistory := moveHistory g;
     cyclePenaltyCount := cyclePenaltyCount g;
     wallPenaltyCount := wallPenaltyCount g; visitedCells := visitedCells g |}.

Definition set_player (g : Game) (v : Pos) : Game :=
  {| width := width g; height := height g; tickCount := tickCount g;
     score := score g; foodEaten := foodEaten g;
     redBlocksEaten := redBlocksEaten g;
     greenBlocksEaten := greenBlocksEaten g; obstacles := obstacles g;
     redBlocks := redBlocks g; greenBlocks := greenBlocks g; player := v;
     food := food g; moveHistory := moveHistory g;
     cyclePenaltyCount := cyclePenaltyCount g;
     wallPenaltyCount := wallPenaltyCount g; visitedCells := visitedCells g |}.

Definition set_food (g : Game) (v : Pos) : Game :=
  {| width := width g; height := height g; tickCount := tickCount g;
     score := score g; foodEaten := foodEaten g;
     redBlocksEaten := redBlocksEaten g;
     greenBlocksEaten := greenBlocksEaten g; obstacles := obstacles g;
     redBlocks := redBlocks g; greenBlocks := greenBlocks g;
     player := player g; food := v; moveHistory := moveHistory g;
     cyclePenaltyCount := cyclePenaltyCount g;
     wallPenaltyCount := wallPenaltyCount g; visitedCells := visitedCells g |}.

Definition set_moveHistory (g : Game) (v : list string) : Game :=
  {| width := width g; height := height g; tickCount := tickCount g;
     score := score g; foodEaten := foodEaten g;
     redBlocksEaten := redBlocksEaten g;
     greenBlocksEaten := greenBlocksEaten g; obstacles := obstacles g;
     redBlocks := redBlocks g; greenBlocks := greenBlocks g;
     player := player g; food := food g; moveHistory := v;
     cyclePenaltyCount := cyclePenaltyCount g;
     wallPenaltyCount := wallPenaltyCount g; visitedCells := visitedCells g |}.

Definition set_cyclePenaltyCount (g : Game) (v : Z) : Game :=
  {| width := width g; height := height g; tickCount := tickCount g;
     score := score g; foodEaten := foodEaten g;
     redBlocksEaten := redBlocksEaten g;
     greenBlocksEaten := greenBlocksEaten g; obstacles := obstacles g;
     redBlocks := redBlocks g; greenBlocks := greenBlocks g;
     player := player g; food := food g; moveHistory := moveHistory g;
     cyclePenaltyCount := v; wallPenaltyCount := wallPenaltyCount g;
     visitedCells := visitedCells g |}.

Definition set_wallPenaltyCount (g : Game) (v : Z) : Game :=
  {| width := width g; height := height g; tickCount := tickCount g;
     score := score g; foodEaten := foodEaten g;
     redBlocksEaten := redBlocksEaten g;
     greenBlocksEaten := greenBlocksEaten g; obstacles := obstacles g;
     redBlocks := redBlocks g; greenBlocks := greenBlocks g;
     player := player g; food := food g; moveHistory := moveHistory g;
     cyclePenaltyCount := cyclePenaltyCount g; wallPenaltyCount := v;
     visitedCells := visitedCells g |}.

Definition set_visitedCells (g : Game) (v : list Pos) : Game :=
  {| width := width g; height := height g; tickCount := tickCount g;
     score := score g; foodEaten := foodEaten g;
     redBlocksEaten := redBlocksEaten g;
     greenBlocksEaten := greenBlocksEaten g; obstacles := obstacles g;
     redBlocks := redBlocks g; greenBlocks := greenBlocks g;
     player := player g; food := food g; moveHistory := moveHistory g;
     cyclePenaltyCount := cyclePenaltyCount g;
     wallPenaltyCount := wallPenaltyCount g; visitedCells := v |}.

(** *** Queries *)

Definition isWithinBounds (g : Game) (cx cy : Z) : bool :=
  (0 <=? cx) && (cx <? width g) && (0 <=? cy) && (cy <? height g).

(** [isOccupied(x, y)]; the player and the food are tested only once they
    have been assigned, which matters inside the constructor. *)
Definition isOccupied (player food : option Pos) (obstacles redBlocks greenBlocks : list Pos)
    (cx cy : Z) : bool :=
  if match player with Some p => isAt cx cy p | None => false end then true
  else if match food with Some f => isAt cx cy f | None => false end then true
  else if existsb (isAt cx cy) obstacles then true
  else if existsb (isAt cx cy) redBlocks then true
  else if existsb (isAt cx cy) greenBlocks then true
  else false.

Definition boardFull : string := "Unable to find free position on board.".
Definition outOfFuel : string := "loop bound of the embedding exhausted".

(** The do-while loop of [getRandomFreePosition]: draw a cell, count the
    attempt, throw once the count passes 1000, go on while the cell is
    occupied. The loop runs at most 1001 times, which is what [fuel] is set
    to; [freePositionLoop_run] shows it is never used up. *)
Fixpoint freePositionLoop (fuel : nat) (width height : Z) (occupied : Z -> Z -> bool)
    (attempts : Z) : M Rng Pos :=
  match fuel with
  | O => throw outOfFuel
  | S fuel' =>
      cx <- randomBelow width ;;
      cy <- randomBelow height ;;
      let attempts := attempts + 1 in
      if 1000 <? attempts then throw boardFull
      else if occupied cx cy then freePositionLoop fuel' width height occupied attempts
      else ret {| x := cx; y := cy |}
  end.

Definition freePosition (width height : Z) (occupied : Z -> Z -> bool) : M Rng Pos :=
  freePositionLoop 1001 width height occupied 0.

(** The object together with the source of randomness its methods read. *)
Record World : Type := { this : Game; rng : Rng }.

Definition liftRng {A : Type} (c : M Rng A) : M World A :=
  fun w => let (o, r) := c (rng w) in (o, {| this := this w; rng := r |}).

Definition getThis : M World Game := fun w => (Return (this w), w).

Definition update (f : Game -> Game) : M World unit :=
  fun w => (Return tt, {| this := f (this w); rng := rng w |}).

Definition getRandomFreePosition : M World Pos :=
  g <- getThis ;;
  liftRng (freePosition (width g) (height g)
             (isOccupied (Some (player g)) (Some (food g))
                         (obstacles g) (redBlocks g) (greenBlocks g))).

(** *** Obstacle layouts *)

(** The values a loop [for (v = lo; v <= hi; v++)] takes. *)
Definition range (lo hi : Z) : list Z :=
  map (fun i => lo + Z.of_nat i) (seq 0 (Z.to_nat (hi - lo + 1))).

Definition crossObstacles (width height : Z) : list Pos :=
  let centerX := (width - 1) / 2 in
  let centerY := (height - 1) / 2 in
  flat_map (fun cy => map (fun cx => {| x := cx; y := cy |}) (range (centerX - 1) (centerX + 1)))
           (range (centerY - 4) (centerY + 4)) ++
  flat_map (fun cx => map (fun cy => {| x := cx; y := cy |}) (range (centerY - 1) (centerY + 1)))
           (range (centerX - 4) (centerX + 4)).

Definition diamondRow (centerX half cy : Z) : list Pos :=
  map (fun cx => {| x := cx; y := cy |}) (range (centerX - half) (centerX + half)).

Definition diamondObstacles (width height : Z) : list Pos :=
  let centerX := (width - 1) / 2 in
  let centerY := (height - 1) / 2 in
  [{| x := centerX; y := centerY - 3 |}] ++
  diamondRow centerX 1 (centerY - 2) ++
  diamondRow centerX 2 (centerY - 1) ++
  diamondRow centerX 3 centerY ++
  diamondRow centerX 2 (centerY + 1) ++
  diamondRow centerX 1 (centerY + 2) ++
  [{| x := centerX; y := centerY + 3 |}].

(** [Array.from(new Map(obstacles.map(o => [key(o), o])).values())]: one
    entry per key, at the place of the key's first occurrence. *)
Fixpoint distinctCells (cells seen : list Pos) : list Pos :=
  match cells with
  | [] => []
  | o :: cells' =>
      if existsb (isAt (x o) (y o)) seen then distinctCells cells' seen
      else o :: distinctCells cells' (o :: seen)
  end.

Definition setObstaclePattern (pattern : string) (g : Game) : Game :=
  let obstacles :=
    if (pattern =? "normal")%string then crossObstacles (width g) (height g)
    else if (pattern =? "diamond")%string then diamondObstacles (width g) (height g)
    else if (pattern =? "none")%string then []
    else crossObstacles (width g) (height g) in
  set_obstacles g obstacles.

(** *** Moves *)

Definition movePlayer (direction : string) (g : Game) : Game :=
  let newX := x (player g) in
  let newY := y (player g) in
  let target :=
    if (direction =? "up")%string then Some (newX, newY - 1)
    else if (direction =? "down")%string then Some (newX, newY + 1)
    else if (direction =? "left")%string then Some (newX - 1, newY)
    else if (direction =? "right")%string then Some (newX + 1, newY)
    else None in
  match target with
  | None => g
  | Some (newX, newY) =>
      if negb (isWithinBounds g newX newY) then g
      else if existsb (isAt newX newY) (obstacles g) then g
      else set_player g {| x := newX; y := newY |}
  end.

(** *** Pickups *)

(** [this.score += delta]; the sum is the exact one, which the code rounds to
    binary64. *)
Definition addScore (delta : Q) (g : Game) : Game := set_score g (score g + delta)%Q.

(** [array.splice(start, 1)] for any integer [start]: a negative one counts
    from the end, one past the end removes nothing. *)
Definition splice1 (start : Z) (array : list Pos) : list Pos :=
  let len := Z.of_nat (length array) in
  removeAt (Z.to_nat (if start <? 0 then Z.max (len + start) 0 else start)) array.

(** The loop over [this.greenBlocks]: [i] is the loop index; a block under
    the player is removed, which leaves [i] in place ([i--] then [i++]), and
    takes one red block drawn at random with it. Every round either removes a
    green block or advances [i], so the loop ends within as many rounds as
    there are green blocks at its start, which is what [fuel] is set to. *)
Fixpoint greenLoop (fuel : nat) (i : nat) : M World unit :=
  match fuel with
  | O => ret tt
  | S fuel' =>
      g <- getThis ;;
      match nth_error (greenBlocks g) i with
      | None => ret tt
      | Some gb =>
          if (x (player g) =? x gb) && (y (player g) =? y gb) then
            update (addScore 25) ;;
            update (fun g => set_greenBlocksEaten g (greenBlocksEaten g + 1)) ;;
            update (fun g => set_greenBlocks g (removeAt i (greenBlocks g))) ;;
            g <- getThis ;;
            (if (0 <? length (redBlocks g))%nat then
               randIndex <- liftRng (randomBelow (Z.of_nat (length (redBlocks g)))) ;;
               update (fun g => set_redBlocks g (splice1 randIndex (redBlocks g)))
             else ret tt) ;;
            greenLoop fuel' i
          else greenLoop fuel' (S i)
      end
  end.

(** The loop over [this.redBlocks], in the same way. *)
Fixpoint redLoop (fuel : nat) (i : nat) : M World unit :=
  match fuel with
  | O => ret tt
  | S fuel' =>
      g <- getThis ;;
      match nth_error (redBlocks g) i with
      | None => ret tt
      | Some rb =>
          if (x (player g) =? x rb) && (y (player g) =? y rb) then
            update (addScore (-20)) ;;
            update (fun g => set_redBlocksEaten g (redBlocksEaten g + 1)) ;;
            update (fun g => set_redBlocks g (removeAt i (redBlocks g))) ;;
            redLoop fuel' i
          else redLoop fuel' (S i)
      end
  end.

Definition checkCollisions : M World unit :=
  g <- getThis ;;
  (if (x (player g) =? x (food g)) && (y (player g) =? y (food g)) then
     update (addScore 40) ;;
     update (fun g => set_foodEaten g (foodEaten g + 1)) ;;
     p <- getRandomFreePosition ;;
     update (fun g => set_food g p)
   else ret tt) ;;
  g <- getThis ;;
  greenLoop (length (greenBlocks g)) 0 ;;
  g <- getThis ;;
  redLoop (length (redBlocks g)) 0.

(** *** Ticks and bonus blocks *)

Definition spawnBonusPair : M World unit :=
  redPos <- getRandomFreePosition ;;
  update (fun g => set_redBlocks g (redBlocks g ++ [redPos])) ;;
  greenPos <- getRandomFreePosition ;;
  update (fun g => set_greenBlocks g (greenBlocks g ++ [greenPos])).

(** [a % b === 0] on integers, [a] not negative: a zero [b] makes the
    remainder [NaN], which is not [0]. *)
Definition remainderIsZero (a b : Z) : bool :=
  if b =? 0 then false else Z.rem a b =? 0.

Definition tick (K : Constants) : M World unit :=
  update (fun g => set_tickCount g (tickCount g + 1)) ;;
  g <- getThis ;;
  if remainderIsZero (tickCount g) (TICK_SPAWN_INTERVAL K) then spawnBonusPair else ret tt.

(** *** Snapshots and reset *)

Record GameState : Type := {
  state_player : Pos;
  state_food : option Pos;
  state_redBlocks : list Pos;
  state_greenBlocks : list Pos;
  state_obstacles : list Pos;
  state_tickCount : Z;
  state_score : Q
}.

Definition getState (g : Game) : GameState :=
  {| state_player := player g;
     state_food := Some (food g);
     state_redBlocks := redBlocks g;
     state_greenBlocks := greenBlocks g;
     state_obstacles := obstacles g;
     state_tickCount := tickCount g;
     state_score := score g |}.

Definition reset : M World GameState :=
  update (fun g => set_tickCount g 0) ;;
  update (fun g => set_score g 0%Q) ;;
  p <- getRandomFreePosition ;;
  update (fun g => set_player g p) ;;
  update (fun g => set_redBlocks g []) ;;
  update (fun g => set_greenBlocks g []) ;;
  f <- getRandomFreePosition ;;
  update (fun g => set_food g f) ;;
  update (fun g => set_moveHistory g []) ;;
  update (fun g => set_visitedCells g [player g]) ;;
  g <- getThis ;;
  ret (getState g).

(** The constructor: the cross is laid out, then the player and the food are
    placed, each on a cell free of what has been assigned so far. *)
Definition freshGame (width height : Z) (obstacles : list Pos) (player food : Pos) : Game :=
  {| width := width; height := height; tickCount := 0; score := 0%Q;
     foodEaten := 0; redBlocksEaten := 0; greenBlocksEaten := 0;
     obstacles := obstacles; redBlocks := []; greenBlocks := [];
     player := player; food := food; moveHistory := [];
     cyclePenaltyCount := 0; wallPenaltyCount := 0;
     visitedCells := [player] |}.

Definition newGame (K : Constants) : M Rng Game :=
  let width := BOARD_WIDTH K in
  let height := BOARD_HEIGHT K in
  let obstacles := distinctCells (crossObstacles width height) [] in
  player <- freePosition width height (isOccupied None None obstacles [] []) ;;
  food <- freePosition width height (isOccupied (Some player) None obstacles [] []) ;;
  ret (freshGame width height obstacles player food).

(** *** One step *)

(** [array.slice(-n)]. *)
Definition lastn {A : Type} (n : nat) (array : list A) : list A :=
  skipn (length array - n) array.

(** [array.join(',')]. *)
Definition join (array : list string) : string := String.concat "," array.

(** [[...new Set(array)]]. *)
Fixpoint distinctMoves (array seen : list string) : list string :=
  match array with
  | [] => []
  | a :: array' =>
      if existsb (String.eqb a) seen then distinctMoves array' seen
      else a :: distinctMoves array' (a :: seen)
  end.

(** The loop that clears [patternAlternates] at the first two equal
    neighbours. *)
Fixpoint patternAlternates (last10 : list string) : bool :=
  match last10 with
  | a :: (b :: _) as rest => if (a =? b)%string then false else patternAlternates rest
  | _ => true
  end.

Definition countSame (candidate : string) (last10 : list string) : Z :=
  fold_left (fun count move => count + (if (move =? candidate)%string then 1 else 0)) last10 0.

Definition recordMove (action : string) (g : Game) : Game :=
  let g := set_moveHistory g (moveHistory g ++ [action]) in
  if (20 <? length (moveHistory g))%nat then set_moveHistory g (tl (moveHistory g)) else g.

Definition explorationBonus (g : Game) : Game :=
  if negb (existsb (isAt (x (player g)) (y (player g))) (visitedCells g)) then
    let g := set_visitedCells g (visitedCells g ++ [player g]) in
    addScore EXPLORATION_BONUS g
  else g.

Definition distanceShaping (oldX oldY : Z) (g : Game) : Game :=
  let d_old := Z.abs (oldX - x (food g)) + Z.abs (oldY - y (food g)) in
  let d_new := Z.abs (x (player g) - x (food g)) + Z.abs (y (player g) - y (food g)) in
  let shapingReward := (1 * inject_Z (d_old - d_new))%Q in
  let g := addScore shapingReward g in
  let progressThreshold := (1 # 2)%Q in
  if Qltb (inject_Z (d_old - d_new)) progressThreshold then addScore (- (1 # 2))%Q g else g.

Definition cyclePenalty (g : Game) : Game :=
  if (8 <=? length (moveHistory g))%nat then
    let last8 := lastn 8 (moveHistory g) in
    let firstHalf := join (firstn 4 last8) in
    let secondHalf := join (skipn 4 last8) in
    if (firstHalf =? secondHalf)%string then
      let g := addScore (- (3 # 2))%Q g in
      set_cyclePenaltyCount g (cyclePenaltyCount g + 1)
    else g
  else g.

Definition repetitionPenalty (g : Game) : Game :=
  if (10 <=? length (moveHistory g))%nat then
    let last10 := lastn 10 (moveHistory g) in
    let uniqueMoves := distinctMoves last10 [] in
    if (length uniqueMoves =? 1)%nat then addScore (- 2)%Q g
    else if (length uniqueMoves =? 2)%nat then
      if patternAlternates last10 then addScore (- 2)%Q g else g
    else
      let candidate := nth 0 last10 ""%string in
      if 8 <=? countSame candidate last10 then addScore (- (1 # 2))%Q g else g
  else g.

(** The block "Apply penalties for repeated move patterns" of [step]. *)
Definition patternPenalties (g : Game) : Game := repetitionPenalty (cyclePenalty g).

Definition wallPenalty (oldX oldY : Z) (g : Game) : Game :=
  if (x (player g) =? oldX) && (y (player g) =? oldY) then
    let g := addScore (- 3)%Q g in
    set_wallPenaltyCount g (wallPenaltyCount g + 1)
  else g.

Record StepResult : Type := { state : GameState; reward : Q; done : bool }.

Definition step (K : Constants) (action : string) : M World StepResult :=
  g <- getThis ;;
  let oldX := x (player g) in
  let oldY := y (player g) in
  let previousScore := score g in
  update (movePlayer action) ;;
  update (recordMove action) ;;
  update explorationBonus ;;
  update (distanceShaping oldX oldY) ;;
  update patternPenalties ;;
  update (wallPenalty oldX oldY) ;;
  checkCollisions ;;
  tick K ;;
  g <- getThis ;;
  let reward := (score g - previousScore)%Q in
  ret {| state := getState g; reward := reward; done := false |}.

Definition actions : list string := ["up"; "down"; "left"; "right"]%string.

(** *** Vocabulary of the properties *)

(** The cell one step away from [p] in a direction. *)
Definition moved (direction : string) (p : Pos) : Pos :=
  if (direction =? "up")%string then {| x := x p; y := y p - 1 |}
  else if (direction =? "down")%string then {| x := x p; y := y p + 1 |}
  else if (direction =? "left")%string then {| x := x p - 1; y := y p |}
  else if (direction =? "right")%string then {| x := x p + 1; y := y p |}
  else p.

(** The [k]-th cell a placement draws, from the source [r] it starts with. *)
Definition drawnCell (width height : Z) (r : Rng) (k : nat) : Pos :=
  {| x := Qfloor (entropy r (calls r + 2 * k) * inject_Z width);
     y := Qfloor (entropy r (calls r + 2 * k + 1) * inject_Z height) |}.

(** The index of the first free cell among the first [n] of a sequence. *)
Fixpoint firstFree (occupied : Z -> Z -> bool) (cell : nat -> Pos) (n : nat) : option nat :=
  match n with
  | O => None
  | S n' =>
      if occupied (x (cell O)) (y (cell O))
      then option_map S (firstFree occupied (fun k => cell (S k)) n')
      else Some O
  end.

(** What a game object counts as occupied. *)
Definition occupiedIn (g : Game) : Z -> Z -> bool :=
  isOccupied (Some (player g)) (Some (food g)) (obstacles g) (redBlocks g) (greenBlocks g).

Definition Pos_eq_dec (a b : Pos) : {a = b} + {a <> b}.
Proof. decide equality; apply Z.eq_dec. Defined.

(** The worlds a program can be in: a freshly constructed game, and what
    the calls of [step] and [reset] that return make of it. *)
Inductive reachable (K : Constants) : World -> Prop :=
| reachable_new (r r' : Rng) (g : Game) :
    newGame K r = (Return g, r') -> reachable K {| this := g; rng := r' |}
| reachable_step (w w' : World) (action : string) (result : StepResult) :
    reachable K w -> In action actions ->
    step K action w = (Return result, w') -> reachable K w'
| reachable_reset (w w' : World) (s : GameState) :
    reachable K w -> reset w = (Return s, w') -> reachable K w'.

(** The 20 by 15 board of the specification's scenario, with a spawn
    interval of [n] ticks. *)
Definition board20x15 (n : Z) : Constants :=
  {| BOARD_WIDTH := 20; BOARD_HEIGHT := 15; TICK_SPAWN_INTERVAL := n |}.

(** A game on that board as the constructor leaves it, the player on
    [player] and the food on [food], with [history] as its move history. *)
Definition gameOn (player food : Pos) (history : list string) : Game :=
  set_moveHistory
    (freshGame 20 15 (distinctCells (crossObstacles 20 15) []) player food) history.


(** Nine moves up followed by one move down. *)
Definition nineUpOneDown : list string :=
  ["up"; "up"; "up"; "up"; "up"; "up"; "up"; "up"; "up"; "down"]%string.

(** *** Vocabulary of the pickups *)

(** The player standing on [p] is on the block [b]. *)
Definition under (p b : Pos) : bool := (x p =? x b) && (y p =? y b).

(** The blocks that are not under a player standing on [p]. *)
Definition notUnder (p : Pos) (blocks : list Pos) : list Pos :=
  filter (fun b => negb (under p b)) blocks.

(** The red blocks and the source of randomness after [n] green pickups:
    each pickup, while there is a red block left, draws one number and
    removes the red block at the index it scales to. *)
Fixpoint dropRandomReds (n : nat) (reds : list Pos) (r : Rng) : list Pos * Rng :=
  match n with
  | O => (reds, r)
  | S n' =>
      match reds with
      | [] => dropRandomReds n' reds r
      | _ :: _ =>
          dropRandomReds n'
            (splice1 (Qfloor (entropy r (calls r) * inject_Z (Z.of_nat (length reds)))) reds)
            (advance r 1)
      end
  end.



(** The fields no pickup writes. *)
Definition samePlayfield (g g' : Game) : Prop :=
  width g' = width g /\ height g' = height g /\ tickCount g' = tickCount g /\
  obstacles g' = obstacles g /\ player g' = player g /\
  moveHistory g' = moveHistory g /\ cyclePenaltyCount g' = cyclePenaltyCount g /\
  wallPenaltyCount g' = wallPenaltyCount g /\ visitedCells g' = visitedCells g.

(** The world once the food has been picked up and placed on the [k]-th
    cell drawn. *)
Definition relocated (w : World) (k : nat) : World :=
  let g := this w in
  {| this := set_food (set_foodEaten (addScore 40 g) (foodEaten g + 1))
                      (drawnCell (width g) (height g) (rng w) k);
     rng := advance (rng w) (2 * (k + 1)) |}.


(** *** Vocabulary of the steps *)

(** The game once [step] has moved the player and shaped the score, before
    it looks for pickups. *)
Definition shaped (action : string) (g : Game) : Game :=
  let oldX := x (player g) in
  let oldY := y (player g) in
  wallPenalty oldX oldY
    (patternPenalties
       (distanceShaping oldX oldY
          (explorationBonus (recordMove action (movePlayer action g))))).

(** The fields the shaping of the score does not write: all but the score,
    the move history, the two penalty counters and the visited cells. *)
Definition sameItems (g g' : Game) : Prop :=
  width g' = width g /\ height g' = height g /\ tickCount g' = tickCount g /\
  obstacles g' = obstacles g /\ player g' = player g /\ food g' = food g /\
  redBlocks g' = redBlocks g /\ greenBlocks g' = greenBlocks g /\
  foodEaten g' = foodEaten g /\ redBlocksEaten g' = redBlocksEaten g /\
  greenBlocksEaten g' = greenBlocksEaten g.

(** The board and the player on it. *)
Definition sameBoard (g g' : Game) : Prop :=
  width g' = width g /\ height g' = height g /\
  obstacles g' = obstacles g /\ player g' = player g.

(** A computation that leaves the board and the player as they are,
    whether it returns or throws. *)
Definition keepsBoard {A : Type} (c : M World A) : Prop :=
  forall w, sameBoard (this w) (this (snd (c w))).

(** The Manhattan distance of two cells. *)
Definition distance (a b : Pos) : Z := Z.abs (x a - x b) + Z.abs (y a - y b).

(** Worlds of the examples of a failing step. In [foodTrap] the player
    stands right of the food and every draw to come is 0, which is the cell
    of the food. In an [idle] world the player stands on (0,0), the food lies
    next to it, there are no blocks, [j] ticks have passed, and every draw to
    come is 0, which is the cell of the player. *)
Definition foodTrapDraws : list Q := [1 # 20; 0; 0; 0]%Q.
Definition idleDraws : list Q := [0; 0; 1 # 20; 0]%Q.

Definition foodTrap : World :=
  {| this := gameOn {| x := 1; y := 0 |} {| x := 0; y := 0 |} [];
     rng := advance (rngOf foodTrapDraws) 4 |}.

Definition idle (j : Z) (w : World) : Prop :=
  sameItems (set_tickCount (gameOn {| x := 0; y := 0 |} {| x := 1; y := 0 |} []) j) (this w) /\
  rng w = advance (rngOf idleDraws) 4.

(** *** The pattern penalties as the specification words them *)

Definition sameMoves (a b : list string) : bool :=
  if list_eq_dec string_dec a b then true else false.

Definition allIdentical (moves : list string) : bool :=
  match moves with
  | [] => true
  | a :: rest => forallb (String.eqb a) rest
  end.

(** The moves go [a, b, a, b, ...] for two different values [a] and [b]. *)
Definition strictlyAlternates (moves : list string) : bool :=
  match moves with
  | a :: b :: _ =>
      negb (a =? b)%string &&
      sameMoves moves (map (fun i => if Nat.even i then a else b) (seq 0 (length moves)))
  | _ => false
  end.

(** Some single value accounts for at least 80% of the moves. *)
Definition dominated (moves : list string) : bool :=
  existsb (fun a => (8 * length moves <=? 10 * length (filter (String.eqb a) moves))%nat) moves.

(** What is to be subtracted for a trailing history of at least 10 moves:
    1.5 for two identical halves of the last 8; 2 for 10 identical moves; 2
    for 10 strictly alternating moves; otherwise 0.5 for a move that
    accounts for at least 80% of the last 10. *)
Definition specPatternPenalty (history : list string) : Q :=
  let last8 := lastn 8 history in
  let last10 := lastn 10 history in
  ((if sameMoves (firstn 4 last8) (skipn 4 last8) then 3 # 2 else 0) +
   (if allIdentical last10 then 2
    else if strictlyAlternates last10 then 2
    else if dominated last10 then 1 # 2
    else 0))%Q.

(** What one call of [step] subtracts in its pattern block. *)
Definition codePatternPenalty (g : Game) : Q := (score g - score (patternPenalties g))%Q.

End Grid.

(** ** Where the pieces lie (vocabulary of the invariants of game/game.js) *)

Module Layout.
Import Js Grid.
Local Open Scope Z_scope.

(** The cells of what lies on the board: the food and the bonus blocks. *)
Definition items (g : Game) : list Pos := food g :: redBlocks g ++ greenBlocks g.

(** No two items share a cell, none lies on an obstacle, and the player
    stands on no obstacle. *)
Definition itemsApart (g : Game) : Prop :=
  NoDup (items g) /\
  (forall c, In c (items g) -> ~ In c (obstacles g)) /\
  ~ In (player g) (obstacles g).

(** Moreover the player stands on no item. *)
Definition wellPlaced (g : Game) : Prop := itemsApart g /\ ~ In (player g) (items g).

Definition onBoard (g : Game) (c : Pos) : Prop := isWithinBounds g (x c) (y c) = true.

Definition allOnBoard (g : Game) : Prop := onBoard g (player g) /\ Forall (onBoard g) (items g).

(** Every value [Math.random()] returns lies in [0,1). *)
Definition fairDraws (r : Rng) : Prop := forall i, (0 <= entropy r i < 1)%Q.

(** The direction that undoes a move. *)
Definition opposite (direction : string) : string :=
  if (direction =? "up")%string then "down"%string
  else if (direction =? "down")%string then "up"%string
  else if (direction =? "left")%string then "right"%string
  else if (direction =? "right")%string then "left"%string
  else direction.

(** What the two loops of [checkCollisions] make of the world [w1] in which
    they start: with G green blocks under the player, and R red ones once the
    green pickups have taken their red blocks, the world [w'] they end in. *)
Definition blocksPicked (w1 w' : World) : Prop :=
  let g := this w1 in
  let g' := this w' in
  let p := player g in
  let G := length (filter (under p) (greenBlocks g)) in
  let reds1 := fst (dropRandomReds G (redBlocks g) (rng w1)) in
  let R := length (filter (under p) reds1) in
  (score g' == score g + 25 * inject_Z (Z.of_nat G) - 20 * inject_Z (Z.of_nat R))%Q /\
  foodEaten g' = foodEaten g /\
  greenBlocksEaten g' = greenBlocksEaten g + Z.of_nat G /\
  redBlocksEaten g' = redBlocksEaten g + Z.of_nat R /\
  food g' = food g /\
  greenBlocks g' = notUnder p (greenBlocks g) /\
  redBlocks g' = notUnder p reds1 /\
  rng w' = snd (dropRandomReds G (redBlocks g) (rng w1)) /\
  samePlayfield g g'.

End Layout.

Module Samples.
Import Js Grid.
Local Open Scope Z_scope.

(** A world for the examples: the game the constructor yields from the
    draws of [idleDraws], the player on (0,0) and the food on (1,0), with
    the draws of [draws] to come. *)
Definition startWorld (draws : list Q) : World :=
  {| this := gameOn {| x := 0; y := 0 |} {| x := 1; y := 0 |} [];
     rng := rngOf draws |}.

(** Draws that place a piece on (2,0) and then one on (3,0). *)
Definition twoCells : list Q := [1 # 10; 0; 3 # 20; 0]%Q.

End Samples.

Module Patterns.
Import Js Grid.
Local Open Scope Z_scope.

(** The cell [c] moved by [dx] columns and [dy] rows. *)
Definition shifted (dx dy : Z) (c : Pos) : Pos := {| x := x c + dx; y := y c + dy |}.

(** The centre the obstacle layouts are drawn around. *)
Definition center (g : Game) : Pos := {| x := (width g - 1) / 2; y := (height g - 1) / 2 |}.

(** The cells of the cross around [o]: a bar 3 wide and 9 high and a bar 9
    wide and 3 high. *)
Definition inCross (o c : Pos) : Prop :=
  (Z.abs (x c - x o) <= 1 /\ Z.abs (y c - y o) <= 4) \/
  (Z.abs (x c - x o) <= 4 /\ Z.abs (y c - y o) <= 1).

(** The cells of the diamond around [o]: those at most 3 steps away. *)
Definition inDiamond (o c : Pos) : Prop := Z.abs (x c - x o) + Z.abs (y c - y o) <= 3.

End Patterns.

(** ** Feature extraction (ai/train.js) *)

Module Features.
Import Js Grid.
Local Open Scope Z_scope.

Definition gridSize : Z := 9.
Definition numClasses : nat := 6.

(** [determineCategory(x, y, state, game)]. *)
Definition determineCategory (cx cy : Z) (state : GameState) (game : Game) : nat :=
  if (cx <? 0) || (cx >=? width game) || (cy <? 0) || (cy >=? height game) then 0
  else if existsb (isAt cx cy) (state_obstacles state) then 0
  else if existsb (isAt cx cy) (state_redBlocks state) then 1
  else if existsb (isAt cx cy) (state_greenBlocks state) then 2
  else if match state_food state with Some f => isAt cx cy f | None => false end then 3
  else if isAt cx cy (state_player state) then 4
  else 5.

(** [array[i] = v] on an array whose slots may be empty ([None]): an index
    past the end lengthens the array, the slots in between staying empty. *)
Definition assign {A : Type} (array : list (option A)) (i : nat) (v : A) : list (option A) :=
  if (i <? length array)%nat then firstn i array ++ Some v :: skipn (S i) array
  else array ++ repeat None (i - length array) ++ [Some v].

(** [oneHotEncode(category, numCategories)]:
    [new Array(numCategories).fill(0)], then [vec[category] = 1]. *)
Definition oneHotEncode (category numCategories : nat) : list (option Z) :=
  let vec := repeat (Some 0) numCategories in
  assign vec category 1.

(** The object [{ grid, offset }]. *)
Record FeatureVector : Type := {
  grid : list (list (list (option Z)));
  offset : list Q
}.

(** What reading [food.x] throws when the food of the snapshot is [null]. *)
Definition nullRead : string :=
  "TypeError: Cannot read properties of null (reading 'x')".

(** [getFeatureVector(state, game)]. The two offsets are exact rationals;
    on a board of width or height 0 the quotient is not a finite number,
    which [Q] cannot tell: the properties ask for a positive size. *)
Definition getFeatureVector (state : GameState) (game : Game) : Outcome FeatureVector :=
  let player := state_player state in
  match state_food state with
  | None => Throw nullRead
  | Some food =>
      let dx := (5 * inject_Z (x food - x player) / inject_Z (width game))%Q in
      let dy := (5 * inject_Z (y food - y player) / inject_Z (height game))%Q in
      let half := gridSize / 2 in
      let grid :=
        map (fun i =>
               map (fun j =>
                      let cellX := x player + j in
                      let cellY := y player + i in
                      let cat := determineCategory cellX cellY state game in
                      oneHotEncode cat numClasses)
                   (range (- half) half))
            (range (- half) half) in
      Return {| grid := grid; offset := [dx; dy] |}
  end.

(** A vector of [numClasses] numbers, all 0 but a 1 at index [c]. *)
Definition oneHot (c : nat) : list (option Z) :=
  map (fun k => Some (if (k =? c)%nat then 1 else 0)) (seq 0 numClasses).

End Features.

(** ** Auto-play (index.js) *)

Module AutoPlay.
Import Js Grid.
Local Open Scope Z_scope.

(** The [getFeatureVector] of the auto-play mode, which reads the pieces
    from the game object itself. *)
Definition getFeatureVector (state : GameState) (game : Game) : Outcome Features.FeatureVector :=
  let player := state_player state in
  match state_food state with
  | None => Throw Features.nullRead
  | Some food =>
      let dx := (5 * inject_Z (x food - x player) / inject_Z (width game))%Q in
      let dy := (5 * inject_Z (y food - y player) / inject_Z (height game))%Q in
      let gridSize := 9 in
      let numClasses := 6%nat in
      let half := gridSize / 2 in
      let grid :=
        map (fun i =>
               map (fun j =>
                      let cellX := x player + j in
                      let cellY := y player + i in
                      let cat :=
                        if (cellX <? 0) || (cellX >=? width game) ||
                           (cellY <? 0) || (cellY >=? height game) then 0%nat
                        else if existsb (isAt cellX cellY) (obstacles game) then 0%nat
                        else if existsb (isAt cellX cellY) (redBlocks game) then 1%nat
                        else if existsb (isAt cellX cellY) (greenBlocks game) then 2%nat
                        else if isAt cellX cellY (Grid.food game) then 3%nat
                        else if isAt cellX cellY (Grid.player game) then 4%nat
                        else 5%nat in
                      let oneHot := repeat (Some 0) numClasses in
                      Features.assign oneHot cat 1)
                   (range (- half) half))
            (range (- half) half) in
      Return {| Features.grid := grid; Features.offset := [dx; dy] |}
  end.

End AutoPlay.

Module Sampling.
Import Js Replay.

(** An entry of a batch that is an entry of the buffer. *)
Definition fromBuffer (buffer : list Transition) (e : option Transition) : Prop :=
  exists t, e = Some t /\ In t buffer.

(** [transition.priority], or [Math.abs(transition.reward)] when it is
    [undefined]: the priority the sampler starts from. *)
Definition originalPriority (transition : Transition) : Q :=
  match priority transition with
  | Some p => p
  | None => Qabs (reward transition)
  end.


End Sampling.

(** ** The training loop (ai/train.js): rewards, actions and the purge *)

Module Training.
Import Js Replay.

Definition REWARD_MIN : Q := -20.
Definition REWARD_MAX : Q := 20.
Definition STEP_PENALTY : Q := 5 # 100.

(** [Math.max(a, b)] and [Math.min(a, b)] on numbers. *)
Definition Math_max (a b : Q) : Q := if Qltb a b then b else a.
Definition Math_min (a b : Q) : Q := if Qltb b a then b else a.

(** The reward of a step as it is stored:
    [Math.max(REWARD_MIN, Math.min(REWARD_MAX, rawReward - STEP_PENALTY))]. *)
Definition clipReward (reward : Q) : Q :=
  let rawReward := reward in
  let penalizedReward := (rawReward - STEP_PENALTY)%Q in
  let clippedReward := Math_max REWARD_MIN (Math_min REWARD_MAX penalizedReward) in
  clippedReward.

(** The transition pushed for a step, and the buffer after the push and
    the eviction; a step that reports [done] leaves the loop before the
    push. *)
Definition transitionFor (currentFeature : Feature) (actionIndex : Z) (clippedReward : Q)
    (nextFeature : Feature) (done : bool) : Transition :=
  {| state := currentFeature;
     action := actionIndex;
     reward := clippedReward;
     nextState := nextFeature;
     done := done;
     priority := Some (Qabs clippedReward) |}.

Definition recordStep (replayBuffer : list Transition) (currentFeature : Feature)
    (actionIndex : Z) (reward : Q) (nextFeature : Feature) (done : bool) : list Transition :=
  if done then replayBuffer
  else pushTransition replayBuffer
         (transitionFor currentFeature actionIndex (clipReward reward) nextFeature done).





(** [Math.floor] of a binary64 number; [None] for an infinity or a NaN. *)
Definition Math_floor (f : float) : option Z :=
  match Prim2SF f with
  | S754_zero _ => Some 0%Z
  | S754_finite s m e =>
      let v := if s then Z.neg m else Z.pos m in
      Some (if (0 <=? e)%Z then v * 2 ^ e else v / 2 ^ (- e))%Z
  | _ => None
  end.

(** [Math.floor(replayBuffer.length * 0.2)], in binary64 as the code
    computes it. *)
Definition numToRemove (length : nat) : option Z :=
  Math_floor (PrimFloat.of_uint63 (Uint63.of_Z (Z.of_nat length)) * 0.2)%float.

(** The number of entries the purge removes, checked on every length up to
    [n]. *)
Fixpoint fifthUpTo (n : nat) : bool :=
  match numToRemove n with
  | Some z => (z =? Z.of_nat (n / 5))%Z
  | None => false
  end &&
  match n with
  | O => true
  | S n' => fifthUpTo n'
  end.

End Training.

(** ** The sampler in the arithmetic of the code (ai/train.js) *)

(** [Replay] adds the shares of the wheel, and scales a draw to an index, in
    exact arithmetic. The code does both in binary64, where a product and a
    sum are rounded: this module is the same code with the numbers the
    program has, for the places where the rounding shows. *)
Module Binary64.
Import Js.

(** [Math.random()] as the binary64 numbers it returns, in call order. *)
Record Rng : Type := { entropy : nat -> float; calls : nat }.

Definition Math_random : M Rng float :=
  fun r => (Return (entropy r (calls r)), {| entropy := entropy r; calls := S (calls r) |}).

Definition rngOf (draws : list float) : Rng :=
  {| entropy := fun k => nth k draws 0%float; calls := 0 |}.

(** A length or an index as a Number; exact below 2^53. *)
Definition number (n : nat) : float := PrimFloat.of_uint63 (Uint63.of_Z (Z.of_nat n)).

(** [buffer[Math.floor(Math.random() * buffer.length)]]; an index that is
    not a number reads [undefined]. *)
Definition randomItem {A : Type} (buffer : list A) : M Rng (option A) :=
  (random <- Math_random ;;
   ret match Training.Math_floor (random * number (length buffer))%float with
       | Some index => item buffer index
       | None => None
       end)%js.

(** The two fields of a transition the sampler reads. *)
Record Transition : Type := { reward : float; priority : option float }.

Fixpoint uniformLoop (halfBatch : nat) (buffer : list Transition)
    (uniformSamples : list (option Transition)) : M Rng (list (option Transition)) :=
  match halfBatch with
  | O => ret uniformSamples
  | S n =>
      (sample <- randomItem buffer ;;
       uniformLoop n buffer (uniformSamples ++ [sample]))%js
  end.

(** [Math.pow(recencyWeight, alpha)] for [alpha = 2.0]: the product of the
    weight with itself, which is what V8's [pow] returns for the exponent 2. *)
Definition Math_pow_2 (base : float) : float := (base * base)%float.

Fixpoint effectivePrioritiesFrom (i len : nat) (rest : list Transition) : list float :=
  match rest with
  | [] => []
  | transition :: rest' =>
      let originalPriority :=
        match priority transition with
        | Some p => p
        | None => PrimFloat.abs (reward transition)
        end in
      let recencyWeight := (number (i + 1) / number len)%float in
      let effectivePriority := (originalPriority * Math_pow_2 recencyWeight)%float in
      effectivePriority :: effectivePrioritiesFrom (S i) len rest'
  end.

Definition totalOf (effectivePriorities : list float) : float :=
  fold_left (fun sum p => (sum + p)%float) effectivePriorities 0%float.

(** The cumulative shares the inner loop of the wheel compares the draw
    with, in turn. *)
Fixpoint cumulativeShares (totalPriority : float) (priorities : list float)
    (cumulative : float) : list float :=
  match priorities with
  | [] => []
  | p :: priorities' =>
      let cumulative := (cumulative + p / totalPriority)%float in
      cumulative :: cumulativeShares totalPriority priorities' cumulative
  end.

Fixpoint rouletteLoop (buffer : list Transition) (random totalPriority : float)
    (priorities : list float) (j : nat) (cumulative : float)
    (prioritizedSamples : list (option Transition)) : list (option Transition) :=
  match priorities with
  | [] => prioritizedSamples
  | p :: priorities' =>
      let cumulative := (cumulative + p / totalPriority)%float in
      if (random <? cumulative)%float
      then prioritizedSamples ++ [nth_error buffer j]
      else rouletteLoop buffer random totalPriority priorities' (S j) cumulative prioritizedSamples
  end.

Fixpoint prioritizedLoop (halfBatch : nat) (buffer : list Transition)
    (effectivePriorities : list float) (totalPriority : float)
    (prioritizedSamples : list (option Transition)) : M Rng (list (option Transition)) :=
  match halfBatch with
  | O => ret prioritizedSamples
  | S n =>
      (random <- Math_random ;;
       prioritizedLoop n buffer effectivePriorities totalPriority
         (rouletteLoop buffer random totalPriority effectivePriorities 0 0%float
            prioritizedSamples))%js
  end.

(** [sampleEnhancedBatch(buffer, batchSize)]. *)
Definition sampleEnhancedBatch (buffer : list Transition) (batchSize : nat)
    : M Rng (list (option Transition)) :=
  if (length buffer <? batchSize)%nat then ret (map Some buffer)
  else
    let halfBatch := (batchSize / 2)%nat in
    (uniformSamples <- uniformLoop halfBatch buffer [] ;;
     let effectivePriorities := effectivePrioritiesFrom 0 (length buffer) buffer in
     let totalPriority := totalOf effectivePriorities in
     prioritizedSamples <- prioritizedLoop halfBatch buffer effectivePriorities totalPriority [] ;;
     ret (uniformSamples ++ prioritizedSamples))%js.

(** Sample data: three transitions of priority 7, and the greatest number
    below 1. *)
Definition sevens : list Transition :=
  let t := {| reward := 7%float; priority := Some 7%float |} in [t; t; t].

Definition belowOne : float := PrimFloat.next_down 1.

End Binary64.

(** ** Checkpoints (ai/train.js) *)

(** [saveTrainingState] and [loadTrainingState] are [JSON.stringify] into a
    file and [JSON.parse] out of it. The two built-ins are embedded as
    ECMAScript specifies them (SerializeJSONProperty, SerializeJSONObject,
    SerializeJSONArray and the JSON grammar), on the values a training state
    is made of. The text is kept as its tokens: a number token stands for
    the digits [Number::toString] writes, which read back as the same number
    (the zero written for -0 reads back as 0), a string token for the quoted
    string. *)
Module Json.

(** A value of the language. The properties of an object are its own
    enumerable ones, in the order the engine enumerates them. *)
Inductive Value : Type :=
| Undefined
| Null
| Boolean (b : bool)
| Number (n : float)
| Str (s : string)
| Array (elements : list Value)
| Object (properties : list (string * Value)).

(** A JSON text. *)
Inductive Text : Type :=
| TNull
| TBoolean (b : bool)
| TNumber (n : float)
| TString (s : string)
| TArray (elements : list Text)
| TObject (members : list (string * Text)).

(** [JSON.stringify(value)]; [None] is the [undefined] it returns for a
    value that has no JSON text. A number that is not finite is written
    [null]; an element of an array that has no text is written [null]; a
    property that has none is left out. *)
Fixpoint stringify (value : Value) : option Text :=
  match value with
  | Undefined => None
  | Null => Some TNull
  | Boolean b => Some (TBoolean b)
  | Number n =>
      Some (if PrimFloat.is_finite n
            then TNumber (if (n =? 0)%float then 0%float else n)
            else TNull)
  | Str s => Some (TString s)
  | Array elements =>
      Some (TArray (map (fun element =>
                           match stringify element with
                           | Some text => text
                           | None => TNull
                           end) elements))
  | Object properties =>
      Some (TObject (flat_map (fun property =>
                                 match property with
                                 | (key, v) =>
                                     match stringify v with
                                     | Some text => [(key, text)]
                                     | None => []
                                     end
                                 end) properties))
  end.

(** [CreateDataProperty]: a key the object has keeps its place and takes
    the new value, a new key comes last. *)
Definition define (properties : list (string * Value)) (key : string) (value : Value)
    : list (string * Value) :=
  if existsb (fun property => (fst property =? key)%string) properties
  then map (fun property => if (fst property =? key)%string then (key, value) else property)
           properties
  else properties ++ [(key, value)].

(** [JSON.parse(text)] on a text of the grammar. *)
Fixpoint parse (text : Text) : Value :=
  match text with
  | TNull => Null
  | TBoolean b => Boolean b
  | TNumber n => Number n
  | TString s => Str s
  | TArray elements => Array (map parse elements)
  | TObject members =>
      Object (fold_left (fun properties member => define properties (fst member) (snd member))
                        (map (fun member =>
                                match member with
                                | (key, text) => (key, parse text)
                                end) members)
                        [])
  end.

(** [object.key] on an object: [undefined] for a key it does not have. *)
Definition get (object : Value) (key : string) : Value :=
  match object with
  | Object properties =>
      match find (fun property => (fst property =? key)%string) properties with
      | Some (_, v) => v
      | None => Undefined
      end
  | _ => Undefined
  end.

(** [array[i]]. *)
Definition at_ (array : Value) (i : nat) : Value :=
  match array with
  | Array elements => nth i elements Undefined
  | _ => Undefined
  end.

Fixpoint distinct (keys : list string) : bool :=
  match keys with
  | [] => true
  | key :: keys' => negb (existsb (String.eqb key) keys') && distinct keys'
  end.

(** The values JSON holds as they are: no [undefined], no number that is
    not finite, no negative zero, and objects with one property per key. *)
Fixpoint plain (value : Value) : bool :=
  match value with
  | Undefined => false
  | Null | Boolean _ | Str _ => true
  | Number n =>
      PrimFloat.is_finite n && (negb (n =? 0)%float || PrimFloat.Leibniz.eqb n 0%float)
  | Array elements => forallb plain elements
  | Object properties =>
      distinct (map fst properties) &&
      forallb (fun property => match property with (_, v) => plain v end) properties
  end.

End Json.

Module Checkpoint.
Import Json.

(** What a file holds: a JSON text, or something [JSON.parse] rejects. *)
Inductive Data : Type :=
| JsonText (text : Text)
| Malformed (content : string).

(** The file system: the files by path, and the paths on which
    [writeFileSync] and [readFileSync] fail. *)
Record Disk : Type := {
  files : string -> option Data;
  refusesWrite : string -> bool;
  refusesRead : string -> bool
}.

Definition writeFile (path : string) (data : Data) (disk : Disk) : Disk :=
  {| files := fun p => if (p =? path)%string then Some data else files disk p;
     refusesWrite := refusesWrite disk;
     refusesRead := refusesRead disk |}.

(** [saveTrainingState(state, checkpointPath)]: an error of the write is
    caught and logged, the file is then as it was. [writeFileSync] refuses
    the [undefined] that [JSON.stringify] returns for a value without text.
    The lines written to the console are not part of the embedding. *)
Definition saveTrainingState (state : Value) (checkpointPath : string) (disk : Disk) : Disk :=
  match stringify state with
  | Some text =>
      if refusesWrite disk checkpointPath then disk
      else writeFile checkpointPath (JsonText text) disk
  | None => disk
  end.

(** [loadTrainingState(checkpointPath)]: [null] without a file, and when
    reading or parsing fails. *)
Definition loadTrainingState (checkpointPath : string) (disk : Disk) : Value :=
  match files disk checkpointPath with
  | Some data =>
      if refusesRead disk checkpointPath then Null
      else match data with
           | JsonText text => parse text
           | Malformed _ => Null
           end
  | None => Null
  end.

(** The object literal of a transition, [{ state, action, reward, nextState,
    done, priority }], and that of a training state. *)
Definition transition (state action reward nextState done priority : Value) : Value :=
  Object [("state", state); ("action", action); ("reward", reward);
          ("nextState", nextState); ("done", done); ("priority", priority)]%string.

Definition trainingState (episode epsilon replayBuffer episodeLosses episodeMaxQs
    baseLearningRate : Value) : Value :=
  Object [("episode", episode); ("epsilon", epsilon); ("replayBuffer", replayBuffer);
          ("episodeLosses", episodeLosses); ("episodeMaxQs", episodeMaxQs);
          ("baseLearningRate", baseLearningRate)]%string.

(** Sample data: a disk without files, a feature vector of one cell, and a
    training state of one transition with the priority [priority]. *)
Definition emptyDisk : Disk :=
  {| files := fun _ => None; refusesWrite := fun _ => false; refusesRead := fun _ => false |}.

Definition sampleFeature : Value :=
  Object [("grid", Array [Array [Array [Number 0; Number 1]]]);
          ("offset", Array [Number 0.25; Number (-0.5)])]%string.

Definition sampleState (priority : Value) : Value :=
  trainingState (Number 3) (Number 0.5)
    (Array [transition sampleFeature (Number 2) (Number (-0.05)) sampleFeature
              (Boolean false) priority])
    (Array [Number 0.125]) (Array [Number 1.5]) (Number 0.001).

End Checkpoint.

(** ** The entry point (index.js): arguments, keys and auto-play *)

Module Entry.
Import Js Grid.
Local Open Scope Z_scope.

(** [args.indexOf(s)], counted from [i]. *)
Fixpoint indexOf (i : Z) (args : list string) (s : string) : Z :=
  match args with
  | [] => -1
  | a :: rest => if (a =? s)%string then i else indexOf (i + 1) rest s
  end.

(** The obstacle pattern of the play and auto modes: the argument after
    the first [--obstacle], or [normal]. *)
Definition obstacleType (args : list string) : string :=
  let obstacleIndex := indexOf 0 args "--obstacle" in
  if negb (obstacleIndex =? -1) && (obstacleIndex + 1 <? Z.of_nat (length args))
  then nth (Z.to_nat (obstacleIndex + 1)) args "normal"%string
  else "normal"%string.

Definition ctrlC : string := String (ascii_of_nat 3) "".
Definition arrow (c : string) : string := String (ascii_of_nat 27) ("[" ++ c).

(** The direction of an arrow key, [null] for another key. *)
Definition keyDirection (key : string) : option string :=
  if (key =? arrow "A")%string then Some "up"%string
  else if (key =? arrow "B")%string then Some "down"%string
  else if (key =? arrow "C")%string then Some "right"%string
  else if (key =? arrow "D")%string then Some "left"%string
  else None.

(** The handler of a key of the play mode: [None] when the key ends the
    program ([process.exit()]); otherwise the move, its pickups and the
    tick, or nothing for a key that is no arrow. *)
Definition onData (K : Constants) (key : string) : option (M World unit) :=
  if (key =? ctrlC)%string then None
  else Some match keyDirection key with
            | Some direction =>
                (update (movePlayer direction) ;; checkCollisions ;; tick K)%js
            | None => ret tt
            end.

(** The worlds of the play mode: the game as constructed, its obstacle
    pattern set from the arguments, and what the keys make of it. *)
Inductive played (K : Constants) (args : list string) : World -> Prop :=
| played_start (r r' : Rng) (g : Game) :
    newGame K r = (Return g, r') ->
    played K args {| this := setObstaclePattern (obstacleType args) g; rng := r' |}
| played_key (w w' : World) (key : string) (handler : M World unit) :
    played K args w -> onData K key = Some handler -> handler w = (Return tt, w') ->
    played K args w'.




End Entry.

(* ================================================================= *)
(** * Part II: properties *)
(* ================================================================= *)

(** ** Exploration schedule *)

Section ExplorationFacts.
Import Exploration.
Local Open Scope float_scope.

(** Right shifts of the rounding machinery keep a mantissa non-negative. *)
Lemma shr_1_nonneg (mrs : shr_record) :
  (0 <= shr_m mrs)%Z -> (0 <= shr_m (shr_1 mrs))%Z.
Proof.
  destruct mrs as [m r s]; simpl.
  destruct m as [|p|p]; [ simpl; lia | destruct p; simpl; lia | lia ].
Qed.

Lemma iter_pos_invariant {A : Type} (P : A -> Prop) (f : A -> A) :
  (forall x, P x -> P (f x)) ->
  forall n x, P x -> P (iter_pos f n x).
Proof.
  intros Hf n; induction n as [n IH|n IH|]; intros x Hx; simpl; auto.
Qed.

Lemma shr_fexp_nonneg (prec emax m e : Z) (l : location) :
  (0 <= m)%Z -> (0 <= shr_m (fst (shr_fexp prec emax m e l)))%Z.
Proof.
  intros Hm. unfold shr_fexp, shr.
  assert (H0 : (0 <= shr_m (shr_record_of_loc m l))%Z)
    by (destruct l as [|[ | | ]]; simpl; exact Hm).
  destruct (fexp prec emax (Zdigits2 m + e) - e)%Z; simpl; auto.
  apply (iter_pos_invariant (fun r => (0 <= shr_m r)%Z)); auto using shr_1_nonneg.
Qed.

Lemma round_nearest_even_nonneg (m : Z) (l : location) :
  (0 <= m)%Z -> (0 <= round_nearest_even m l)%Z.
Proof.
  intros Hm. destruct l as [|[ | | ]]; simpl; try lia.
  destruct (Z.even m); lia.
Qed.

Lemma binary_round_aux_not_nan (prec emax : Z) (sx : bool) (m : positive) (e : Z) (l : location) :
  binary_round_aux prec emax sx (Zpos m) e l <> S754_nan.
Proof.
  unfold binary_round_aux.
  pose proof (shr_fexp_nonneg prec emax (Zpos m) e l ltac:(lia)) as H1.
  destruct (shr_fexp prec emax (Zpos m) e l) as [mrs' e']; simpl in H1.
  pose proof (shr_fexp_nonneg prec emax _ e' loc_Exact
                (round_nearest_even_nonneg _ (loc_of_shr_record mrs') H1)) as H2.
  destruct (shr_fexp prec emax _ e' loc_Exact) as [mrs'' e'']; simpl in H2.
  destruct (shr_m mrs'') as [|p|p]; try discriminate; try lia.
  destruct (e'' <=? emax - prec)%Z; discriminate.
Qed.

Lemma is_nan_spec (x : float) : is_nan x = true <-> Prim2SF x = S754_nan.
Proof.
  unfold is_nan. rewrite eqb_spec. unfold SFeqb.
  pose proof (Prim2SF_valid x) as Hv.
  destruct (Prim2SF x) as [s|s| |s m e]; simpl; try (split; congruence).
  - destruct s; simpl; split; congruence.
  - destruct s; rewrite ?Z.compare_refl, ?Pos.compare_cont_refl; simpl; split; congruence.
Qed.

(** The two constants of the decay are positive finite numbers. *)
Lemma epsilonDecay_positive :
  exists m e, Prim2SF epsilonDecay = S754_finite false m e.
Proof. eexists; eexists; vm_compute; reflexivity. Qed.

Lemma epsilonMin_positive :
  exists m e, Prim2SF epsilonMin = S754_finite false m e.
Proof. eexists; eexists; vm_compute; reflexivity. Qed.

(** A product with the decay factor is a NaN only if the rate was one. *)
Lemma mul_epsilonDecay_nan (x : float) :
  is_nan (x * epsilonDecay) = true -> is_nan x = true.
Proof.
  rewrite !is_nan_spec, mul_spec. unfold SF64mul, SFmul.
  pose proof epsilonDecay_positive as [md [ed Hd]]. rewrite Hd.
  destruct (Prim2SF x) as [s|s| |s m e]; try discriminate; auto.
  intros H. exfalso. revert H. apply binary_round_aux_not_nan.
Qed.

(** Swapping the arguments of a comparison of two binary64 values swaps
    its result. *)
Lemma SFcompare_swap (a b : spec_float) :
  SFcompare b a = option_map CompOpp (SFcompare a b).
Proof.
  destruct a as [sa|sa| |sa ma ea], b as [sb|sb| |sb mb eb]; cbn [SFcompare option_map];
    try reflexivity;
    try (destruct sa; reflexivity); try (destruct sb; reflexivity);
    try (destruct sa, sb; reflexivity).
  destruct sa, sb; cbn [CompOpp]; try reflexivity;
    rewrite (Z.compare_antisym ea eb);
    destruct (ea ?= eb)%Z; cbn [CompOpp]; try reflexivity;
    rewrite (Pos.compare_cont_antisym ma mb Eq); cbn [CompOpp];
    destruct (Pos.compare_cont Eq ma mb); reflexivity.
Qed.

(** A number that is not below a floor, neither of them a NaN, is at least
    the floor. *)
Lemma not_below_at_least (x m : float) :
  (x <? m) = false -> is_nan x = false -> is_nan m = false -> (m <=? x) = true.
Proof.
  intros Hlt Hx Hm.
  assert (Hnx : Prim2SF x <> S754_nan)
    by (intro E; apply is_nan_spec in E; congruence).
  assert (Hnm : Prim2SF m <> S754_nan)
    by (intro E; apply is_nan_spec in E; congruence).
  revert Hlt. rewrite ltb_spec, leb_spec. unfold SFltb, SFleb.
  rewrite (SFcompare_swap (Prim2SF x) (Prim2SF m)).
  destruct (SFcompare (Prim2SF x) (Prim2SF m)) as [[ | | ]|] eqn:E;
    cbn [option_map CompOpp]; try congruence.
  exfalso. destruct (Prim2SF x), (Prim2SF m); cbn [SFcompare] in E; congruence.
Qed.

(** C6. After the decay update (multiply by 0.999, reset to 0.2 when the
    product is below 0.1) the exploration rate is never below [epsilonMin]
    and never zero, whatever binary64 value it had before; and it is at
    least [epsilonMin] for every rate that is a number (not a NaN). *)
Theorem decayEpsilon_floor (epsilon : float) :
  (decayEpsilon epsilon <? epsilonMin) = false /\
  (decayEpsilon epsilon =? 0) = false /\
  (is_nan epsilon = false -> (epsilonMin <=? decayEpsilon epsilon) = true).
Proof.
  unfold decayEpsilon.
  destruct (epsilon * epsilonDecay <? epsilonMin) eqn:Hlt.
  - repeat split; intros; reflexivity.
  - split; [exact Hlt|]. split.
    + destruct (epsilon * epsilonDecay =? 0) eqn:Hz; [|reflexivity].
      exfalso. revert Hlt Hz. rewrite ltb_spec, eqb_spec. unfold SFltb, SFeqb.
      pose proof epsilonMin_positive as [mm [ee Hmin]]. rewrite Hmin.
      change (Prim2SF 0) with (S754_zero false).
      destruct (Prim2SF (epsilon * epsilonDecay)) as [s|s| |s m e];
        cbn [SFcompare]; try congruence; destruct s; congruence.
    + intros Hnan. apply not_below_at_least; [exact Hlt| |reflexivity].
      destruct (is_nan (epsilon * epsilonDecay)) eqn:E; [|reflexivity].
      apply mul_epsilonDecay_nan in E. congruence.
Qed.

Lemma decayEpsilon_floor_witness :
  is_nan 1 = false /\ (epsilonMin <=? decayEpsilon 1) = true.
Proof.
  split; [reflexivity|].
  exact (proj2 (proj2 (decayEpsilon_floor 1)) eq_refl).
Defined.

End ExplorationFacts.

(** ** Replay buffer *)

Section ReplayFacts.
Import Js Replay.

(** One push with its eviction keeps the newest [REPLAY_BUFFER_SIZE]
    entries of the buffer extended by the new transition. *)
Lemma pushTransition_newest (replayBuffer : list Transition) (t : Transition) :
  pushTransition replayBuffer t =
  skipn (length (replayBuffer ++ [t]) - REPLAY_BUFFER_SIZE) (replayBuffer ++ [t]).
Proof.
  unfold pushTransition.
  destruct (REPLAY_BUFFER_SIZE <? length (replayBuffer ++ [t])) eqn:E; [reflexivity|].
  apply Nat.ltb_ge in E.
  replace (length (replayBuffer ++ [t]) - REPLAY_BUFFER_SIZE) with 0 by lia.
  reflexivity.
Qed.

Lemma fold_left_snoc {A B : Type} (f : A -> B -> A) (l : list B) (b : B) (a : A) :
  fold_left f (l ++ [b]) a = f (fold_left f l a) b.
Proof. rewrite fold_left_app. reflexivity. Qed.

Lemma skipn_snoc {A : Type} (k : nat) (l : list A) (a : A) :
  k <= length l -> skipn k l ++ [a] = skipn k (l ++ [a]).
Proof.
  intros H. rewrite skipn_app.
  replace (k - length l) with 0 by lia. reflexivity.
Qed.

Lemma pushes_newest (replayBuffer pushed : list Transition) (t : Transition) :
  fold_left pushTransition (pushed ++ [t]) replayBuffer =
  skipn (length (replayBuffer ++ pushed ++ [t]) - REPLAY_BUFFER_SIZE)
        (replayBuffer ++ pushed ++ [t]).
Proof.
  revert t. induction pushed as [|t' pushed IH] using rev_ind; intros t.
  - simpl. apply pushTransition_newest.
  - rewrite fold_left_snoc, IH, pushTransition_newest.
    set (L := replayBuffer ++ pushed ++ [t']).
    replace (replayBuffer ++ (pushed ++ [t']) ++ [t]) with (L ++ [t])
      by (unfold L; rewrite <- !app_assoc; reflexivity).
    set (k := length L - REPLAY_BUFFER_SIZE).
    assert (Hk : k <= length L) by (unfold k; lia).
    rewrite (skipn_snoc k L t Hk), skipn_skipn. f_equal.
    rewrite length_skipn, !length_app. simpl. unfold k. lia.
Qed.

(** C7. After every push into the replay buffer, whatever was pushed before
    and whatever the buffer held at the start, the buffer has at most
    [REPLAY_BUFFER_SIZE] entries: it holds the newest entries of the
    sequence, the oldest excess ones being those removed. *)
Theorem replayBuffer_bounded (replayBuffer pushed : list Transition) (t : Transition) :
  let buffer' := fold_left pushTransition (pushed ++ [t]) replayBuffer in
  length buffer' <= REPLAY_BUFFER_SIZE /\
  buffer' = skipn (length (replayBuffer ++ pushed ++ [t]) - REPLAY_BUFFER_SIZE)
                  (replayBuffer ++ pushed ++ [t]).
Proof.
  cbv zeta. rewrite pushes_newest. split; [|reflexivity].
  rewrite length_skipn. lia.
Qed.

(** The periodic purge never lengthens the buffer. *)
Lemma purge_shrinks (episode : nat) (replayBuffer : list Transition) :
  length (purge episode replayBuffer) <= length replayBuffer.
Proof.
  unfold purge. destruct (_ && _); [rewrite length_skipn|]; lia.
Qed.

End ReplayFacts.

(** ** Hybrid sampler *)

Section SamplerFacts.
Import Js Replay.

Lemma Qltb_lt (a b : Q) : Qltb a b = true <-> (a < b)%Q.
Proof.
  unfold Qltb. rewrite negb_true_iff, <- not_true_iff_false, Qle_bool_iff.
  split; [apply Qnot_le_lt | apply Qlt_not_le].
Qed.

(** The uniform half always has [halfBatch] more entries. *)
Lemma uniformLoop_length (halfBatch : nat) (buffer : list Transition) :
  forall (acc : list (option Transition)) (rng : Rng),
  exists l rng', uniformLoop halfBatch buffer acc rng = (Return l, rng') /\
                 length l = length acc + halfBatch.
Proof.
  induction halfBatch as [|n IH]; intros acc rng; simpl.
  - exists acc, rng. split; [reflexivity | lia].
  - unfold bind at 1. unfold randomBelow, bind, Math_random, ret. simpl.
    destruct (IH (acc ++ [item buffer (Qfloor (entropy rng (calls rng) * inject_Z (Z.of_nat (length buffer))))])
                 {| entropy := entropy rng; calls := S (calls rng) |})
      as (l & rng' & E & Hl).
    exists l, rng'. split; [exact E|]. rewrite Hl, length_app. simpl. lia.
Qed.

(** Sampling reads the source of randomness and never alters its values. *)
Lemma uniformLoop_entropy (halfBatch : nat) (buffer : list Transition) :
  forall (acc : list (option Transition)) (rng : Rng),
  entropy (snd (uniformLoop halfBatch buffer acc rng)) = entropy rng.
Proof.
  induction halfBatch as [|n IH]; intros acc rng; simpl; [reflexivity|].
  unfold bind at 1. unfold randomBelow, bind, Math_random, ret. simpl.
  rewrite IH. reflexivity.
Qed.

(** One spin of the wheel pushes at most one entry. *)
Lemma rouletteLoop_length_bounds (buffer : list Transition) (random total : Q)
    (ps : list Q) :
  forall (j : nat) (c : Q) (acc : list (option Transition)),
  length acc <= length (rouletteLoop buffer random total ps j c acc) <= S (length acc).
Proof.
  induction ps as [|p ps IH]; intros j c acc; simpl.
  - lia.
  - destruct (Qltb random (c + p / total)).
    + rewrite length_app. simpl. lia.
    + apply IH.
Qed.

Lemma prioritizedLoop_length_bounds (halfBatch : nat) (buffer : list Transition)
    (ps : list Q) (total : Q) :
  forall (acc : list (option Transition)) (rng : Rng),
  exists l rng', prioritizedLoop halfBatch buffer ps total acc rng = (Return l, rng') /\
                 length acc <= length l <= length acc + halfBatch.
Proof.
  induction halfBatch as [|n IH]; intros acc rng; simpl.
  - exists acc, rng. split; [reflexivity | lia].
  - unfold bind at 1. unfold Math_random. simpl.
    destruct (IH (rouletteLoop buffer (entropy rng (calls rng)) total ps 0 0%Q acc)
                 {| entropy := entropy rng; calls := S (calls rng) |})
      as (l & rng' & E & Hl).
    exists l, rng'. split; [exact E|].
    pose proof (rouletteLoop_length_bounds buffer (entropy rng (calls rng)) total ps 0 0%Q acc).
    lia.
Qed.

(** What the sampler does on three entries when three are asked for: one
    uniform draw and one spin of the wheel. *)
Example sampleEnhancedBatch_three :
  fst (sampleEnhancedBatch [transitionOf 1; transitionOf 1; transitionOf 1] 3 (constantRng 0)) =
  Return [Some (transitionOf 1); Some (transitionOf 1)].
Proof. vm_compute. reflexivity. Qed.

(** The wheel does not stop when every priority is zero: an even request is
    then answered by its uniform half alone. *)
Example sampleEnhancedBatch_zero_priorities :
  fst (sampleEnhancedBatch [transitionOf 0; transitionOf 0] 2 (constantRng 0)) =
  Return [Some (transitionOf 0)].
Proof. vm_compute. reflexivity. Qed.

(** The two arithmetics part on the index a draw scales to: seven times
    the draw 2573485501354569 / 2^52 is 4 - 2^-52, which binary64 rounds to
    4. *)
Example randomItem_rounds_up :
  fst (Binary64.randomItem [0; 1; 2; 3; 4; 5; 6]
         (Binary64.rngOf [(PrimFloat.of_uint63 (Uint63.of_Z 2573485501354569) /
                           PrimFloat.of_uint63 (Uint63.of_Z 4503599627370496))%float])) = Return (Some 4) /\
  fst (randomBelow 7 (rngOf [2573485501354569 # 4503599627370496]%Q)) = Return 3%Z.
Proof. split; vm_compute; reflexivity. Qed.

(** C1: the code at the failing inputs. A buffer shorter than the request
    is returned whole. Otherwise the batch holds the [batchSize / 2] uniform
    entries and at most as many entries of the wheel, whatever is drawn and
    however the shares are rounded: a request for an odd number of entries
    is never answered in full, as when three entries asked of a buffer of
    three give two. An even request falls short as well when a spin of the
    wheel selects nothing: in binary64 the shares of three entries of
    priority 7 cumulate to less than the greatest number below 1, and with
    that draw two entries asked for give one. *)
Theorem sampleEnhancedBatch_falls_short :
  (forall (buffer : list Transition) (batchSize : nat) (rng : Rng),
     (length buffer < batchSize ->
      sampleEnhancedBatch buffer batchSize rng = (Return (map Some buffer), rng)) /\
     (batchSize <= length buffer ->
      exists l rng',
        sampleEnhancedBatch buffer batchSize rng = (Return l, rng') /\
        batchSize / 2 <= length l <= 2 * (batchSize / 2) /\
        (Nat.odd batchSize = true -> length l < batchSize))) /\
  fst (sampleEnhancedBatch [transitionOf 1; transitionOf 1; transitionOf 1] 3 (constantRng 0)) =
  Return [Some (transitionOf 1); Some (transitionOf 1)] /\
  ((0 <=? Binary64.belowOne)%float = true /\ (Binary64.belowOne <? 1)%float = true /\
   (let priorities := Binary64.effectivePrioritiesFrom 0 3 Binary64.sevens in
    forallb (fun share => negb (Binary64.belowOne <? share)%float)
            (Binary64.cumulativeShares (Binary64.totalOf priorities) priorities 0%float) = true) /\
   fst (Binary64.sampleEnhancedBatch Binary64.sevens 2
          (Binary64.rngOf [0%float; Binary64.belowOne])) =
   Return [nth_error Binary64.sevens 0]).
Proof.
  split; [|split; [exact sampleEnhancedBatch_three|repeat split; vm_compute; reflexivity]].
  intros buffer batchSize rng. unfold sampleEnhancedBatch. split.
  - intros H. apply Nat.ltb_lt in H. rewrite H. reflexivity.
  - intros H. apply Nat.ltb_ge in H. rewrite H.
    destruct (uniformLoop_length (batchSize / 2) buffer [] rng) as (u & rng1 & Eu & Hu).
    destruct (prioritizedLoop_length_bounds (batchSize / 2) buffer
                (effectivePrioritiesFrom 0 (length buffer) buffer)
                (totalOf (effectivePrioritiesFrom 0 (length buffer) buffer)) [] rng1)
      as (p & rng2 & Ep & Hp).
    exists (u ++ p), rng2. unfold bind. rewrite Eu, Ep. split; [reflexivity|].
    rewrite length_app, Hu. cbn [length] in *.
    split; [lia|]. intros Hodd.
    apply Nat.odd_spec in Hodd. destruct Hodd as [k ->].
    rewrite <- (Nat.div_unique (2 * k + 1) 2 k 1) in * by lia. lia.
Qed.

End SamplerFacts.

(** ** Grid environment: obstacle layouts *)

Section ObstacleFacts.
Import Js Grid.
Local Open Scope Z_scope.

(** C3, as stated, fails: the cross on the 20 by 15 board does not cover 69
    cells. *)
Lemma normal_pattern_not_69 :
  length (nodup Pos_eq_dec
            (obstacles (setObstaclePattern "normal"
                          (gameOn {| x := 0; y := 0 |} {| x := 1; y := 0 |} [])))) <> 69%nat.
Proof. vm_compute. discriminate. Qed.

(** C3, amended. On a 20 by 15 board the [normal] pattern covers exactly
    45 = 9*3 + 9*3 - 3*3 distinct cells; the list [setObstaclePattern] stores
    has 54 entries, the 9 cells of the overlap being listed twice. *)
Theorem normal_pattern_45 (g : Game) :
  width g = 20 -> height g = 15 ->
  length (nodup Pos_eq_dec (obstacles (setObstaclePattern "normal" g))) = 45%nat /\
  length (obstacles (setObstaclePattern "normal" g)) = 54%nat /\
  (45 = 9 * 3 + 9 * 3 - 3 * 3)%nat.
Proof.
  intros Hw Hh. unfold setObstaclePattern, set_obstacles. cbn [obstacles String.eqb].
  replace (String.eqb "normal" "normal") with true by reflexivity.
  rewrite Hw, Hh. vm_compute. repeat split.
Qed.

Lemma normal_pattern_45_witness :
  length (nodup Pos_eq_dec
            (obstacles (setObstaclePattern "normal"
                          (gameOn {| x := 0; y := 0 |} {| x := 1; y := 0 |} [])))) = 45%nat.
Proof.
  exact (proj1 (normal_pattern_45 (gameOn {| x := 0; y := 0 |} {| x := 1; y := 0 |} [])
                  eq_refl eq_refl)).
Defined.

(** The constructor stores the same 45 cells, each once. *)
Lemma newGame_obstacles (n : Z) (r r' : Rng) (g : Game) :
  newGame (board20x15 n) r = (Return g, r') ->
  obstacles g = distinctCells (crossObstacles 20 15) [] /\
  length (obstacles g) = 45%nat /\ NoDup (obstacles g).
Proof.
  unfold newGame, bind, ret. cbn [BOARD_WIDTH BOARD_HEIGHT board20x15].
  destruct (freePosition 20 15 _ r) as [[p|e] r1]; [|discriminate].
  destruct (freePosition 20 15 _ r1) as [[f|e] r2]; [|discriminate].
  intros E. injection E as Eg _.
  assert (Ho : obstacles g = distinctCells (crossObstacles 20 15) [])
    by (rewrite <- Eg; reflexivity).
  rewrite Ho. split; [reflexivity|]. split; [vm_compute; reflexivity|].
  assert (H : distinctCells (crossObstacles 20 15) [] =
              rev (nodup Pos_eq_dec (rev (crossObstacles 20 15)))) by (vm_compute; reflexivity).
  rewrite H. apply NoDup_rev, NoDup_nodup.
Qed.

End ObstacleFacts.

(** ** Grid environment: pattern penalties *)

Section PatternFacts.
Import Js Grid.
Local Open Scope Z_scope.

(** In the pattern block the 0.5 penalty is reached only when the last 10
    moves hold at least three different values. *)
Lemma repetitionPenalty_two_values (g : Game) :
  (10 <= length (moveHistory g))%nat ->
  length (distinctMoves (lastn 10 (moveHistory g)) []) = 2%nat ->
  patternAlternates (lastn 10 (moveHistory g)) = false ->
  repetitionPenalty g = g.
Proof.
  intros Hlen Hu Halt. unfold repetitionPenalty.
  apply Nat.leb_le in Hlen. rewrite Hlen, Hu, Halt. reflexivity.
Qed.

(** C2: the code at the failing input. The player stands on (0,0) with the
    food on (3,3) and has moved up nine times; it now moves down. One value
    accounts for 90% of the last 10 moves, for which 0.5 is to be
    subtracted, yet the pattern block of [step] subtracts nothing: the
    reward is the 1.6 (0.6 for the new cell, 1 for the distance) that the
    same step earns with no history at all. *)
Theorem step_misses_dominant_move :
  let start (history : list string) :=
    {| this := gameOn {| x := 0; y := 0 |} {| x := 3; y := 3 |} history;
       rng := constantRng 0 |} in
  let nineUp := ["up"; "up"; "up"; "up"; "up"; "up"; "up"; "up"; "up"]%string in
  exists result w' result0 w0',
    step (board20x15 50) "down" (start nineUp) = (Return result, w') /\
    step (board20x15 50) "down" (start []) = (Return result0, w0') /\
    moveHistory (this w') = nineUpOneDown /\
    (reward result == 8 # 5)%Q /\
    (reward result0 == 8 # 5)%Q /\
    (codePatternPenalty (gameOn {| x := 0; y := 1 |} {| x := 3; y := 3 |} nineUpOneDown) == 0)%Q /\
    (specPatternPenalty nineUpOneDown == 1 # 2)%Q.
Proof.
  cbv zeta. do 4 eexists.
  split; [vm_compute; reflexivity|].
  split; [vm_compute; reflexivity|].
  repeat split; vm_compute; reflexivity.
Qed.

(** The same holds when the dominant move is not the first of the last 10,
    even with three different values among them. *)
Example patternPenalties_misses_late_dominant_move :
  let history :=
    ["down"; "up"; "up"; "up"; "up"; "up"; "up"; "up"; "up"; "left"]%string in
  (codePatternPenalty (gameOn {| x := 0; y := 0 |} {| x := 3; y := 3 |} history) == 0)%Q /\
  (specPatternPenalty history == 1 # 2)%Q.
Proof. split; vm_compute; reflexivity. Qed.

(** Where the 0.5 penalty is applied: three values, the first of them eight
    times. *)
Example patternPenalties_first_dominant_move :
  let history :=
    ["up"; "up"; "up"; "up"; "up"; "up"; "up"; "up"; "left"; "down"]%string in
  (codePatternPenalty (gameOn {| x := 0; y := 0 |} {| x := 3; y := 3 |} history) == 1 # 2)%Q /\
  (specPatternPenalty history == 1 # 2)%Q.
Proof. split; vm_compute; reflexivity. Qed.

End PatternFacts.

(** ** Grid environment: placement on a free cell *)

Section PlacementFacts.
Import Js Grid.
Local Open Scope Z_scope.

Lemma Rng_eq (a b : Rng) : entropy a = entropy b -> calls a = calls b -> a = b.
Proof. destruct a, b; simpl; intros -> ->; reflexivity. Qed.

Lemma firstFree_ext (occupied : Z -> Z -> bool) (n : nat) :
  forall cell cell' : nat -> Pos,
  (forall k, cell k = cell' k) ->
  firstFree occupied cell n = firstFree occupied cell' n.
Proof.
  induction n as [|n IH]; intros cell cell' H; simpl; [reflexivity|].
  rewrite (H O). destruct (occupied _ _); [|reflexivity].
  f_equal. apply IH. intros k. apply H.
Qed.

Lemma firstFree_none (occupied : Z -> Z -> bool) (n : nat) :
  forall cell : nat -> Pos,
  firstFree occupied cell n = None <->
  (forall k, (k < n)%nat -> occupied (x (cell k)) (y (cell k)) = true).
Proof.
  induction n as [|n IH]; intros cell; simpl.
  - split; [intros _ k Hk; lia | reflexivity].
  - destruct (occupied (x (cell O)) (y (cell O))) eqn:E0.
    + destruct (firstFree occupied (fun k => cell (S k)) n) eqn:E.
      * split; [discriminate|]. intros H.
        assert (Hn : firstFree occupied (fun k => cell (S k)) n = None)
          by (apply IH; intros k Hk; apply H; lia).
        congruence.
      * split; [|reflexivity]. intros _ k Hk.
        destruct k as [|k]; [exact E0|].
        apply (proj1 (IH (fun k => cell (S k))) E). lia.
    + split; [discriminate|]. intros H. rewrite H in E0 by lia. discriminate.
Qed.

Lemma firstFree_some (occupied : Z -> Z -> bool) (n : nat) :
  forall (cell : nat -> Pos) (k : nat),
  firstFree occupied cell n = Some k ->
  (k < n)%nat /\ occupied (x (cell k)) (y (cell k)) = false /\
  (forall j, (j < k)%nat -> occupied (x (cell j)) (y (cell j)) = true).
Proof.
  induction n as [|n IH]; intros cell k; simpl; [discriminate|].
  destruct (occupied (x (cell O)) (y (cell O))) eqn:E0.
  - destruct (firstFree occupied (fun k => cell (S k)) n) as [k'|] eqn:E; [|discriminate].
    simpl. intros [= <-]. destruct (IH _ _ E) as (Hk & Hf & Hb).
    split; [lia|]. split; [exact Hf|].
    intros [|j] Hj; [exact E0 | apply Hb; lia].
  - intros [= <-]. split; [lia|]. split; [exact E0|]. intros j Hj. lia.
Qed.

Lemma drawnCell_advance (width height : Z) (r : Rng) (k : nat) :
  drawnCell width height (advance r 2) k = drawnCell width height r (S k).
Proof.
  unfold drawnCell, advance. simpl.
  repeat (f_equal; try lia).
Qed.

(** The loop of [getRandomFreePosition] entered with [attempts] attempts
    made and [fuel] = 1001 - [attempts] rounds to go: it returns the first
    free cell among the next [fuel - 1] drawn ones, having read two numbers
    per cell drawn, and throws after one more draw when there is none. *)
Lemma freePositionLoop_run (width height : Z) (occupied : Z -> Z -> bool) (fuel : nat) :
  forall (attempts : Z) (r : Rng),
  attempts + Z.of_nat fuel = 1001 -> (1 <= fuel)%nat ->
  freePositionLoop fuel width height occupied attempts r =
  match firstFree occupied (drawnCell width height r) (fuel - 1) with
  | Some k => (Return (drawnCell width height r k), advance r (2 * (k + 1)))
  | None => (Throw boardFull, advance r (2 * fuel))
  end.
Proof.
  induction fuel as [|fuel IH]; intros attempts r Hsum Hfuel; [lia|].
  cbn [freePositionLoop]. unfold bind at 1. unfold randomBelow at 1.
  unfold bind at 1. unfold Math_random at 1. cbn [ret fst snd].
  unfold bind at 1. unfold randomBelow at 1. unfold bind at 1.
  unfold Math_random at 1. cbn [ret entropy calls].
  replace (S fuel - 1)%nat with fuel by lia.
  destruct fuel as [|fuel'].
  - assert (E : (1000 <? attempts + 1) = true) by (apply Z.ltb_lt; lia).
    rewrite E. cbn [firstFree]. unfold throw. f_equal.
    apply Rng_eq; simpl; [reflexivity | lia].
  - assert (E : (1000 <? attempts + 1) = false) by (apply Z.ltb_ge; lia).
    rewrite E. cbn [firstFree].
    assert (E0 : drawnCell width height r 0 =
                 {| x := Qfloor (entropy r (calls r) * inject_Z width);
                    y := Qfloor (entropy r (S (calls r)) * inject_Z height) |}).
    { unfold drawnCell. repeat (f_equal; try lia). }
    rewrite E0. cbn [x y].
    destruct (occupied _ _) eqn:Eocc.
    + rewrite (IH (attempts + 1) _ ltac:(lia) ltac:(lia)).
      replace (S fuel' - 1)%nat with fuel' by lia.
      assert (Er : {| entropy := entropy r; calls := S (S (calls r)) |} = advance r 2)
        by (apply Rng_eq; simpl; [reflexivity | lia]).
      rewrite Er.
      rewrite (firstFree_ext occupied fuel' (drawnCell width height (advance r 2))
                 (fun k => drawnCell width height r (S k)))
        by (intros k; apply drawnCell_advance).
      destruct (firstFree occupied (fun k => drawnCell width height r (S k)) fuel') as [k|];
        cbn [option_map].
      * rewrite drawnCell_advance. f_equal. apply Rng_eq; simpl; [reflexivity | lia].
      * f_equal. apply Rng_eq; simpl; [reflexivity | lia].
    + unfold ret. rewrite <- E0. f_equal. apply Rng_eq; simpl; [reflexivity | lia].
Qed.

(** [getRandomFreePosition] on a board and an occupancy test. *)
Lemma freePosition_run (width height : Z) (occupied : Z -> Z -> bool) (r : Rng) :
  freePosition width height occupied r =
  match firstFree occupied (drawnCell width height r) 1000 with
  | Some k => (Return (drawnCell width height r k), advance r (2 * (k + 1)))
  | None => (Throw boardFull, advance r 2002)
  end.
Proof.
  unfold freePosition.
  rewrite (freePositionLoop_run width height occupied 1001 0 r eq_refl ltac:(lia)).
  reflexivity.
Qed.

(** A draw in [0,1) scaled to a positive integer [n] lands in [0, n). *)
Lemma scaled_draw_range (q : Q) (n : Z) :
  (0 <= q < 1)%Q -> 0 < n -> 0 <= Qfloor (q * inject_Z n) < n.
Proof.
  intros [H0 H1] Hn.
  assert (Hn' : (inject_Z 0 < inject_Z n)%Q) by (rewrite <- Zlt_Qlt; exact Hn).
  change (inject_Z 0) with 0%Q in Hn'.
  split.
  - change 0 with (Qfloor 0). apply Qfloor_resp_le.
    apply Qmult_le_0_compat; [exact H0 | apply Qlt_le_weak; exact Hn'].
  - rewrite Zlt_Qlt.
    apply Qle_lt_trans with (q * inject_Z n)%Q; [apply Qfloor_le|].
    setoid_replace (inject_Z n) with (1 * inject_Z n)%Q at 2 by ring.
    apply Qmult_lt_compat_r; assumption.
Qed.

Lemma drawnCell_in_bounds (g : Game) (r : Rng) (k : nat) :
  (forall i, 0 <= entropy r i < 1)%Q -> 0 < width g -> 0 < height g ->
  isWithinBounds g (x (drawnCell (width g) (height g) r k))
                   (y (drawnCell (width g) (height g) r k)) = true.
Proof.
  intros Hr Hw Hh. unfold isWithinBounds, drawnCell. cbn [x y].
  pose proof (scaled_draw_range _ _ (Hr (calls r + 2 * k)%nat) Hw) as [? ?].
  pose proof (scaled_draw_range _ _ (Hr (calls r + 2 * k + 1)%nat) Hh) as [? ?].
  repeat (apply andb_true_intro; split);
    try (apply Z.leb_le; assumption); apply Z.ltb_lt; assumption.
Qed.

(** [getRandomFreePosition] as a method: the object is left as it is. *)
Lemma getRandomFreePosition_run (w : World) :
  getRandomFreePosition w =
  match firstFree (occupiedIn (this w))
                  (drawnCell (width (this w)) (height (this w)) (rng w)) 1000 with
  | Some k => (Return (drawnCell (width (this w)) (height (this w)) (rng w) k),
               {| this := this w; rng := advance (rng w) (2 * (k + 1)) |})
  | None => (Throw boardFull, {| this := this w; rng := advance (rng w) 2002 |})
  end.
Proof.
  unfold getRandomFreePosition, bind, getThis, liftRng.
  rewrite freePosition_run. unfold occupiedIn.
  destruct (firstFree _ _ 1000); reflexivity.
Qed.


Lemma isOccupied_false (pl fd : option Pos) (obs reds greens : list Pos) (cx cy : Z) :
  isOccupied pl fd obs reds greens cx cy = false ->
  match pl with Some p => isAt cx cy p | None => false end = false /\
  match fd with Some f => isAt cx cy f | None => false end = false /\
  existsb (isAt cx cy) obs = false /\
  existsb (isAt cx cy) reds = false /\
  existsb (isAt cx cy) greens = false.
Proof.
  unfold isOccupied.
  destruct (match pl with Some p => isAt cx cy p | None => false end); [discriminate|].
  destruct (match fd with Some f => isAt cx cy f | None => false end); [discriminate|].
  destruct (existsb (isAt cx cy) obs); [discriminate|].
  destruct (existsb (isAt cx cy) reds); [discriminate|].
  destruct (existsb (isAt cx cy) greens); [discriminate|].
  auto.
Qed.

(** Running a method step by step. *)
Lemma run_update {B : Type} (f : Game -> Game) (k : unit -> M World B) (w : World) :
  bind (update f) k w = k tt {| this := f (this w); rng := rng w |}.
Proof. reflexivity. Qed.

Lemma run_getThis {B : Type} (k : Game -> M World B) (w : World) :
  bind getThis k w = k (this w) w.
Proof. reflexivity. Qed.

Lemma run_ret {A B : Type} (a : A) (k : A -> M World B) (w : World) :
  bind (ret a) k w = k a w.
Proof. reflexivity. Qed.

Lemma run_bind {A B C : Type} (c : M World A) (k1 : A -> M World B) (k2 : B -> M World C)
    (w : World) :
  bind (bind c k1) k2 w = bind c (fun a => bind (k1 a) k2) w.
Proof. unfold bind. destruct (c w) as [[a|e] w1]; reflexivity. Qed.

Lemma run_placement {B : Type} (k : Pos -> M World B) (w : World) :
  bind getRandomFreePosition k w =
  match firstFree (occupiedIn (this w))
                  (drawnCell (width (this w)) (height (this w)) (rng w)) 1000 with
  | Some n => k (drawnCell (width (this w)) (height (this w)) (rng w) n)
                {| this := this w; rng := advance (rng w) (2 * (n + 1)) |}
  | None => (Throw boardFull, {| this := this w; rng := advance (rng w) 2002 |})
  end.
Proof.
  unfold bind. rewrite getRandomFreePosition_run.
  destruct (firstFree _ _ 1000); reflexivity.
Qed.

(** [reset], run. *)
Lemma reset_run (w : World) :
  reset w =
  let g1 := set_score (set_tickCount (this w) 0) 0%Q in
  let W := width (this w) in
  let H := height (this w) in
  match firstFree (occupiedIn (this w)) (drawnCell W H (rng w)) 1000 with
  | None => (Throw boardFull, {| this := g1; rng := advance (rng w) 2002 |})
  | Some k =>
      let p := drawnCell W H (rng w) k in
      let r1 := advance (rng w) (2 * (k + 1)) in
      let g2 := set_greenBlocks (set_redBlocks (set_player g1 p) []) [] in
      match firstFree (occupiedIn g2) (drawnCell W H r1) 1000 with
      | None => (Throw boardFull, {| this := g2; rng := advance r1 2002 |})
      | Some k2 =>
          let f := drawnCell W H r1 k2 in
          let g3 := set_visitedCells (set_moveHistory (set_food g2 f) []) [p] in
          (Return (getState g3), {| this := g3; rng := advance r1 (2 * (k2 + 1)) |})
      end
  end.
Proof.
  unfold reset. rewrite !run_update. rewrite run_placement. cbn [this rng]. cbv zeta.
  change (occupiedIn (set_score (set_tickCount (this w) 0) 0%Q)) with (occupiedIn (this w)).
  change (width (set_score (set_tickCount (this w) 0) 0%Q)) with (width (this w)).
  change (height (set_score (set_tickCount (this w) 0) 0%Q)) with (height (this w)).
  destruct (firstFree (occupiedIn (this w)) _ 1000) as [k|]; [|reflexivity].
  rewrite !run_update. rewrite run_placement. cbn [this rng].
  match goal with
  | |- context [firstFree ?o (drawnCell ?a ?b ?r) 1000] =>
      change a with (width (this w)); change b with (height (this w));
      destruct (firstFree o (drawnCell (width (this w)) (height (this w)) r) 1000) as [k2|]
  end; [|reflexivity].
  rewrite !run_update, run_getThis. reflexivity.
Qed.


(** What [reset] yields: nothing but the board-full error is thrown; when
    it returns, the player and the food are on two different cells, neither
    of them an obstacle, the blocks are gone and the obstacles are as they
    were; with draws in [0,1) on a board of positive size both cells are on
    the board. *)
Lemma reset_outcome (w : World) :
  match reset w with
  | (Throw e, _) => e = boardFull
  | (Return s, w') =>
      let g' := this w' in
      s = getState g' /\
      obstacles g' = obstacles (this w) /\ redBlocks g' = [] /\ greenBlocks g' = [] /\
      isAt (x (food g')) (y (food g')) (player g') = false /\
      existsb (isAt (x (player g')) (y (player g'))) (obstacles g') = false /\
      existsb (isAt (x (food g')) (y (food g'))) (obstacles g') = false /\
      ((forall i, 0 <= entropy (rng w) i < 1)%Q -> 0 < width (this w) -> 0 < height (this w) ->
       isWithinBounds g' (x (player g')) (y (player g')) = true /\
       isWithinBounds g' (x (food g')) (y (food g')) = true)
  end.
Proof.
  rewrite reset_run. cbv zeta.
  destruct (firstFree (occupiedIn (this w)) _ 1000) as [k|] eqn:E1; [|reflexivity].
  set (p := drawnCell (width (this w)) (height (this w)) (rng w) k).
  set (g2 := set_greenBlocks (set_redBlocks (set_player _ p) []) []).
  destruct (firstFree (occupiedIn g2) _ 1000) as [k2|] eqn:E2; [|reflexivity].
  set (f := drawnCell (width (this w)) (height (this w)) _ k2).
  cbn [this]. 
  apply firstFree_some in E1. destruct E1 as (_ & Hp & _).
  apply firstFree_some in E2. destruct E2 as (_ & Hf & _). fold f in Hf. fold p in Hp.
  unfold occupiedIn in Hp, Hf.
  apply isOccupied_false in Hp. destruct Hp as (_ & _ & Hpo & _).
  apply isOccupied_false in Hf. destruct Hf as (Hfp & _ & Hfo & _).
  repeat (split; [first [reflexivity | assumption]|]).
  intros Hr Hw Hh.
  split; apply (drawnCell_in_bounds (this w)); assumption.
Qed.

(** The constructor, run. *)
Lemma newGame_run (K : Constants) (r : Rng) :
  newGame K r =
  let W := BOARD_WIDTH K in
  let H := BOARD_HEIGHT K in
  let obs := distinctCells (crossObstacles W H) [] in
  match firstFree (isOccupied None None obs [] []) (drawnCell W H r) 1000 with
  | None => (Throw boardFull, advance r 2002)
  | Some k =>
      let p := drawnCell W H r k in
      let r1 := advance r (2 * (k + 1)) in
      match firstFree (isOccupied (Some p) None obs [] []) (drawnCell W H r1) 1000 with
      | None => (Throw boardFull, advance r1 2002)
      | Some k2 =>
          (Return (freshGame W H obs p (drawnCell W H r1 k2)), advance r1 (2 * (k2 + 1)))
      end
  end.
Proof.
  unfold newGame. cbv zeta. unfold bind at 1.
  rewrite (freePosition_run _ _ _ r).
  destruct (firstFree _ _ 1000) as [k|]; [|reflexivity].
  unfold bind at 1.
  rewrite (freePosition_run _ _ _ (advance r (2 * (k + 1)))).
  destruct (firstFree _ _ 1000) as [k2|]; reflexivity.
Qed.

(** What the constructor yields, in the same way as [reset]. *)
Lemma newGame_outcome (K : Constants) (r : Rng) :
  match newGame K r with
  | (Throw e, _) => e = boardFull
  | (Return g, _) =>
      width g = BOARD_WIDTH K /\ height g = BOARD_HEIGHT K /\
      obstacles g = distinctCells (crossObstacles (BOARD_WIDTH K) (BOARD_HEIGHT K)) [] /\
      redBlocks g = [] /\ greenBlocks g = [] /\
      isAt (x (food g)) (y (food g)) (player g) = false /\
      existsb (isAt (x (player g)) (y (player g))) (obstacles g) = false /\
      existsb (isAt (x (food g)) (y (food g))) (obstacles g) = false /\
      ((forall i, 0 <= entropy r i < 1)%Q -> 0 < BOARD_WIDTH K -> 0 < BOARD_HEIGHT K ->
       isWithinBounds g (x (player g)) (y (player g)) = true /\
       isWithinBounds g (x (food g)) (y (food g)) = true)
  end.
Proof.
  rewrite newGame_run. cbv zeta.
  destruct (firstFree _ _ 1000) as [k|] eqn:E1; [|reflexivity].
  set (p := drawnCell (BOARD_WIDTH K) (BOARD_HEIGHT K) r k).
  destruct (firstFree (isOccupied (Some p) None _ [] []) _ 1000) as [k2|] eqn:E2;
    [|reflexivity].
  set (f := drawnCell (BOARD_WIDTH K) (BOARD_HEIGHT K) _ k2).
  unfold freshGame. cbn [width height obstacles redBlocks greenBlocks player food].
  apply firstFree_some in E1. destruct E1 as (_ & Hp & _).
  apply firstFree_some in E2. destruct E2 as (_ & Hf & _). fold f in Hf. fold p in Hp.
  apply isOccupied_false in Hp. destruct Hp as (_ & _ & Hpo & _).
  apply isOccupied_false in Hf. destruct Hf as (Hfp & _ & Hfo & _).
  repeat (split; [first [reflexivity | assumption]|]).
  intros Hr Hw Hh. split.
  - unfold isWithinBounds. cbn [width height].
    pose proof (scaled_draw_range _ _ (Hr (calls r + 2 * k)%nat) Hw) as [? ?].
    pose proof (scaled_draw_range _ _ (Hr (calls r + 2 * k + 1)%nat) Hh) as [? ?].
    unfold p, drawnCell. cbn [x y].
    repeat (apply andb_true_intro; split);
      try (apply Z.leb_le; assumption); apply Z.ltb_lt; assumption.
  - unfold isWithinBounds. cbn [width height].
    set (r2 := advance r (2 * (k + 1))) in *.
    pose proof (scaled_draw_range _ _ (Hr (calls r2 + 2 * k2)%nat) Hw) as [? ?].
    pose proof (scaled_draw_range _ _ (Hr (calls r2 + 2 * k2 + 1)%nat) Hh) as [? ?].
    unfold f, drawnCell. cbn [x y entropy advance].
    repeat (apply andb_true_intro; split);
      try (apply Z.leb_le; assumption); apply Z.ltb_lt; assumption.
Qed.



End PlacementFacts.

(** ** Grid environment: pickups *)

(** Threads a property of computations through a method body: [bindL] is
    its lemma for sequencing, [updateL] its lemma for assignments, and the
    facts about the calls made are taken from the context. *)
Ltac thread bindL updateL :=
  repeat first
    [ apply bindL; [|intros ?]
    | apply updateL; intros ?; unfold Grid.sameBoard; repeat split
    | match goal with |- _ (if ?c then _ else _) => destruct c end
    | solve [auto] ].

(** Projections of assignments. *)
Ltac game_fields :=
  cbn [Grid.this Grid.rng Grid.width Grid.height Grid.tickCount Grid.score Grid.foodEaten
       Grid.redBlocksEaten Grid.greenBlocksEaten Grid.obstacles Grid.redBlocks
       Grid.greenBlocks Grid.player Grid.food Grid.moveHistory Grid.cyclePenaltyCount
       Grid.wallPenaltyCount Grid.visitedCells Grid.set_tickCount Grid.set_score
       Grid.set_foodEaten Grid.set_redBlocksEaten Grid.set_greenBlocksEaten
       Grid.set_obstacles Grid.set_redBlocks Grid.set_greenBlocks Grid.set_player
       Grid.set_food Grid.set_moveHistory Grid.set_cyclePenaltyCount
       Grid.set_wallPenaltyCount Grid.set_visitedCells Grid.addScore] in *.

Section PickupFacts.
Import Js Grid.
Local Open Scope Z_scope.

Lemma run_randomBelow {B : Type} (n : Z) (k : Z -> M World B) (w : World) :
  bind (liftRng (randomBelow n)) k w =
  k (Qfloor (entropy (rng w) (calls (rng w)) * inject_Z n))
    {| this := this w; rng := advance (rng w) 1 |}.
Proof.
  unfold bind, liftRng, randomBelow, bind, Math_random, ret. cbn [fst snd].
  do 2 f_equal. apply Rng_eq; simpl; [reflexivity | lia].
Qed.

Lemma removeAt_middle {A : Type} (pre : list A) (a : A) (post : list A) :
  removeAt (length pre) (pre ++ a :: post) = pre ++ post.
Proof.
  unfold removeAt.
  rewrite firstn_app, Nat.sub_diag, firstn_all, app_nil_r. simpl firstn.
  replace (S (length pre)) with (length (pre ++ [a])) by (rewrite length_app; simpl; lia).
  replace (pre ++ a :: post) with ((pre ++ [a]) ++ post) by (rewrite <- app_assoc; reflexivity).
  rewrite skipn_app, Nat.sub_diag, skipn_all. reflexivity.
Qed.

Lemma nth_error_middle {A : Type} (pre : list A) (todo : list A) :
  nth_error (pre ++ todo) (length pre) = nth_error todo 0.
Proof. rewrite nth_error_app2 by lia. rewrite Nat.sub_diag. reflexivity. Qed.

Lemma samePlayfield_refl (g : Game) : samePlayfield g g.
Proof. unfold samePlayfield. repeat split. Qed.

Lemma samePlayfield_trans (g1 g2 g3 : Game) :
  samePlayfield g1 g2 -> samePlayfield g2 g3 -> samePlayfield g1 g3.
Proof.
  unfold samePlayfield.
  intros (a1 & a2 & a3 & a4 & a5 & a6 & a7 & a8 & a9) (b1 & b2 & b3 & b4 & b5 & b6 & b7 & b8 & b9).
  repeat split; congruence.
Qed.

Lemma filter_under_cons (p b : Pos) (blocks : list Pos) :
  filter (under p) (b :: blocks) =
  if under p b then b :: filter (under p) blocks else filter (under p) blocks.
Proof. reflexivity. Qed.

Lemma notUnder_cons (p b : Pos) (blocks : list Pos) :
  notUnder p (b :: blocks) =
  if under p b then notUnder p blocks else b :: notUnder p blocks.
Proof. unfold notUnder. simpl. destruct (under p b); reflexivity. Qed.

Lemma inject_Z_succ (n : nat) :
  (inject_Z (Z.of_nat (S n)) == inject_Z (Z.of_nat n) + 1)%Q.
Proof. rewrite Nat2Z.inj_succ. unfold Z.succ. rewrite inject_Z_plus. reflexivity. Qed.

(** The loop over the green blocks started on index [length pre], the
    blocks before it being [pre] and those from it on [todo]: it returns;
    the blocks of [todo] under the player are gone and counted, 25 was added
    for each, and each took a red block with it. *)
Lemma greenLoop_effect (fuel : nat) :
  forall (todo pre : list Pos) (w : World),
  greenBlocks (this w) = pre ++ todo -> (length todo <= fuel)%nat ->
  exists w', greenLoop fuel (length pre) w = (Return tt, w') /\
    let g := this w in
    let g' := this w' in
    let n := length (filter (under (player g)) todo) in
    greenBlocks g' = pre ++ notUnder (player g) todo /\
    greenBlocksEaten g' = greenBlocksEaten g + Z.of_nat n /\
    (score g' == score g + 25 * inject_Z (Z.of_nat n))%Q /\
    (redBlocks g', rng w') = dropRandomReds n (redBlocks g) (rng w) /\
    food g' = food g /\ foodEaten g' = foodEaten g /\
    redBlocksEaten g' = redBlocksEaten g /\
    samePlayfield g g'.
Proof.
  induction fuel as [|fuel IH]; intros todo pre w Hg Hlen.
  - destruct todo; [|simpl in Hlen; lia].
    exists w. split; [reflexivity|]. cbv zeta. simpl.
    rewrite Hg. repeat split; try reflexivity; [lia | ring].
  - cbn [greenLoop]. rewrite run_getThis, Hg, nth_error_middle.
    destruct todo as [|gb todo'].
    + exists w. split; [reflexivity|]. cbv zeta. simpl.
      rewrite Hg. repeat split; try reflexivity; [lia | ring].
    + cbn [nth_error]. fold (under (player (this w)) gb).
      cbv zeta. rewrite filter_under_cons, notUnder_cons.
      assert (Hlen' : (length todo' <= fuel)%nat) by (simpl in Hlen; lia).
      destruct (under (player (this w)) gb) eqn:U.
      * rewrite !run_update, run_getThis. game_fields.
        rewrite Hg, removeAt_middle.
        destruct (redBlocks (this w)) as [|rb reds] eqn:Hreds.
        -- cbn [length Nat.ltb Nat.leb]. rewrite run_ret.
           match goal with
           | |- context [greenLoop fuel (length pre) ?W] =>
               destruct (IH todo' pre W eq_refl Hlen')
                 as (w' & Hrun & Hgr & Hea & Hsc & Hdr & Hfo & Hfe & Hre & Hpf)
           end.
           unfold samePlayfield in *. game_fields. rewrite Hreds in Hdr.
           exists w'. split; [exact Hrun|].
           split; [exact Hgr|]. split; [rewrite Hea; cbn [length]; lia|].
           split; [rewrite Hsc; cbn [length]; rewrite inject_Z_succ; ring|].
           split; [rewrite Hdr; reflexivity|]. auto.
        -- replace (0 <? length (rb :: reds))%nat with true by reflexivity.
           rewrite run_bind, run_randomBelow, run_update. game_fields.
           match goal with
           | |- context [greenLoop fuel (length pre) ?W] =>
               destruct (IH todo' pre W eq_refl Hlen')
                 as (w' & Hrun & Hgr & Hea & Hsc & Hdr & Hfo & Hfe & Hre & Hpf)
           end.
           unfold samePlayfield in *. game_fields. rewrite Hreds in Hdr.
           exists w'. split; [exact Hrun|].
           split; [exact Hgr|]. split; [rewrite Hea; cbn [length]; lia|].
           split; [rewrite Hsc; cbn [length]; rewrite inject_Z_succ; ring|].
           split; [rewrite Hdr; reflexivity|]. auto.
      * replace (S (length pre)) with (length (pre ++ [gb]))
          by (rewrite length_app; simpl; lia).
        assert (Hg' : greenBlocks (this w) = (pre ++ [gb]) ++ todo')
          by (rewrite Hg, <- app_assoc; reflexivity).
        destruct (IH todo' (pre ++ [gb]) w Hg' Hlen')
          as (w' & Hrun & Hgr & Hrest).
        exists w'. split; [exact Hrun|].
        split; [rewrite Hgr, <- app_assoc; reflexivity | exact Hrest].
Qed.

(** The loop over the red blocks, in the same way: it returns; the blocks
    of [todo] under the player are gone and counted, 20 was subtracted for
    each, and nothing was drawn. *)
Lemma redLoop_effect (fuel : nat) :
  forall (todo pre : list Pos) (w : World),
  redBlocks (this w) = pre ++ todo -> (length todo <= fuel)%nat ->
  exists w', redLoop fuel (length pre) w = (Return tt, w') /\
    let g := this w in
    let g' := this w' in
    let n := length (filter (under (player g)) todo) in
    redBlocks g' = pre ++ notUnder (player g) todo /\
    redBlocksEaten g' = redBlocksEaten g + Z.of_nat n /\
    (score g' == score g - 20 * inject_Z (Z.of_nat n))%Q /\
    rng w' = rng w /\
    greenBlocks g' = greenBlocks g /\ greenBlocksEaten g' = greenBlocksEaten g /\
    food g' = food g /\ foodEaten g' = foodEaten g /\
    samePlayfield g g'.
Proof.
  induction fuel as [|fuel IH]; intros todo pre w Hg Hlen.
  - destruct todo; [|simpl in Hlen; lia].
    exists w. split; [reflexivity|]. cbv zeta. simpl.
    rewrite Hg. repeat split; try reflexivity; [lia | ring].
  - cbn [redLoop]. rewrite run_getThis, Hg, nth_error_middle.
    destruct todo as [|rb todo'].
    + exists w. split; [reflexivity|]. cbv zeta. simpl.
      rewrite Hg. repeat split; try reflexivity; [lia | ring].
    + cbn [nth_error]. fold (under (player (this w)) rb).
      cbv zeta. rewrite filter_under_cons, notUnder_cons.
      assert (Hlen' : (length todo' <= fuel)%nat) by (simpl in Hlen; lia).
      destruct (under (player (this w)) rb) eqn:U.
      * rewrite !run_update. game_fields.
        rewrite Hg, removeAt_middle.
        match goal with
        | |- context [redLoop fuel (length pre) ?W] =>
            destruct (IH todo' pre W eq_refl Hlen')
              as (w' & Hrun & Hre & Hea & Hsc & Hrng & Hgr & Hge & Hfo & Hfe & Hpf)
        end.
        unfold samePlayfield in *. game_fields.
        exists w'. split; [exact Hrun|].
        split; [exact Hre|]. split; [rewrite Hea; cbn [length]; lia|].
        split; [rewrite Hsc; cbn [length]; rewrite inject_Z_succ; ring|]. tauto.
      * replace (S (length pre)) with (length (pre ++ [rb]))
          by (rewrite length_app; simpl; lia).
        assert (Hg' : redBlocks (this w) = (pre ++ [rb]) ++ todo')
          by (rewrite Hg, <- app_assoc; reflexivity).
        destruct (IH todo' (pre ++ [rb]) w Hg' Hlen')
          as (w' & Hrun & Hre & Hrest).
        exists w'. split; [exact Hrun|].
        split; [rewrite Hre, <- app_assoc; reflexivity | exact Hrest].
Qed.

(** Removing an entry leaves entries of the list. *)
Lemma removeAt_incl {A : Type} (l : list A) :
  forall (i : nat) (a : A), In a (removeAt i l) -> In a l.
Proof.
  unfold removeAt. intros i a H. apply in_app_or in H. destruct H as [H|H].
  - rewrite <- (firstn_skipn i l). apply in_or_app. left. exact H.
  - rewrite <- (firstn_skipn (S i) l). apply in_or_app. right. exact H.
Qed.




Lemma run_known {A B : Type} (c : M World A) (k : A -> M World B) (w w' : World) (a : A) :
  c w = (Return a, w') -> bind c k w = k a w'.
Proof. intros H. unfold bind. rewrite H. reflexivity. Qed.

(** [checkCollisions] in a world in which the food is not under the
    player: the two loops over the blocks. *)
Lemma checkCollisions_blocks (w : World) :
  let g := this w in
  let p := player g in
  under p (food g) = false ->
  let G := length (filter (under p) (greenBlocks g)) in
  let reds1 := fst (dropRandomReds G (redBlocks g) (rng w)) in
  let R := length (filter (under p) reds1) in
  exists w', checkCollisions w = (Return tt, w') /\
    let g' := this w' in
    (score g' == score g + 25 * inject_Z (Z.of_nat G) - 20 * inject_Z (Z.of_nat R))%Q /\
    foodEaten g' = foodEaten g /\
    greenBlocksEaten g' = greenBlocksEaten g + Z.of_nat G /\
    redBlocksEaten g' = redBlocksEaten g + Z.of_nat R /\
    food g' = food g /\
    greenBlocks g' = notUnder p (greenBlocks g) /\
    redBlocks g' = notUnder p reds1 /\
    rng w' = snd (dropRandomReds G (redBlocks g) (rng w)) /\
    samePlayfield g g'.
Proof.
  cbv zeta. intros Hfood.
  unfold checkCollisions. rewrite run_getThis.
  fold (under (player (this w)) (food (this w))). rewrite Hfood.
  rewrite run_ret, run_getThis.
  destruct (greenLoop_effect (length (greenBlocks (this w))) (greenBlocks (this w)) [] w
              eq_refl (Nat.le_refl _))
    as (w2 & Hrun2 & Hgr & Hge & Hsc2 & Hdr & Hfo2 & Hfe2 & Hre2 & Hpf2).
  cbn [length] in Hrun2. rewrite (run_known _ _ _ _ _ Hrun2), run_getThis.
  assert (Hp2 : player (this w2) = player (this w)) by (apply Hpf2).
  destruct (redLoop_effect (length (redBlocks (this w2))) (redBlocks (this w2)) [] w2
              eq_refl (Nat.le_refl _))
    as (w3 & Hrun3 & Hre & Hea & Hsc3 & Hrng & Hgr3 & Hge3 & Hfo3 & Hfe3 & Hpf3).
  cbn [length] in Hrun3. rewrite Hrun3.
  cbn [app] in *. rewrite Hp2 in *.
  assert (Hreds : redBlocks (this w2) =
                  fst (dropRandomReds (length (filter (under (player (this w))) (greenBlocks (this w))))
                         (redBlocks (this w)) (rng w)))
    by (rewrite <- Hdr; reflexivity).
  assert (Hrng2 : rng w2 =
                  snd (dropRandomReds (length (filter (under (player (this w))) (greenBlocks (this w))))
                         (redBlocks (this w)) (rng w)))
    by (rewrite <- Hdr; reflexivity).
  rewrite Hreds in *.
  exists w3. split; [reflexivity|].
  split; [rewrite Hsc3, Hsc2; ring|].
  split; [congruence|]. split; [congruence|]. split; [congruence|].
  split; [congruence|]. split; [congruence|]. split; [exact Hre|].
  split; [congruence|].
  apply (samePlayfield_trans _ _ _ Hpf2 Hpf3).
Qed.

(** [checkCollisions] in a world in which the food is under the player: 40
    is added and the pickup counted, then the food is placed; a placement
    that fails makes the method throw, otherwise the method goes on as from
    the world with the food on its new cell. *)
Lemma checkCollisions_food (w : World) :
  let g := this w in
  under (player g) (food g) = true ->
  checkCollisions w =
  match firstFree (occupiedIn g) (drawnCell (width g) (height g) (rng w)) 1000 with
  | None => (Throw boardFull,
             {| this := set_foodEaten (addScore 40 g) (foodEaten g + 1);
                rng := advance (rng w) 2002 |})
  | Some k => checkCollisions (relocated w k)
  end.
Proof.
  cbv zeta. intros Hfood.
  unfold checkCollisions at 1. rewrite run_getThis.
  fold (under (player (this w)) (food (this w))). rewrite Hfood.
  rewrite run_bind, run_update, run_bind, run_update, run_bind, run_placement.
  game_fields.
  change (occupiedIn (set_foodEaten (addScore 40 (this w)) (foodEaten (this w) + 1)))
    with (occupiedIn (this w)).
  destruct (firstFree (occupiedIn (this w)) _ 1000) as [k|] eqn:E; [|reflexivity].
  rewrite run_update.
  apply firstFree_some in E. destruct E as (_ & Hfree & _).
  unfold occupiedIn in Hfree. apply isOccupied_false in Hfree.
  destruct Hfree as (Hp & _).
  symmetry. unfold checkCollisions at 1. rewrite run_getThis.
  assert (Hc : (x (player (this (relocated w k))) =? x (food (this (relocated w k)))) &&
               (y (player (this (relocated w k))) =? y (food (this (relocated w k)))) = false)
    by exact Hp.
  rewrite Hc, run_ret, run_getThis. reflexivity.
Qed.








End PickupFacts.

(** ** Grid environment: one step *)

Section StepFacts.
Import Js Grid.
Local Open Scope Z_scope.

Lemma sameItems_refl (g : Game) : sameItems g g.
Proof. unfold sameItems. repeat split. Qed.

Lemma sameItems_trans (g1 g2 g3 : Game) :
  sameItems g1 g2 -> sameItems g2 g3 -> sameItems g1 g3.
Proof.
  unfold sameItems.
  intros (a1 & a2 & a3 & a4 & a5 & a6 & a7 & a8 & a9 & a10 & a11)
         (b1 & b2 & b3 & b4 & b5 & b6 & b7 & b8 & b9 & b10 & b11).
  repeat split; congruence.
Qed.

Lemma addScore_sameItems (d : Q) (g : Game) : sameItems g (addScore d g).
Proof. unfold sameItems. repeat split. Qed.

Lemma recordMove_sameItems (a : string) (g : Game) : sameItems g (recordMove a g).
Proof.
  unfold recordMove. cbv zeta. destruct (_ <? _)%nat; unfold sameItems; repeat split.
Qed.

Lemma explorationBonus_sameItems (g : Game) : sameItems g (explorationBonus g).
Proof.
  unfold explorationBonus. destruct (negb _); unfold sameItems; repeat split.
Qed.

Lemma distanceShaping_sameItems (oldX oldY : Z) (g : Game) :
  sameItems g (distanceShaping oldX oldY g).
Proof.
  unfold distanceShaping. cbv zeta. destruct (Qltb _ _); unfold sameItems; repeat split.
Qed.

Lemma cyclePenalty_sameItems (g : Game) : sameItems g (cyclePenalty g).
Proof.
  unfold cyclePenalty. destruct (8 <=? _)%nat; [|apply sameItems_refl].
  cbv zeta. destruct (_ =? _)%string; unfold sameItems; repeat split.
Qed.

Lemma repetitionPenalty_sameItems (g : Game) : sameItems g (repetitionPenalty g).
Proof.
  unfold repetitionPenalty. destruct (10 <=? _)%nat; [|apply sameItems_refl].
  cbv zeta. destruct (_ =? 1)%nat; [apply addScore_sameItems|].
  destruct (_ =? 2)%nat.
  - destruct (patternAlternates _); [apply addScore_sameItems | apply sameItems_refl].
  - destruct (8 <=? _); [apply addScore_sameItems | apply sameItems_refl].
Qed.

Lemma wallPenalty_sameItems (oldX oldY : Z) (g : Game) :
  sameItems g (wallPenalty oldX oldY g).
Proof.
  unfold wallPenalty. destruct (_ && _); unfold sameItems; repeat split.
Qed.

(** The shaping of the score touches neither the board nor what lies on it. *)
Lemma shaped_sameItems (a : string) (g : Game) : sameItems (movePlayer a g) (shaped a g).
Proof.
  unfold shaped, patternPenalties. cbv zeta.
  eapply sameItems_trans; [|apply wallPenalty_sameItems].
  eapply sameItems_trans; [|apply repetitionPenalty_sameItems].
  eapply sameItems_trans; [|apply cyclePenalty_sameItems].
  eapply sameItems_trans; [|apply distanceShaping_sameItems].
  eapply sameItems_trans; [|apply explorationBonus_sameItems].
  apply recordMove_sameItems.
Qed.

(** [step], run up to its pickups. *)
Lemma step_run (K : Constants) (a : string) (w : World) :
  step K a w =
  bind checkCollisions
    (fun _ => bind (tick K)
       (fun _ => bind getThis
          (fun g => ret {| state := getState g;
                           reward := (score g - score (this w))%Q;
                           done := false |})))
    {| this := shaped a (this w); rng := rng w |}.
Proof. unfold step. rewrite run_getThis, !run_update. reflexivity. Qed.

Lemma sameBoard_refl (g : Game) : sameBoard g g.
Proof. unfold sameBoard. repeat split. Qed.

Lemma sameBoard_trans (g1 g2 g3 : Game) :
  sameBoard g1 g2 -> sameBoard g2 g3 -> sameBoard g1 g3.
Proof.
  unfold sameBoard. intros (a1 & a2 & a3 & a4) (b1 & b2 & b3 & b4).
  repeat split; congruence.
Qed.

Lemma keepsBoard_ret {A : Type} (a : A) : keepsBoard (ret a).
Proof. intros w. apply sameBoard_refl. Qed.

Lemma keepsBoard_getThis : keepsBoard getThis.
Proof. intros w. apply sameBoard_refl. Qed.

Lemma keepsBoard_update (f : Game -> Game) :
  (forall g, sameBoard g (f g)) -> keepsBoard (update f).
Proof. intros H w. apply H. Qed.

Lemma keepsBoard_liftRng {A : Type} (c : M Rng A) : keepsBoard (liftRng c).
Proof. intros w. unfold liftRng. destruct (c (rng w)). apply sameBoard_refl. Qed.

Lemma keepsBoard_bind {A B : Type} (c : M World A) (k : A -> M World B) :
  keepsBoard c -> (forall a, keepsBoard (k a)) -> keepsBoard (bind c k).
Proof.
  intros Hc Hk w. unfold bind. specialize (Hc w).
  destruct (c w) as [[a|e] w1]; cbn [snd] in *; [|exact Hc].
  eapply sameBoard_trans; [exact Hc | apply Hk].
Qed.

Lemma keepsBoard_greenLoop (fuel : nat) : forall i, keepsBoard (greenLoop fuel i).
Proof.
  pose proof (@keepsBoard_ret) as Hret. pose proof (@keepsBoard_liftRng) as Hlift.
  pose proof keepsBoard_getThis as Hget.
  induction fuel as [|fuel IH]; intros i; cbn [greenLoop]; [apply keepsBoard_ret|].
  apply keepsBoard_bind; [apply keepsBoard_getThis|]. intros g.
  destruct (nth_error (greenBlocks g) i) as [gb|]; [|apply keepsBoard_ret].
  destruct (_ && _); [|apply IH].
  thread (@keepsBoard_bind) keepsBoard_update.
Qed.

Lemma keepsBoard_redLoop (fuel : nat) : forall i, keepsBoard (redLoop fuel i).
Proof.
  pose proof (@keepsBoard_ret) as Hret. pose proof keepsBoard_getThis as Hget.
  induction fuel as [|fuel IH]; intros i; cbn [redLoop]; [apply keepsBoard_ret|].
  apply keepsBoard_bind; [apply keepsBoard_getThis|]. intros g.
  destruct (nth_error (redBlocks g) i) as [rb|]; [|apply keepsBoard_ret].
  destruct (_ && _); [|apply IH].
  thread (@keepsBoard_bind) keepsBoard_update.
Qed.

Lemma keepsBoard_checkCollisions : keepsBoard checkCollisions.
Proof.
  pose proof (@keepsBoard_ret) as Hret. pose proof keepsBoard_getThis as Hget.
  pose proof (@keepsBoard_liftRng) as Hlift.
  pose proof keepsBoard_greenLoop as Hgreen. pose proof keepsBoard_redLoop as Hred.
  unfold checkCollisions. thread (@keepsBoard_bind) keepsBoard_update.
Qed.

Lemma keepsBoard_tick (K : Constants) : keepsBoard (tick K).
Proof.
  pose proof (@keepsBoard_ret) as Hret. pose proof keepsBoard_getThis as Hget.
  pose proof (@keepsBoard_liftRng) as Hlift.
  unfold tick. thread (@keepsBoard_bind) keepsBoard_update.
Qed.

(** After [step], returned from or not, the board is as it was and the
    player is where [movePlayer] has put it. *)
Lemma step_board (K : Constants) (a : string) (w : World) :
  sameBoard (movePlayer a (this w)) (this (snd (step K a w))).
Proof.
  rewrite step_run.
  assert (H0 : sameBoard (movePlayer a (this w)) (shaped a (this w))).
  { pose proof (shaped_sameItems a (this w)) as H. unfold sameItems in H.
    unfold sameBoard. tauto. }
  eapply sameBoard_trans; [exact H0|].
  match goal with
  | |- sameBoard _ (this (snd (?c ?w0))) =>
      assert (Hk : keepsBoard c); [|exact (Hk w0)]
  end.
  apply keepsBoard_bind; [apply keepsBoard_checkCollisions|]. intros _.
  apply keepsBoard_bind; [apply keepsBoard_tick|]. intros _.
  apply keepsBoard_bind; [apply keepsBoard_getThis|]. intros g.
  apply keepsBoard_ret.
Qed.

(** [movePlayer] in one of the four directions: the player stays, or goes
    to the next cell in that direction, which is then on the board and not
    an obstacle. Nothing else changes. *)
Lemma movePlayer_cases (a : string) (g : Game) :
  In a actions ->
  let g' := movePlayer a g in
  width g' = width g /\ height g' = height g /\ obstacles g' = obstacles g /\
  (player g' = player g \/
   (player g' = moved a (player g) /\
    isWithinBounds g (x (player g')) (y (player g')) = true /\
    existsb (isAt (x (player g')) (y (player g'))) (obstacles g) = false)).
Proof.
  intros Ha. cbv zeta. unfold movePlayer, moved.
  assert (Hcase : a = "up"%string \/ a = "down"%string \/ a = "left"%string \/ a = "right"%string)
    by (simpl in Ha; intuition auto).
  destruct Hcase as [-> | [-> | [-> | ->]]]; cbn [String.eqb Ascii.eqb Bool.eqb];
    cbv zeta;
    match goal with
    | |- context [negb (isWithinBounds g ?a ?b)] =>
        destruct (isWithinBounds g a b) eqn:Hb; cbn [negb];
        [destruct (existsb (isAt a b) (obstacles g)) eqn:Ho|]
    end; game_fields; cbn [x y]; auto 10.
Qed.

Lemma moved_one_cell (a : string) (p : Pos) :
  In a actions -> distance (moved a p) p = 1.
Proof.
  intros Ha.
  assert (Hcase : a = "up"%string \/ a = "down"%string \/ a = "left"%string \/ a = "right"%string)
    by (simpl in Ha; intuition auto).
  unfold distance, moved.
  destruct Hcase as [-> | [-> | [-> | ->]]]; cbn [String.eqb Ascii.eqb Bool.eqb x y]; lia.
Qed.

(** C4. After [step] in one of the four directions, whether it returns or
    throws, the board is as it was and the player either has not moved or is
    on the next cell in the direction asked for, exactly one cell away, that
    cell being on the board and not an obstacle; so a player that was on the
    board and off the obstacles still is. *)
Theorem step_moves_one_cell (K : Constants) (a : string) (w : World) :
  In a actions ->
  let g := this w in
  let g' := this (snd (step K a w)) in
  width g' = width g /\ height g' = height g /\ obstacles g' = obstacles g /\
  (player g' = player g \/
   (player g' = moved a (player g) /\ distance (player g') (player g) = 1 /\
    isWithinBounds g' (x (player g')) (y (player g')) = true /\
    existsb (isAt (x (player g')) (y (player g'))) (obstacles g') = false)) /\
  (isWithinBounds g (x (player g)) (y (player g)) = true ->
   existsb (isAt (x (player g)) (y (player g))) (obstacles g) = false ->
   isWithinBounds g' (x (player g')) (y (player g')) = true /\
   existsb (isAt (x (player g')) (y (player g'))) (obstacles g') = false).
Proof.
  intros Ha. cbv zeta.
  destruct (step_board K a w) as (Hw & Hh & Ho & Hp).
  destruct (movePlayer_cases a (this w) Ha) as (Mw & Mh & Mo & Mp).
  set (g' := this (snd (step K a w))) in *.
  assert (Ew : width g' = width (this w)) by congruence.
  assert (Eh : height g' = height (this w)) by congruence.
  assert (Eo : obstacles g' = obstacles (this w)) by congruence.
  assert (Eb : forall cx cy, isWithinBounds g' cx cy = isWithinBounds (this w) cx cy)
    by (intros; unfold isWithinBounds; rewrite Ew, Eh; reflexivity).
  split; [exact Ew|]. split; [exact Eh|]. split; [exact Eo|].
  rewrite Hp, Eo, !Eb.
  destruct Mp as [Mp | (Mp & Mb & Mob)].
  - rewrite Mp. split; [left; reflexivity | auto].
  - split.
    + right. split; [exact Mp|]. split; [rewrite Mp; apply moved_one_cell; exact Ha|].
      split; assumption.
    + intros _ _. split; assumption.
Qed.

(** A move to the right from (0,0) on the 20 by 15 board. *)
Lemma step_moves_one_cell_witness :
  let w := {| this := gameOn {| x := 0; y := 0 |} {| x := 3; y := 3 |} [];
              rng := constantRng 0 |} in
  player (this (snd (step (board20x15 50) "right" w))) = {| x := 1; y := 0 |} /\
  isWithinBounds (this (snd (step (board20x15 50) "right" w))) 1 0 = true.
Proof.
  cbv zeta.
  destruct (step_moves_one_cell (board20x15 50) "right"
              {| this := gameOn {| x := 0; y := 0 |} {| x := 3; y := 3 |} [];
                 rng := constantRng 0 |})
    as (_ & _ & _ & _ & H).
  - simpl. auto.
  - destruct H as [Hb _]; [reflexivity | reflexivity |].
    assert (E : player (this (snd (step (board20x15 50) "right"
                  {| this := gameOn {| x := 0; y := 0 |} {| x := 3; y := 3 |} [];
                     rng := constantRng 0 |}))) = {| x := 1; y := 0 |})
      by (vm_compute; reflexivity).
    rewrite E in Hb. split; [exact E | exact Hb].
Defined.

End StepFacts.

(** ** Grid environment: steps that throw *)

Section ThrowFacts.
Import Js Grid.
Local Open Scope Z_scope.

(** The world the constructor yields from the draws of [foodTrapDraws], and
    the step to the left from it: the player lands on the food, whose
    placement fails. *)
Lemma foodTrap_reachable (n : Z) : reachable (board20x15 n) foodTrap.
Proof.
  apply (reachable_new (board20x15 n) (rngOf foodTrapDraws) (rng foodTrap) (this foodTrap)).
  vm_compute. reflexivity.
Qed.

Lemma foodTrap_throws (n : Z) : fst (step (board20x15 n) "left" foodTrap) = Throw boardFull.
Proof. vm_compute. reflexivity. Qed.

(** What an idle world is made of. *)
Lemma idle_fields (j : Z) (w : World) :
  idle j w ->
  width (this w) = 20 /\ height (this w) = 15 /\ tickCount (this w) = j /\
  player (this w) = {| x := 0; y := 0 |} /\ food (this w) = {| x := 1; y := 0 |} /\
  redBlocks (this w) = [] /\ greenBlocks (this w) = [] /\
  rng w = advance (rngOf idleDraws) 4.
Proof.
  intros [Hi Hr]. unfold sameItems in Hi.
  destruct Hi as (Iw & Ih & It & Io & Ip & If & Ir & Ig & _).
  repeat split; assumption.
Qed.

Lemma sameItems_tick (a b : Game) (j : Z) :
  sameItems (set_tickCount a j) b ->
  sameItems (set_tickCount a (j + 1)) (set_tickCount b (tickCount b + 1)).
Proof.
  unfold sameItems. game_fields.
  intros (Iw & Ih & It & Io & Ip & If & Ir & Ig & Ife & Ire & Ige).
  repeat split; try assumption. lia.
Qed.

(** In an idle world every cell a placement draws is the player's. *)
Lemma idle_board_full (j : Z) (w : World) (g : Game) :
  idle j w -> sameBoard (this w) g ->
  firstFree (occupiedIn g) (drawnCell (width g) (height g) (rng w)) 1000 = None.
Proof.
  intros Hi Hg. apply firstFree_none. intros k _.
  destruct (idle_fields j w Hi) as (Iw & Ih & _ & Ip & _ & _ & _ & Hr).
  unfold sameBoard in Hg. destruct Hg as (Gw & Gh & _ & Gp).
  rewrite Hr. unfold drawnCell, occupiedIn, isOccupied.
  cbn [entropy calls advance rngOf x y].
  rewrite !(nth_overflow idleDraws) by (simpl; lia).
  rewrite Gp, Ip. reflexivity.
Qed.

(** A step up in an idle world, up to the tick: the move is rejected and
    there is nothing to pick up. *)
Lemma idle_checkCollisions (j : Z) (w : World) :
  idle j w ->
  exists w2,
    checkCollisions {| this := shaped "up" (this w); rng := rng w |} = (Return tt, w2) /\
    sameItems (this w) (this w2) /\ rng w2 = rng w.
Proof.
  intros Hi.
  destruct (idle_fields j w Hi) as (Iw & Ih & It & Ip & If & Ir & Ig & Hr).
  assert (Hm : movePlayer "up" (this w) = this w).
  { unfold movePlayer. cbn [String.eqb Ascii.eqb Bool.eqb]. cbv zeta.
    unfold isWithinBounds. rewrite Ip, Iw, Ih. reflexivity. }
  pose proof (shaped_sameItems "up" (this w)) as Hs. rewrite Hm in Hs.
  unfold sameItems in Hs.
  destruct Hs as (Sw & Sh & St & So & Sp & Sf & Sr & Sg & Sfe & Sre & Sge).
  generalize dependent (shaped "up" (this w)). intros sg Sw Sh St So Sp Sf Sr Sg Sfe Sre Sge.
  set (w1 := {| this := sg; rng := rng w |}).
  assert (Hfood : under (player (this w1)) (food (this w1)) = false).
  { unfold w1. cbn [this]. rewrite Sp, Sf, Ip, If. reflexivity. }
  destruct (checkCollisions_blocks w1 Hfood)
    as (w2 & Hrun & _ & Hfe & Hge & Hre & Hfo & Hgr & Hrd & Hrng & Hpf).
  unfold w1 in Hfe, Hge, Hre, Hfo, Hgr, Hrd, Hrng, Hpf.
  cbn [this rng] in Hfe, Hge, Hre, Hfo, Hgr, Hrd, Hrng, Hpf.
  rewrite Sg, Ig in Hgr, Hge, Hrd, Hre, Hrng. rewrite Sr, Ir in Hrd, Hre, Hrng.
  cbn [filter length dropRandomReds fst snd notUnder Z.of_nat] in Hgr, Hge, Hrd, Hre, Hrng.
  unfold samePlayfield in Hpf.
  destruct Hpf as (Pw & Ph & Pt & Po & Pp & _).
  exists w2. split; [exact Hrun|]. split; [|exact Hrng].
  unfold sameItems.
  repeat split; try congruence; lia.
Qed.

Lemma idle_step (n j : Z) (w : World) :
  idle j w -> 0 <= j -> j + 1 < n ->
  exists result w', step (board20x15 n) "up" w = (Return result, w') /\ idle (j + 1) w'.
Proof.
  intros Hidle Hj Hn.
  destruct (idle_checkCollisions j w Hidle) as (w2 & Hrun & Hs & Hr).
  rewrite step_run, (run_known _ _ _ _ _ Hrun).
  unfold tick. rewrite run_bind, run_update, run_bind, run_getThis. game_fields.
  assert (Ht : tickCount (this w2) = j).
  { destruct (idle_fields j w Hidle) as (_ & _ & It & _).
    unfold sameItems in Hs. destruct Hs as (_ & _ & St & _). congruence. }
  assert (Hrem : remainderIsZero (tickCount (this w2) + 1) (TICK_SPAWN_INTERVAL (board20x15 n))
                 = false).
  { unfold remainderIsZero. cbn [TICK_SPAWN_INTERVAL board20x15]. rewrite Ht.
    destruct (n =? 0) eqn:E; [reflexivity|].
    rewrite Z.rem_small by lia. apply Z.eqb_neq. lia. }
  rewrite Hrem, run_ret, run_getThis. unfold ret.
  do 2 eexists. split; [reflexivity|].
  destruct Hidle as [Hi Hrng].
  split; [|cbn [rng]; congruence].
  cbn [this]. apply sameItems_tick.
  apply (sameItems_trans _ _ _ Hi Hs).
Qed.

Lemma idle_throws (n j : Z) (w : World) :
  idle j w -> 0 <= j -> j + 1 = n ->
  fst (step (board20x15 n) "up" w) = Throw boardFull.
Proof.
  intros Hidle Hj Hn.
  destruct (idle_checkCollisions j w Hidle) as (w2 & Hrun & Hs & Hr).
  rewrite step_run, (run_known _ _ _ _ _ Hrun).
  unfold tick. rewrite run_bind, run_update, run_bind, run_getThis. game_fields.
  assert (Ht : tickCount (this w2) = j).
  { destruct (idle_fields j w Hidle) as (_ & _ & It & _).
    unfold sameItems in Hs. destruct Hs as (_ & _ & St & _). congruence. }
  assert (Hrem : remainderIsZero (tickCount (this w2) + 1) (TICK_SPAWN_INTERVAL (board20x15 n))
                 = true).
  { unfold remainderIsZero. cbn [TICK_SPAWN_INTERVAL board20x15]. rewrite Ht, Hn.
    destruct (n =? 0) eqn:E; [apply Z.eqb_eq in E; lia|].
    rewrite Z.rem_same by lia. reflexivity. }
  rewrite Hrem. unfold spawnBonusPair. rewrite !run_bind, run_placement. cbn [this rng].
  assert (Hidle2 : idle j {| this := this w; rng := rng w2 |}).
  { destruct Hidle as [Hi Hrng]. split; [exact Hi | cbn [rng]; congruence]. }
  assert (Hsame : sameBoard (this w) (set_tickCount (this w2) (tickCount (this w2) + 1))).
  { unfold sameItems in Hs. unfold sameBoard. game_fields. tauto. }
  match goal with
  | |- context [firstFree ?o ?c 1000] =>
      assert (E : firstFree o c 1000 = None)
        by exact (idle_board_full j {| this := this w; rng := rng w2 |}
                    (set_tickCount (this w2) (tickCount (this w2) + 1)) Hidle2 Hsame)
  end.
  rewrite E. reflexivity.
Qed.

(** Idle worlds are reachable for every number of ticks below the spawn
    interval. *)
Lemma idle_reachable (n : Z) (m : nat) :
  Z.of_nat m < n ->
  exists w, reachable (board20x15 n) w /\ idle (Z.of_nat m) w.
Proof.
  induction m as [|m IH]; intros Hm.
  - exists {| this := gameOn {| x := 0; y := 0 |} {| x := 1; y := 0 |} [];
              rng := advance (rngOf idleDraws) 4 |}.
    split.
    + apply (reachable_new (board20x15 n) (rngOf idleDraws)). vm_compute. reflexivity.
    + split; [|reflexivity]. unfold sameItems. repeat split.
  - destruct IH as (w & Hreach & Hidle); [lia|].
    destruct (idle_step n (Z.of_nat m) w Hidle) as (result & w' & Hstep & Hidle');
      [lia | lia |].
    exists w'. split.
    + apply (reachable_step (board20x15 n) w w' "up" result Hreach); [|exact Hstep].
      simpl. auto.
    + replace (Z.of_nat (S m)) with (Z.of_nat m + 1) by lia. exact Hidle'.
Qed.

(** C10. [step] is not total: on the 20 by 15 board, whatever the spawn
    interval, there is a world reachable from the constructor in which the
    step onto the food throws the board-full error, the placement of the
    food failing; and a world reachable by steps that return, without blocks
    and with the player off the food, in which the tick counter reaches the
    spawn interval and the step throws the same error, the placement of the
    bonus pair failing. *)
Theorem step_can_throw (n : Z) :
  0 < n ->
  let K := board20x15 n in
  (exists w, reachable K w /\
             food (this w) = moved "left" (player (this w)) /\
             fst (step K "left" w) = Throw boardFull) /\
  (exists w, reachable K w /\
             under (player (this w)) (food (this w)) = false /\
             greenBlocks (this w) = [] /\ redBlocks (this w) = [] /\
             tickCount (this w) + 1 = TICK_SPAWN_INTERVAL K /\
             fst (step K "up" w) = Throw boardFull).
Proof.
  intros Hn. cbv zeta. split.
  - exists foodTrap. split; [apply foodTrap_reachable|].
    split; [reflexivity | apply foodTrap_throws].
  - destruct (idle_reachable n (Z.to_nat (n - 1))) as (w & Hreach & Hidle); [lia|].
    rewrite Z2Nat.id in Hidle by lia.
    exists w. split; [exact Hreach|].
    assert (Hthrow := idle_throws n (n - 1) w Hidle ltac:(lia) ltac:(lia)).
    destruct (idle_fields (n - 1) w Hidle) as (_ & _ & It & Ip & If & Ir & Ig & _).
    rewrite Ip, If, Ig, Ir, It. cbn [TICK_SPAWN_INTERVAL board20x15].
    repeat split; try reflexivity; [lia | exact Hthrow].
Qed.

Lemma step_can_throw_witness :
  exists w, reachable (board20x15 50) w /\
            fst (step (board20x15 50) "left" w) = Throw boardFull.
Proof.
  destruct (proj1 (step_can_throw 50 eq_refl)) as (w & Hreach & _ & Hthrow).
  exists w. split; [exact Hreach | exact Hthrow].
Defined.

End ThrowFacts.

(** ** Checkpoints *)

Section CheckpointFacts.
Import Json Checkpoint.

Lemma Value_nested_ind (P : Value -> Prop) :
  P Undefined -> P Null -> (forall b, P (Boolean b)) -> (forall n, P (Number n)) ->
  (forall s, P (Str s)) ->
  (forall elements, Forall P elements -> P (Array elements)) ->
  (forall properties, Forall (fun property => P (snd property)) properties ->
                      P (Object properties)) ->
  forall value, P value.
Proof.
  intros HU HN HB HNum HS HA HO.
  fix IH 1. intros [| |b|n|s|elements|properties].
  - exact HU.
  - exact HN.
  - apply HB.
  - apply HNum.
  - apply HS.
  - apply HA. induction elements as [|e rest IHl]; constructor; [apply IH | exact IHl].
  - apply HO. induction properties as [|[k v] rest IHl]; constructor; [apply IH | exact IHl].
Qed.

Lemma distinct_spec (keys : list string) : distinct keys = true -> NoDup keys.
Proof.
  induction keys as [|k rest IH]; cbn [distinct]; intros H; constructor.
  - apply andb_true_iff in H. destruct H as [H _]. apply negb_true_iff in H.
    intros Hin. assert (E : existsb (String.eqb k) rest = true).
    { apply existsb_exists. exists k. split; [exact Hin | apply String.eqb_refl]. }
    congruence.
  - apply IH. apply andb_true_iff in H. apply H.
Qed.

(** Properties defined one after the other under keys the object does not
    have come last, in their order. *)
Lemma define_fresh (members acc : list (string * Value)) :
  NoDup (map fst acc ++ map fst members) ->
  fold_left (fun properties member => define properties (fst member) (snd member)) members acc =
  acc ++ members.
Proof.
  revert acc. induction members as [|[k v] rest IH]; intros acc Hnd; cbn [fold_left].
  - rewrite app_nil_r. reflexivity.
  - cbn [fst snd map] in *.
    assert (Hfresh : existsb (fun property => (fst property =? k)%string) acc = false).
    { apply not_true_iff_false. intros E. apply existsb_exists in E.
      destruct E as ([k' v'] & Hin & Ek). cbn [fst] in Ek. apply String.eqb_eq in Ek. subst k'.
      apply NoDup_remove_2 in Hnd. apply Hnd. apply in_or_app. left.
      apply (in_map fst) in Hin. exact Hin. }
    unfold define at 2. rewrite Hfresh. rewrite IH.
    + rewrite <- app_assoc. reflexivity.
    + rewrite map_app, <- app_assoc. exact Hnd.
Qed.

(** A plain value is written in full, and reads back as itself. *)
Lemma parse_stringify (value : Value) :
  plain value = true -> exists text, stringify value = Some text /\ parse text = value.
Proof.
  induction value as [| |b|n|s|elements IH|properties IH] using Value_nested_ind;
    cbn [plain stringify]; intros Hp.
  - discriminate.
  - eexists. split; reflexivity.
  - eexists. split; reflexivity.
  - apply andb_true_iff in Hp. destruct Hp as [Hfin Hz]. rewrite Hfin.
    eexists. split; [reflexivity|]. cbn [parse]. f_equal.
    destruct (n =? 0)%float eqn:E; [|reflexivity].
    cbn [negb orb] in Hz. apply Leibniz.eqb_spec in Hz. symmetry. exact Hz.
  - eexists. split; reflexivity.
  - eexists. split; [reflexivity|]. cbn [parse]. f_equal.
    induction IH as [|e rest He _ IHrest]; [reflexivity|].
    cbn [forallb] in Hp. apply andb_true_iff in Hp. destruct Hp as [Hpe Hprest].
    cbn [map]. destruct (He Hpe) as (t & -> & ->). rewrite (IHrest Hprest). reflexivity.
  - apply andb_true_iff in Hp. destruct Hp as [Hd Hp]. apply distinct_spec in Hd.
    eexists. split; [reflexivity|]. cbn [parse]. f_equal.
    assert (E : map (fun member : string * Text => let (key, text) := member in (key, parse text))
                  (flat_map (fun property : string * Value =>
                               let (key, v) := property in
                               match stringify v with
                               | Some text => [(key, text)]
                               | None => []
                               end) properties) = properties).
    { clear Hd. induction IH as [|[k v] rest He _ IHrest]; [reflexivity|].
      cbn [forallb] in Hp. apply andb_true_iff in Hp. destruct Hp as [Hpe Hprest].
      cbn [flat_map snd] in *. destruct (He Hpe) as (t & -> & Et).
      cbn [app map]. rewrite Et, (IHrest Hprest). reflexivity. }
    rewrite E. rewrite define_fresh; [reflexivity|]. exact Hd.
Qed.

(** A saved state is what the next load returns when the file could be
    written and can be read. *)
Lemma load_save (state : Value) (path : string) (disk : Disk) (text : Text) :
  stringify state = Some text ->
  refusesWrite disk path = false -> refusesRead disk path = false ->
  loadTrainingState path (saveTrainingState state path disk) = parse text.
Proof.
  intros Hs Hw Hr. unfold saveTrainingState, loadTrainingState. rewrite Hs, Hw.
  cbn [files writeFile refusesRead]. rewrite String.eqb_refl, Hr. reflexivity.
Qed.

(** C8, as stated, fails: a training state whose one transition has the
    priority NaN is written with the priority [null], and read back with
    it; what is loaded is not what was saved. *)
Lemma checkpoint_loses_NaN :
  let saved := sampleState (Number PrimFloat.nan) in
  let loaded :=
    loadTrainingState "checkpoint.json" (saveTrainingState saved "checkpoint.json" emptyDisk) in
  get (at_ (get saved "replayBuffer") 0) "priority" = Number PrimFloat.nan /\
  get (at_ (get loaded "replayBuffer") 0) "priority" = Null /\
  loaded <> saved /\
  loaded = sampleState Null.
Proof.
  cbv zeta. split; [reflexivity|]. split; [vm_compute; reflexivity|].
  split; [|vm_compute; reflexivity].
  intros E. apply (f_equal (fun v => get (at_ (get v "replayBuffer") 0) "priority")) in E.
  vm_compute in E. discriminate E.
Qed.

(** C8, amended. A training state that holds finite numbers only, no
    negative zero and no [undefined], saved to a file that can be written
    and read, is loaded as it was saved: the same [episode], [epsilon],
    [baseLearningRate] and the same [replayBuffer], entry by entry and field
    by field. *)
Theorem checkpoint_round_trip (state : Value) (path : string) (disk : Disk) :
  plain state = true ->
  refusesWrite disk path = false -> refusesRead disk path = false ->
  let loaded := loadTrainingState path (saveTrainingState state path disk) in
  loaded = state /\
  get loaded "episode" = get state "episode" /\
  get loaded "epsilon" = get state "epsilon" /\
  get loaded "baseLearningRate" = get state "baseLearningRate" /\
  get loaded "replayBuffer" = get state "replayBuffer" /\
  forall i, at_ (get loaded "replayBuffer") i = at_ (get state "replayBuffer") i.
Proof.
  intros Hp Hw Hr. cbv zeta.
  destruct (parse_stringify state Hp) as (text & Hs & Ht).
  rewrite (load_save state path disk text Hs Hw Hr), Ht.
  repeat split; reflexivity.
Qed.

Lemma checkpoint_round_trip_witness :
  loadTrainingState "checkpoint.json"
    (saveTrainingState (sampleState (Number 0.05)) "checkpoint.json" emptyDisk) =
  sampleState (Number 0.05).
Proof.
  apply (checkpoint_round_trip (sampleState (Number 0.05)) "checkpoint.json" emptyDisk);
    vm_compute; reflexivity.
Defined.

End CheckpointFacts.

(** ** Grid environment: where the pieces lie *)

Section LayoutFacts.
Import Js Grid Layout.
Local Open Scope Z_scope.

Lemma isAt_eq (c o : Pos) : isAt (x c) (y c) o = true <-> o = c.
Proof.
  unfold isAt. rewrite andb_true_iff, !Z.eqb_eq.
  destruct c as [cx cy], o as [ox oy]; cbn [x y].
  split; [intros [-> ->]; reflexivity | intros [= -> ->]; auto].
Qed.

Lemma under_eq (p b : Pos) : under p b = true <-> p = b.
Proof.
  unfold under. rewrite andb_true_iff, !Z.eqb_eq.
  destruct p as [px py], b as [bx b_y]; cbn [x y].
  split; [intros [-> ->]; reflexivity | intros [= -> ->]; auto].
Qed.

Lemma existsb_isAt (c : Pos) (l : list Pos) :
  existsb (isAt (x c) (y c)) l = true <-> In c l.
Proof.
  rewrite existsb_exists. split.
  - intros (o & Hin & Ho). apply isAt_eq in Ho. subst o. exact Hin.
  - intros Hin. exists c. split; [exact Hin | apply isAt_eq; reflexivity].
Qed.

Lemma existsb_isAt_false (c : Pos) (l : list Pos) :
  existsb (isAt (x c) (y c)) l = false <-> ~ In c l.
Proof. rewrite <- existsb_isAt. destruct (existsb _ l); split; congruence. Qed.

(** A cell is free exactly when nothing lies on it. *)
Lemma occupiedIn_false (g : Game) (c : Pos) :
  occupiedIn g (x c) (y c) = false <->
  c <> player g /\ ~ In c (items g) /\ ~ In c (obstacles g).
Proof.
  unfold occupiedIn, isOccupied, items.
  destruct (isAt (x c) (y c) (player g)) eqn:Ep.
  { apply isAt_eq in Ep. split; [discriminate | intros (H & _); congruence]. }
  destruct (isAt (x c) (y c) (food g)) eqn:Ef.
  { apply isAt_eq in Ef. split; [discriminate|].
    intros (_ & H & _). exfalso. apply H. left. exact Ef. }
  destruct (existsb (isAt (x c) (y c)) (obstacles g)) eqn:Eo.
  { apply existsb_isAt in Eo. split; [discriminate | intros (_ & _ & H); contradiction]. }
  destruct (existsb (isAt (x c) (y c)) (redBlocks g)) eqn:Er.
  { apply existsb_isAt in Er. split; [discriminate|].
    intros (_ & H & _). exfalso. apply H. right. apply in_or_app. left. exact Er. }
  destruct (existsb (isAt (x c) (y c)) (greenBlocks g)) eqn:Eg.
  { apply existsb_isAt in Eg. split; [discriminate|].
    intros (_ & H & _). exfalso. apply H. right. apply in_or_app. right. exact Eg. }
  apply existsb_isAt_false in Eo, Er, Eg.
  split; [intros _ | reflexivity].
  split; [intros ->; rewrite (proj2 (isAt_eq _ _) eq_refl) in Ep; discriminate|].
  split; [|exact Eo].
  intros [H | H].
  - subst c. rewrite (proj2 (isAt_eq _ _) eq_refl) in Ef. discriminate.
  - apply in_app_or in H. tauto.
Qed.

Lemma notUnder_In (p c : Pos) (l : list Pos) :
  In c (notUnder p l) <-> In c l /\ c <> p.
Proof.
  unfold notUnder. rewrite filter_In, negb_true_iff.
  split; intros [H1 H2]; (split; [exact H1|]).
  - intros ->. rewrite (proj2 (under_eq p p) eq_refl) in H2. discriminate.
  - destruct (under p c) eqn:E; [|reflexivity]. apply under_eq in E. congruence.
Qed.

(** On a list without repetitions at most one block is under the player. *)
Lemma at_most_one_under (p : Pos) (l : list Pos) :
  NoDup l -> (length (filter (under p) l) <= 1)%nat.
Proof.
  intros Hnd. pose proof (NoDup_filter (under p) Hnd) as Hf.
  destruct (filter (under p) l) as [|a [|b rest]] eqn:E; cbn [length]; try lia.
  assert (Ha : In a (filter (under p) l)) by (rewrite E; simpl; auto).
  assert (Hb : In b (filter (under p) l)) by (rewrite E; simpl; auto).
  apply filter_In in Ha, Hb. destruct Ha as [_ Ha], Hb as [_ Hb].
  apply under_eq in Ha, Hb. subst a b.
  inversion Hf as [|? ? Hnotin _]. exfalso. apply Hnotin. left. reflexivity.
Qed.

Lemma none_under (p : Pos) (l : list Pos) :
  ~ In p l -> filter (under p) l = [].
Proof.
  intros Hp. destruct (filter (under p) l) as [|a rest] eqn:E; [reflexivity|].
  assert (Ha : In a (filter (under p) l)) by (rewrite E; left; reflexivity).
  apply filter_In in Ha. destruct Ha as [Hin Hu]. apply under_eq in Hu. subst a.
  contradiction.
Qed.

Lemma removeAt_NoDup {A : Type} (l : list A) (i : nat) : NoDup l -> NoDup (removeAt i l).
Proof.
  intros Hnd. unfold removeAt.
  destruct (Nat.lt_ge_cases i (length l)) as [Hi | Hi].
  - destruct (nth_error l i) as [a|] eqn:E; [|apply nth_error_None in E; lia].
    apply nth_error_split in E. destruct E as (l1 & l2 & -> & <-).
    rewrite firstn_app, Nat.sub_diag, firstn_all, app_nil_r. cbn [firstn].
    replace (l1 ++ a :: l2) with ((l1 ++ [a]) ++ l2) by (rewrite <- app_assoc; reflexivity).
    replace (S (length l1)) with (length (l1 ++ [a])) by (rewrite length_app; simpl; lia).
    rewrite skipn_app, Nat.sub_diag, skipn_all. cbn [skipn app].
    apply NoDup_remove_1 in Hnd. exact Hnd.
  - rewrite firstn_all2 by lia. rewrite skipn_all2 by lia. rewrite app_nil_r. exact Hnd.
Qed.

Lemma removeAt_length {A : Type} (l : list A) (i : nat) :
  (length (removeAt i l) <= length l)%nat.
Proof. unfold removeAt. rewrite length_app, length_firstn, length_skipn. lia. Qed.

(** The red blocks the green pickups leave are red blocks that were there. *)
Lemma dropRandomReds_sub (n : nat) :
  forall (reds : list Pos) (r : Rng),
  incl (fst (dropRandomReds n reds r)) reds /\
  (NoDup reds -> NoDup (fst (dropRandomReds n reds r))) /\
  (length (fst (dropRandomReds n reds r)) <= length reds)%nat /\
  entropy (snd (dropRandomReds n reds r)) = entropy r.
Proof.
  induction n as [|n IH]; intros reds r; cbn [dropRandomReds].
  - cbn [fst snd]. split; [apply incl_refl|]. auto.
  - destruct reds as [|rb reds']; [apply IH|].
    set (reds := rb :: reds').
    set (reds2 := splice1 _ reds).
    destruct (IH reds2 (advance r 1)) as (Hi & Hn & Hl & He).
    assert (Hsub : incl reds2 reds) by (intros c Hc; apply (removeAt_incl reds _ c Hc)).
    split; [intros c Hc; apply Hsub, Hi, Hc|].
    split; [intros Hnd; apply Hn; apply removeAt_NoDup; exact Hnd|].
    split; [|rewrite He; reflexivity].
    etransitivity; [exact Hl|]. apply removeAt_length.
Qed.

Lemma NoDup_app_sub {A : Type} (a b a' b' : list A) :
  NoDup (a ++ b) -> NoDup a' -> incl a' a -> NoDup b' -> incl b' b -> NoDup (a' ++ b').
Proof.
  intros Hnd Ha Hia Hb Hib. apply NoDup_app; [exact Ha | exact Hb|].
  intros c Hca Hcb. apply Hia in Hca. apply Hib in Hcb.
  apply in_split in Hca. destruct Hca as (l1 & l2 & ->).
  rewrite <- app_assoc in Hnd. cbn [app] in Hnd.
  apply NoDup_remove_2 in Hnd. apply Hnd.
  apply in_or_app. right. apply in_or_app. right. exact Hcb.
Qed.

(** [spawnBonusPair], run: the red block is placed and pushed, then the
    green one. *)
Lemma spawnBonusPair_run (w : World) :
  spawnBonusPair w =
  let g := this w in
  let W := width g in
  let H := height g in
  match firstFree (occupiedIn g) (drawnCell W H (rng w)) 1000 with
  | None => (Throw boardFull, {| this := g; rng := advance (rng w) 2002 |})
  | Some k =>
      let r1 := advance (rng w) (2 * (k + 1)) in
      let g1 := set_redBlocks g (redBlocks g ++ [drawnCell W H (rng w) k]) in
      match firstFree (occupiedIn g1) (drawnCell W H r1) 1000 with
      | None => (Throw boardFull, {| this := g1; rng := advance r1 2002 |})
      | Some k2 =>
          (Return tt,
           {| this := set_greenBlocks g1 (greenBlocks g ++ [drawnCell W H r1 k2]);
              rng := advance r1 (2 * (k2 + 1)) |})
      end
  end.
Proof.
  unfold spawnBonusPair. rewrite run_placement. cbv zeta.
  destruct (firstFree (occupiedIn (this w)) _ 1000) as [k|]; [|reflexivity].
  rewrite run_update, run_placement. cbn [this rng].
  match goal with
  | |- context [firstFree ?o (drawnCell ?a ?b ?r) 1000] =>
      change a with (width (this w)); change b with (height (this w));
      destruct (firstFree o (drawnCell (width (this w)) (height (this w)) r) 1000) as [k2|]
  end; [|reflexivity].
  reflexivity.
Qed.

(** [tick], run. *)
Lemma tick_run (K : Constants) (w : World) :
  tick K w =
  let w1 := {| this := set_tickCount (this w) (tickCount (this w) + 1); rng := rng w |} in
  if remainderIsZero (tickCount (this w) + 1) (TICK_SPAWN_INTERVAL K)
  then spawnBonusPair w1
  else (Return tt, w1).
Proof.
  unfold tick. rewrite run_update, run_getThis. cbv zeta. game_fields.
  destruct (remainderIsZero _ _); reflexivity.
Qed.

(** A call of [step] that returns: its pickups and its tick have returned,
    and the result is the snapshot of the game, the change of the score and
    [false]. *)
Lemma step_returns (K : Constants) (a : string) (w w' : World) (result : StepResult) :
  step K a w = (Return result, w') ->
  exists w2,
    checkCollisions {| this := shaped a (this w); rng := rng w |} = (Return tt, w2) /\
    tick K w2 = (Return tt, w') /\
    result = {| state := getState (this w');
                reward := (score (this w') - score (this w))%Q;
                done := false |}.
Proof.
  rewrite step_run. unfold bind at 1.
  destruct (checkCollisions _) as [[[]|e] w2] eqn:Ec; [|discriminate].
  unfold bind at 1.
  destruct (tick K w2) as [[[]|e] w3] eqn:Et; [|discriminate].
  rewrite run_getThis. unfold ret. intros [= <- <-].
  exists w2. repeat split. exact Et.
Qed.

(** A call of [checkCollisions] that returns: the food, when it was under
    the player, has been placed on the first free cell drawn, and the two
    loops have run from there. *)
Lemma checkCollisions_returns (w w' : World) :
  checkCollisions w = (Return tt, w') ->
  let g := this w in
  exists w1,
    ((under (player g) (food g) = false /\ w1 = w) \/
     (under (player g) (food g) = true /\
      exists k, firstFree (occupiedIn g) (drawnCell (width g) (height g) (rng w)) 1000 = Some k /\
                w1 = relocated w k)) /\
    under (player (this w1)) (food (this w1)) = false /\
    blocksPicked w1 w'.
Proof.
  cbv zeta. intros Hrun.
  destruct (under (player (this w)) (food (this w))) eqn:Hfood.
  - rewrite (checkCollisions_food w Hfood) in Hrun.
    destruct (firstFree (occupiedIn (this w)) _ 1000) as [k|] eqn:Hk; [|discriminate].
    assert (Hfree := Hk). apply firstFree_some in Hfree. destruct Hfree as (_ & Hfree & _).
    assert (Hnot : under (player (this (relocated w k))) (food (this (relocated w k))) = false).
    { unfold occupiedIn in Hfree. apply isOccupied_false in Hfree. apply Hfree. }
    destruct (checkCollisions_blocks (relocated w k) Hnot) as (w'' & Hrun' & Hrest).
    rewrite Hrun' in Hrun. injection Hrun as <-.
    exists (relocated w k). split; [right; split; [reflexivity|]; exists k; auto|].
    split; [exact Hnot | exact Hrest].
  - destruct (checkCollisions_blocks w Hfood) as (w'' & Hrun' & Hrest).
    rewrite Hrun' in Hrun. injection Hrun as <-.
    exists w. split; [left; auto|]. split; [exact Hfood | exact Hrest].
Qed.

(** Items that lie apart still do once the blocks under the player are
    picked up, and the player then stands on none of them. *)
Lemma blocksPicked_wellPlaced (w1 w' : World) :
  itemsApart (this w1) -> player (this w1) <> food (this w1) ->
  blocksPicked w1 w' -> wellPlaced (this w').
Proof.
  intros (Hnd & Hobs & Hpo) Hpf
    (_ & _ & _ & _ & Hfo & Hgr & Hrd & _ & Hsame).
  unfold samePlayfield in Hsame. destruct Hsame as (_ & _ & _ & Ho & Hp & _).
  set (p := player (this w1)) in *.
  set (G := length (filter (under p) (greenBlocks (this w1)))) in *.
  destruct (dropRandomReds_sub G (redBlocks (this w1)) (rng w1)) as (Hincl & Hnd1 & _ & _).
  set (reds1 := fst (dropRandomReds G (redBlocks (this w1)) (rng w1))) in *.
  unfold items in Hnd, Hobs.
  inversion Hnd as [|? ? Hfood_out Hnd_blocks]; subst.
  assert (Hreds_in : forall c, In c (redBlocks (this w')) -> In c (redBlocks (this w1)) /\ c <> p).
  { intros c Hc. rewrite Hrd in Hc. apply notUnder_In in Hc. destruct Hc as [Hc Hne].
    split; [apply Hincl; exact Hc | exact Hne]. }
  assert (Hgreens_in : forall c, In c (greenBlocks (this w')) ->
                                 In c (greenBlocks (this w1)) /\ c <> p).
  { intros c Hc. rewrite Hgr in Hc. apply notUnder_In in Hc. exact Hc. }
  assert (Hitems : forall c, In c (items (this w')) -> In c (items (this w1)) /\ c <> p).
  { unfold items. intros c [Hc | Hc].
    - rewrite Hfo in Hc. subst c. split; [left; reflexivity | congruence].
    - apply in_app_or in Hc. destruct Hc as [Hc | Hc].
      + destruct (Hreds_in c Hc). split; [right; apply in_or_app; auto | assumption].
      + destruct (Hgreens_in c Hc). split; [right; apply in_or_app; auto | assumption]. }
  split; [split; [|split]|].
  - unfold items. rewrite Hfo. constructor.
    + intros Hc. apply Hfood_out. apply in_app_or in Hc. apply in_or_app.
      destruct Hc as [Hc | Hc]; [left; apply Hreds_in | right; apply Hgreens_in]; exact Hc.
    + apply (NoDup_app_sub (redBlocks (this w1)) (greenBlocks (this w1))); try assumption.
      * rewrite Hrd. apply NoDup_filter. apply Hnd1.
        apply NoDup_app_remove_r in Hnd_blocks. exact Hnd_blocks.
      * intros c Hc. apply Hreds_in. exact Hc.
      * rewrite Hgr. apply NoDup_filter.
        apply NoDup_app_remove_l in Hnd_blocks. exact Hnd_blocks.
      * intros c Hc. apply Hgreens_in. exact Hc.
  - intros c Hc. rewrite Ho. apply Hobs. apply Hitems. exact Hc.
  - rewrite Ho, Hp. exact Hpo.
  - rewrite Hp. intros Hc. apply Hitems in Hc. destruct Hc as [_ Hc]. apply Hc. reflexivity.
Qed.

(** The food placed on a free cell lies apart from the rest. *)
Lemma relocated_itemsApart (w : World) (k : nat) :
  itemsApart (this w) ->
  firstFree (occupiedIn (this w))
            (drawnCell (width (this w)) (height (this w)) (rng w)) 1000 = Some k ->
  itemsApart (this (relocated w k)) /\
  player (this (relocated w k)) <> food (this (relocated w k)).
Proof.
  intros (Hnd & Hobs & Hpo) Hk.
  apply firstFree_some in Hk. destruct Hk as (_ & Hfree & _).
  apply occupiedIn_false in Hfree. destruct Hfree as (Hcp & Hci & Hco).
  unfold relocated. cbv zeta. cbn [this]. unfold items in *. game_fields.
  set (c := drawnCell (width (this w)) (height (this w)) (rng w) k) in *.
  inversion Hnd as [|? ? _ Hnd_blocks]; subst.
  split; [split; [|split]|].
  - constructor; [|exact Hnd_blocks]. intros Hc. apply Hci. right. exact Hc.
  - intros c' [<- | Hc']; [exact Hco | apply Hobs; right; exact Hc'].
  - exact Hpo.
  - congruence.
Qed.

(** [checkCollisions], when it returns, leaves the pieces well placed. *)
Lemma checkCollisions_wellPlaced (w w' : World) :
  itemsApart (this w) -> checkCollisions w = (Return tt, w') -> wellPlaced (this w').
Proof.
  intros Hap Hrun.
  destruct (checkCollisions_returns w w' Hrun) as (w1 & Hw1 & Hnot & Hpick).
  assert (Hne : player (this w1) <> food (this w1)).
  { intros E. apply under_eq in E. congruence. }
  destruct Hw1 as [(_ & ->) | (_ & k & Hk & ->)].
  - apply (blocksPicked_wellPlaced w w' Hap Hne Hpick).
  - destruct (relocated_itemsApart w k Hap Hk) as (Hap' & _).
    apply (blocksPicked_wellPlaced _ w' Hap' Hne Hpick).
Qed.

(** [movePlayer] either leaves the game as it is or puts the player on the
    next cell in the direction asked for, which is then on the board and
    not an obstacle. *)
Lemma movePlayer_effect (a : string) (g : Game) :
  movePlayer a g = g \/
  (In a actions /\ movePlayer a g = set_player g (moved a (player g)) /\
   onBoard g (moved a (player g)) /\ ~ In (moved a (player g)) (obstacles g)).
Proof.
  unfold movePlayer, moved, onBoard, actions.
  destruct (a =? "up")%string eqn:E1;
    [|destruct (a =? "down")%string eqn:E2;
      [|destruct (a =? "left")%string eqn:E3;
        [|destruct (a =? "right")%string eqn:E4; [|left; reflexivity]]]];
    cbv zeta;
    match goal with
    | |- context [negb (isWithinBounds g ?cx ?cy)] =>
        destruct (isWithinBounds g cx cy) eqn:Hb; cbn [negb]; [|left; reflexivity];
        destruct (existsb (isAt cx cy) (obstacles g)) eqn:Ho; [left; reflexivity|]
    end; right;
    match goal with
    | H : (a =? ?d)%string = true |- _ => apply String.eqb_eq in H; subst a
    end;
    (split; [simpl; auto|]); (split; [reflexivity|]); cbn [x y];
    (split; [exact Hb|]);
    match goal with
    | |- ~ In ?c _ => apply (proj1 (existsb_isAt_false c (obstacles g))); exact Ho
    end.
Qed.

(** The shaping of the score keeps the move history [recordMove] has left
    and the visited cells [explorationBonus] has left. *)
Lemma shaped_history (a : string) (g : Game) :
  moveHistory (shaped a g) = moveHistory (recordMove a g) /\
  visitedCells (shaped a g) =
  visitedCells (explorationBonus (recordMove a (movePlayer a g))).
Proof.
  assert (Hm : moveHistory (recordMove a (movePlayer a g)) = moveHistory (recordMove a g)).
  { destruct (movePlayer_effect a g) as [-> | (_ & -> & _)]; [reflexivity|].
    unfold recordMove. cbv zeta. game_fields. destruct (_ <? _)%nat; reflexivity. }
  rewrite <- Hm. unfold shaped. cbv zeta.
  generalize (recordMove a (movePlayer a g)). intros g1.
  generalize (x (player g)) (y (player g)). intros oldX oldY.
  assert (He : moveHistory (explorationBonus g1) = moveHistory g1)
    by (unfold explorationBonus; destruct (negb _); reflexivity).
  set (g2 := explorationBonus g1) in *.
  assert (Hd : moveHistory (distanceShaping oldX oldY g2) = moveHistory g2 /\
               visitedCells (distanceShaping oldX oldY g2) = visitedCells g2)
    by (unfold distanceShaping; cbv zeta; destruct (Qltb _ _); split; reflexivity).
  set (g3 := distanceShaping oldX oldY g2) in *.
  assert (Hc : moveHistory (cyclePenalty g3) = moveHistory g3 /\
               visitedCells (cyclePenalty g3) = visitedCells g3).
  { unfold cyclePenalty. destruct (8 <=? _)%nat; [|split; reflexivity].
    cbv zeta. destruct (_ =? _)%string; split; reflexivity. }
  set (g4 := cyclePenalty g3) in *.
  assert (Hr : moveHistory (repetitionPenalty g4) = moveHistory g4 /\
               visitedCells (repetitionPenalty g4) = visitedCells g4).
  { unfold repetitionPenalty. destruct (10 <=? _)%nat; [|split; reflexivity].
    cbv zeta. destruct (_ =? 1)%nat; [split; reflexivity|].
    destruct (_ =? 2)%nat.
    - destruct (patternAlternates _); split; reflexivity.
    - destruct (8 <=? _); split; reflexivity. }
  unfold patternPenalties. fold g4.
  set (g5 := repetitionPenalty g4) in *.
  assert (Hw : moveHistory (wallPenalty oldX oldY g5) = moveHistory g5 /\
               visitedCells (wallPenalty oldX oldY g5) = visitedCells g5)
    by (unfold wallPenalty; destruct (_ && _); split; reflexivity).
  destruct Hd, Hc, Hr, Hw. split; congruence.
Qed.

(** The game as [step] has it when it looks for pickups: the items lie
    where they lay, and the player stands on no obstacle. *)
Lemma shaped_itemsApart (a : string) (g : Game) :
  wellPlaced g -> itemsApart (shaped a g).
Proof.
  intros ((Hnd & Hobs & Hpo) & _).
  pose proof (shaped_sameItems a g) as Hs. unfold sameItems in Hs.
  destruct Hs as (_ & _ & _ & So & Sp & Sf & Sr & Sg & _).
  unfold itemsApart, items in *. rewrite So, Sp, Sf, Sr, Sg.
  destruct (movePlayer_effect a g) as [-> | (_ & -> & _ & Hno)]; [auto|].
  game_fields. auto.
Qed.

Lemma NoDup_insert {A : Type} (l1 l2 : list A) (a : A) :
  NoDup (l1 ++ l2) -> ~ In a (l1 ++ l2) -> NoDup (l1 ++ a :: l2).
Proof.
  intros Hnd Hin. apply (NoDup_Add (Add_app a l1 l2)). auto.
Qed.

(** A block pushed on a free cell lies apart from the rest. *)
Lemma push_red_wellPlaced (g : Game) (c : Pos) :
  wellPlaced g -> occupiedIn g (x c) (y c) = false ->
  wellPlaced (set_redBlocks g (redBlocks g ++ [c])).
Proof.
  intros ((Hnd & Hobs & Hpo) & Hpi) Hfree.
  apply occupiedIn_false in Hfree. destruct Hfree as (Hcp & Hci & Hco).
  assert (Hitems : forall q, In q (items (set_redBlocks g (redBlocks g ++ [c]))) <->
                             q = c \/ In q (items g)).
  { intros q. unfold items. game_fields. cbn [In]. rewrite !in_app_iff. cbn [In].
    intuition auto. }
  unfold wellPlaced, itemsApart. game_fields.
  split; [split; [|split]|].
  - unfold items in *. game_fields. rewrite <- app_assoc. cbn [app].
    apply (NoDup_insert (food g :: redBlocks g) (greenBlocks g) c); assumption.
  - intros q Hq. apply Hitems in Hq. destruct Hq as [-> | Hq]; auto.
  - exact Hpo.
  - intros Hq. apply Hitems in Hq. destruct Hq as [Hq | Hq]; auto.
Qed.

Lemma push_green_wellPlaced (g : Game) (c : Pos) :
  wellPlaced g -> occupiedIn g (x c) (y c) = false ->
  wellPlaced (set_greenBlocks g (greenBlocks g ++ [c])).
Proof.
  intros ((Hnd & Hobs & Hpo) & Hpi) Hfree.
  apply occupiedIn_false in Hfree. destruct Hfree as (Hcp & Hci & Hco).
  assert (Hitems : forall q, In q (items (set_greenBlocks g (greenBlocks g ++ [c]))) <->
                             q = c \/ In q (items g)).
  { intros q. unfold items. game_fields. cbn [In]. rewrite !in_app_iff. cbn [In].
    intuition auto. }
  unfold wellPlaced, itemsApart. game_fields.
  split; [split; [|split]|].
  - unfold items in *. game_fields.
    change (food g :: redBlocks g ++ greenBlocks g ++ [c])
      with ((food g :: redBlocks g) ++ greenBlocks g ++ [c]).
    rewrite app_assoc.
    apply (NoDup_insert ((food g :: redBlocks g) ++ greenBlocks g) [] c);
      rewrite app_nil_r; assumption.
  - intros q Hq. apply Hitems in Hq. destruct Hq as [-> | Hq]; auto.
  - exact Hpo.
  - intros Hq. apply Hitems in Hq. destruct Hq as [Hq | Hq]; auto.
Qed.

Lemma spawnBonusPair_wellPlaced (w w' : World) :
  wellPlaced (this w) -> spawnBonusPair w = (Return tt, w') -> wellPlaced (this w').
Proof.
  intros Hwp. rewrite spawnBonusPair_run. cbv zeta.
  destruct (firstFree (occupiedIn (this w)) _ 1000) as [k|] eqn:E1; [|discriminate].
  match goal with
  | |- context [firstFree ?o ?c 1000] => destruct (firstFree o c 1000) as [k2|] eqn:E2
  end; [|discriminate].
  intros [= <-]. cbn [this].
  apply firstFree_some in E1, E2.
  destruct E1 as (_ & F1 & _), E2 as (_ & F2 & _).
  pose proof (push_red_wellPlaced (this w) _ Hwp F1) as Hwp1.
  apply (push_green_wellPlaced _ _ Hwp1 F2).
Qed.

Lemma tick_wellPlaced (K : Constants) (w w' : World) :
  wellPlaced (this w) -> tick K w = (Return tt, w') -> wellPlaced (this w').
Proof.
  intros Hwp. rewrite tick_run. cbv zeta.
  destruct (remainderIsZero _ _).
  - apply spawnBonusPair_wellPlaced. exact Hwp.
  - intros [= <-]. exact Hwp.
Qed.

Lemma step_wellPlaced (K : Constants) (a : string) (w w' : World) (result : StepResult) :
  wellPlaced (this w) -> step K a w = (Return result, w') -> wellPlaced (this w').
Proof.
  intros Hwp Hstep.
  destruct (step_returns K a w w' result Hstep) as (w2 & Hc & Ht & _).
  apply (tick_wellPlaced K w2 w'); [|exact Ht].
  apply (checkCollisions_wellPlaced {| this := shaped a (this w); rng := rng w |} w2);
    [|exact Hc].
  cbn [this]. apply shaped_itemsApart. exact Hwp.
Qed.

(** [reset], when it returns, leaves the pieces well placed, whatever the
    game was. *)
Lemma reset_wellPlaced (w w' : World) (s : GameState) :
  reset w = (Return s, w') -> wellPlaced (this w').
Proof.
  rewrite reset_run. cbv zeta.
  destruct (firstFree (occupiedIn (this w)) _ 1000) as [k|] eqn:E1; [|discriminate].
  match goal with
  | |- context [firstFree ?o ?c 1000] => destruct (firstFree o c 1000) as [k2|] eqn:E2
  end; [|discriminate].
  intros [= _ <-]. cbn [this].
  apply firstFree_some in E1, E2.
  destruct E1 as (_ & F1 & _), E2 as (_ & F2 & _).
  apply occupiedIn_false in F1, F2.
  destruct F1 as (_ & _ & P1), F2 as (Q1 & _ & Q3).
  game_fields.
  unfold wellPlaced, itemsApart, items. game_fields. cbn [app].
  split; [split; [|split]|].
  - constructor; [intros [] | constructor].
  - intros c [<- | []]. exact Q3.
  - exact P1.
  - intros [E | []]. apply Q1. exact E.
Qed.

(** So does the constructor. *)
Lemma newGame_wellPlaced (K : Constants) (r r' : Rng) (g : Game) :
  newGame K r = (Return g, r') -> wellPlaced g.
Proof.
  rewrite newGame_run. cbv zeta.
  destruct (firstFree _ _ 1000) as [k|] eqn:E1; [|discriminate].
  match goal with
  | |- context [firstFree ?o ?c 1000] => destruct (firstFree o c 1000) as [k2|] eqn:E2
  end; [|discriminate].
  intros [= <- _].
  apply firstFree_some in E1, E2.
  destruct E1 as (_ & F1 & _), E2 as (_ & F2 & _).
  apply isOccupied_false in F1, F2.
  destruct F1 as (_ & _ & P1 & _), F2 as (Q1 & _ & Q3 & _).
  apply existsb_isAt_false in P1, Q3.
  unfold wellPlaced, itemsApart, items, freshGame. game_fields. cbn [app].
  split; [split; [|split]|].
  - constructor; [intros [] | constructor].
  - intros c [<- | []]. exact Q3.
  - exact P1.
  - intros [E | []]. rewrite <- E in Q1.
    rewrite (proj2 (isAt_eq _ _) eq_refl) in Q1. discriminate.
Qed.

(** X1. In every world reached from the constructor by calls of [reset] and
    [step] that return, the food and the bonus blocks lie on pairwise
    different cells, none of them an obstacle, and the player stands on a
    cell that holds neither an item nor an obstacle. *)
Theorem reachable_wellPlaced (K : Constants) (w : World) :
  reachable K w -> wellPlaced (this w).
Proof.
  induction 1 as [r r' g Hnew | w w' a result _ IH _ Hstep | w w' s _ _ Hreset].
  - apply (newGame_wellPlaced K r r' g Hnew).
  - apply (step_wellPlaced K a w w' result IH Hstep).
  - apply (reset_wellPlaced w w' s Hreset).
Qed.

(** *** What a step leaves as it is *)

Lemma blocksPicked_frame (w1 w' : World) :
  blocksPicked w1 w' ->
  samePlayfield (this w1) (this w') /\ food (this w') = food (this w1) /\
  incl (redBlocks (this w')) (redBlocks (this w1)) /\
  incl (greenBlocks (this w')) (greenBlocks (this w1)) /\
  (length (redBlocks (this w')) <= length (redBlocks (this w1)))%nat /\
  (length (greenBlocks (this w')) <= length (greenBlocks (this w1)))%nat /\
  entropy (rng w') = entropy (rng w1).
Proof.
  intros (_ & _ & _ & _ & Hfo & Hgr & Hrd & Hrng & Hsame).
  set (p := player (this w1)) in *.
  set (G := length (filter (under p) (greenBlocks (this w1)))) in *.
  destruct (dropRandomReds_sub G (redBlocks (this w1)) (rng w1)) as (Hincl & _ & Hlen & Hent).
  split; [exact Hsame|]. split; [exact Hfo|].
  split; [intros c Hc; rewrite Hrd in Hc; apply notUnder_In in Hc; apply Hincl, Hc|].
  split; [intros c Hc; rewrite Hgr in Hc; apply notUnder_In in Hc; apply Hc|].
  split; [rewrite Hrd; unfold notUnder; etransitivity; [apply filter_length_le | exact Hlen]|].
  split; [rewrite Hgr; unfold notUnder; apply filter_length_le|].
  rewrite Hrng. exact Hent.
Qed.

(** A call of [checkCollisions] that returns writes none of the fields of
    the playfield, adds no block, and leaves the food where it was or on a
    cell it has drawn. *)
Lemma checkCollisions_frame (w w' : World) :
  checkCollisions w = (Return tt, w') ->
  let g := this w in
  let g' := this w' in
  samePlayfield g g' /\
  incl (redBlocks g') (redBlocks g) /\ incl (greenBlocks g') (greenBlocks g) /\
  (length (redBlocks g') <= length (redBlocks g))%nat /\
  (length (greenBlocks g') <= length (greenBlocks g))%nat /\
  (food g' = food g \/ exists k, food g' = drawnCell (width g) (height g) (rng w) k) /\
  entropy (rng w') = entropy (rng w).
Proof.
  cbv zeta. intros Hrun.
  destruct (checkCollisions_returns w w' Hrun) as (w1 & Hw1 & _ & Hpick).
  destruct (blocksPicked_frame w1 w' Hpick) as (Hsame & Hfo & Hri & Hgi & Hrl & Hgl & Hent).
  destruct Hw1 as [(_ & ->) | (_ & k & _ & ->)].
  - repeat (split; [assumption|]). split; [left; exact Hfo | exact Hent].
  - unfold relocated in *. cbn [this rng] in *. unfold samePlayfield in *. game_fields.
    repeat (split; [assumption|]). split; [right; exists k; exact Hfo | exact Hent].
Qed.

(** A call of [tick] that returns counts the tick and, when the count has
    become a multiple of the spawn interval, pushes one red and one green
    block, each on a cell that was free; it writes nothing else. *)
Lemma tick_frame (K : Constants) (w w' : World) :
  tick K w = (Return tt, w') ->
  let g := this w in
  let g' := this w' in
  samePlayfield (set_tickCount g (tickCount g + 1)) g' /\
  (score g' == score g)%Q /\ food g' = food g /\ foodEaten g' = foodEaten g /\
  redBlocksEaten g' = redBlocksEaten g /\ greenBlocksEaten g' = greenBlocksEaten g /\
  entropy (rng w') = entropy (rng w) /\
  if remainderIsZero (tickCount g + 1) (TICK_SPAWN_INTERVAL K)
  then exists k k2,
         redBlocks g' = redBlocks g ++ [drawnCell (width g) (height g) (rng w) k] /\
         greenBlocks g' =
         greenBlocks g ++
         [drawnCell (width g) (height g) (advance (rng w) (2 * (k + 1))) k2]
  else redBlocks g' = redBlocks g /\ greenBlocks g' = greenBlocks g /\ rng w' = rng w.
Proof.
  cbv zeta. rewrite tick_run. cbv zeta.
  destruct (remainderIsZero _ _).
  - rewrite spawnBonusPair_run. cbv zeta. cbn [this rng].
    destruct (firstFree _ _ 1000) as [k|] eqn:E1; [|discriminate].
    match goal with
    | |- context [firstFree ?o ?c 1000] => destruct (firstFree o c 1000) as [k2|] eqn:E2
    end; [|discriminate].
    intros [= <-]. unfold samePlayfield. game_fields.
    split; [repeat split|]. repeat (split; [reflexivity|]).
    exists k, k2. split; reflexivity.
  - intros [= <-]. unfold samePlayfield. game_fields.
    split; [repeat split|]. repeat (split; [reflexivity|]). auto.
Qed.

(** The fields of the playfield after a call of [step] that returns. *)
Lemma step_frame (K : Constants) (a : string) (w w' : World) (result : StepResult) :
  step K a w = (Return result, w') ->
  let g := this w in
  let g' := this w' in
  width g' = width g /\ height g' = height g /\ obstacles g' = obstacles g /\
  player g' = player (movePlayer a g) /\
  tickCount g' = tickCount g + 1 /\
  moveHistory g' = moveHistory (recordMove a g) /\
  visitedCells g' = visitedCells (explorationBonus (recordMove a (movePlayer a g))) /\
  entropy (rng w') = entropy (rng w).
Proof.
  cbv zeta. intros Hstep.
  destruct (step_returns K a w w' result Hstep) as (w2 & Hc & Ht & _).
  destruct (checkCollisions_frame _ _ Hc) as (Hpf & _ & _ & _ & _ & _ & Hent1).
  destruct (tick_frame K _ _ Ht) as (Hpf2 & _ & _ & _ & _ & _ & Hent2 & _).
  cbn [this rng] in *.
  destruct (shaped_history a (this w)) as (Hh & Hv).
  pose proof (shaped_sameItems a (this w)) as Hs. unfold sameItems in Hs.
  destruct Hs as (Sw & Sh & St & So & Sp & _).
  assert (Mw : width (movePlayer a (this w)) = width (this w) /\
               height (movePlayer a (this w)) = height (this w) /\
               obstacles (movePlayer a (this w)) = obstacles (this w) /\
               tickCount (movePlayer a (this w)) = tickCount (this w)).
  { destruct (movePlayer_effect a (this w)) as [-> | (_ & -> & _)]; auto. }
  destruct Mw as (Mw & Mh & Mo & Mt).
  unfold samePlayfield in *. game_fields.
  destruct Hpf as (P1 & P2 & P3 & P4 & P5 & P6 & _ & _ & P9).
  destruct Hpf2 as (T1 & T2 & T3 & T4 & T5 & T6 & _ & _ & T9).
  repeat split; congruence.
Qed.

(** *** The pieces stay on the board *)

Lemma allOnBoard_iff (g : Game) :
  allOnBoard g <->
  onBoard g (player g) /\ onBoard g (food g) /\
  (forall c, In c (redBlocks g) -> onBoard g c) /\
  (forall c, In c (greenBlocks g) -> onBoard g c).
Proof.
  unfold allOnBoard, items. rewrite Forall_forall. split.
  - intros (Hp & Hi). split; [exact Hp|]. split; [apply Hi; left; reflexivity|].
    split; intros c Hc; apply Hi; right; apply in_or_app; auto.
  - intros (Hp & Hf & Hr & Hg). split; [exact Hp|].
    intros c [<- | Hc]; [exact Hf|]. apply in_app_or in Hc. destruct Hc; auto.
Qed.

Lemma onBoard_same (g g' : Game) (c : Pos) :
  width g' = width g -> height g' = height g -> onBoard g c -> onBoard g' c.
Proof. unfold onBoard, isWithinBounds. intros -> ->. auto. Qed.

Lemma drawnCell_onBoard (g : Game) (r : Rng) (k : nat) :
  fairDraws r -> 0 < width g -> 0 < height g ->
  onBoard g (drawnCell (width g) (height g) r k).
Proof. intros Hr Hw Hh. apply drawnCell_in_bounds; assumption. Qed.

Lemma fairDraws_entropy (r r' : Rng) : entropy r' = entropy r -> fairDraws r -> fairDraws r'.
Proof. unfold fairDraws. intros ->. auto. Qed.

Lemma shaped_onBoard (a : string) (g : Game) : allOnBoard g -> allOnBoard (shaped a g).
Proof.
  rewrite !allOnBoard_iff. intros (Hp & Hf & Hr & Hg).
  pose proof (shaped_sameItems a g) as Hs. unfold sameItems in Hs.
  destruct Hs as (Sw & Sh & _ & _ & Sp & Sf & Sr & Sg & _).
  assert (Hm : width (movePlayer a g) = width g /\ height (movePlayer a g) = height g /\
               food (movePlayer a g) = food g /\ redBlocks (movePlayer a g) = redBlocks g /\
               greenBlocks (movePlayer a g) = greenBlocks g /\
               onBoard g (player (movePlayer a g))).
  { destruct (movePlayer_effect a g) as [-> | (_ & -> & Hb & _)]; game_fields; auto 10. }
  destruct Hm as (Mw & Mh & Mf & Mr & Mg & Mp).
  assert (Ew : width (shaped a g) = width g) by congruence.
  assert (Eh : height (shaped a g) = height g) by congruence.
  rewrite Sp, Sf, Sr, Sg, Mf, Mr, Mg.
  split; [apply (onBoard_same g _ _ Ew Eh); exact Mp|].
  split; [apply (onBoard_same g _ _ Ew Eh); exact Hf|].
  split; intros c Hc; apply (onBoard_same g _ _ Ew Eh); auto.
Qed.

Lemma checkCollisions_onBoard (w w' : World) :
  fairDraws (rng w) -> 0 < width (this w) -> 0 < height (this w) ->
  allOnBoard (this w) -> checkCollisions w = (Return tt, w') -> allOnBoard (this w').
Proof.
  intros Hfair Hw Hh Hall Hrun.
  destruct (checkCollisions_frame w w' Hrun) as (Hpf & Hri & Hgi & _ & _ & Hfood & _).
  unfold samePlayfield in Hpf. destruct Hpf as (Pw & Ph & _ & _ & Pp & _).
  apply allOnBoard_iff in Hall. destruct Hall as (Hp & Hf & Hr & Hg).
  apply allOnBoard_iff. rewrite Pp.
  split; [apply (onBoard_same (this w) _ _ Pw Ph); exact Hp|].
  split.
  - apply (onBoard_same (this w) _ _ Pw Ph).
    destruct Hfood as [-> | (k & ->)]; [exact Hf | apply drawnCell_onBoard; assumption].
  - split; intros c Hc; apply (onBoard_same (this w) _ _ Pw Ph); auto.
Qed.

Lemma tick_onBoard (K : Constants) (w w' : World) :
  fairDraws (rng w) -> 0 < width (this w) -> 0 < height (this w) ->
  allOnBoard (this w) -> tick K w = (Return tt, w') -> allOnBoard (this w').
Proof.
  intros Hfair Hw Hh Hall Hrun.
  destruct (tick_frame K w w' Hrun) as (Hpf & _ & Hfo & _ & _ & _ & _ & Hblocks).
  unfold samePlayfield in Hpf. game_fields. destruct Hpf as (Pw & Ph & _ & _ & Pp & _).
  apply allOnBoard_iff in Hall. destruct Hall as (Hp & Hf & Hr & Hg).
  apply allOnBoard_iff. rewrite Pp, Hfo.
  split; [apply (onBoard_same (this w) _ _ Pw Ph); exact Hp|].
  split; [apply (onBoard_same (this w) _ _ Pw Ph); exact Hf|].
  destruct (remainderIsZero _ _).
  - destruct Hblocks as (k & k2 & -> & ->).
    split; intros c Hc; apply in_app_or in Hc;
      apply (onBoard_same (this w) _ _ Pw Ph);
      (destruct Hc as [Hc | [<- | []]]; [auto|]);
      apply drawnCell_onBoard; assumption.
  - destruct Hblocks as (-> & -> & _).
    split; intros c Hc; apply (onBoard_same (this w) _ _ Pw Ph); auto.
Qed.

(** The board of a world a program can be in is the one the constructor
    laid out; with draws in [0,1) on a board of positive size, every piece
    is on it. *)
Lemma reachable_board (K : Constants) (w : World) :
  reachable K w ->
  width (this w) = BOARD_WIDTH K /\ height (this w) = BOARD_HEIGHT K /\
  obstacles (this w) = distinctCells (crossObstacles (BOARD_WIDTH K) (BOARD_HEIGHT K)) [] /\
  (fairDraws (rng w) -> 0 < BOARD_WIDTH K -> 0 < BOARD_HEIGHT K -> allOnBoard (this w)).
Proof.
  induction 1 as [r r' g Hnew | w w' a result _ IH _ Hstep | w w' s _ IH Hreset].
  - pose proof (newGame_outcome K r) as Ho. rewrite Hnew in Ho.
    destruct Ho as (Hw & Hh & Hobs & Hr & Hg & _ & _ & _ & Hb).
    cbn [this rng]. repeat (split; [assumption|]).
    intros Hfair HW HH. apply allOnBoard_iff. rewrite Hr, Hg.
    assert (He : entropy r' = entropy r).
    { revert Hnew. rewrite newGame_run. cbv zeta.
      destruct (firstFree _ _ 1000); [|discriminate].
      destruct (firstFree _ _ 1000); [|discriminate]. intros [= _ <-]. reflexivity. }
    destruct Hb as (Hbp & Hbf); [rewrite <- He; exact Hfair | assumption | assumption |].
    split; [exact Hbp|]. split; [exact Hbf|]. split; intros c [].
  - destruct IH as (Iw & Ih & Io & Ib).
    destruct (step_frame K a w w' result Hstep) as (Fw & Fh & Fo & _ & _ & _ & _ & Fe).
    split; [congruence|]. split; [congruence|]. split; [congruence|].
    intros Hfair HW HH.
    assert (Hfair0 : fairDraws (rng w)) by (apply (fairDraws_entropy (rng w')); auto).
    specialize (Ib Hfair0 HW HH).
    destruct (step_returns K a w w' result Hstep) as (w2 & Hc & Ht & _).
    pose proof (shaped_sameItems a (this w)) as Hs. unfold sameItems in Hs.
    destruct Hs as (Sw & Sh & _).
    assert (Mw : width (movePlayer a (this w)) = width (this w) /\
                 height (movePlayer a (this w)) = height (this w))
      by (destruct (movePlayer_effect a (this w)) as [-> | (_ & -> & _)]; auto).
    destruct Mw as (Mw & Mh).
    assert (H2 : allOnBoard (this w2)).
    { apply (checkCollisions_onBoard {| this := shaped a (this w); rng := rng w |} w2);
        cbn [this rng]; try assumption; try lia.
      apply shaped_onBoard. exact Ib. }
    destruct (checkCollisions_frame _ _ Hc) as (Hpf & _ & _ & _ & _ & _ & He2).
    unfold samePlayfield in Hpf. destruct Hpf as (Pw & Ph & _). cbn [this rng] in *.
    apply (tick_onBoard K w2 w'); try assumption; try lia.
    apply (fairDraws_entropy (rng w)); assumption.
  - destruct IH as (Iw & Ih & Io & _).
    pose proof (reset_outcome w) as Ho. rewrite Hreset in Ho. cbv zeta in Ho.
    destruct Ho as (_ & Hobs & Hr & Hg & _ & _ & _ & Hb).
    assert (Hsize : width (this w') = width (this w) /\ height (this w') = height (this w) /\
                    entropy (rng w') = entropy (rng w)).
    { revert Hreset. rewrite reset_run. cbv zeta.
      destruct (firstFree _ _ 1000); [|discriminate].
      destruct (firstFree _ _ 1000); [|discriminate]. intros [= _ <-]. auto. }
    destruct Hsize as (Hw & Hh & He).
    split; [congruence|]. split; [congruence|]. split; [congruence|].
    intros Hfair HW HH. apply allOnBoard_iff. rewrite Hr, Hg.
    destruct Hb as (Hbp & Hbf); [rewrite <- He; exact Hfair | lia | lia |].
    split; [exact Hbp|]. split; [exact Hbf|]. split; intros c [].
Qed.

(** *** History, visited cells and the number of blocks *)

(** [recordMove] keeps the last 20 moves of a history that had at most 20. *)
Lemma recordMove_history (a : string) (g : Game) :
  (length (moveHistory g) <= 20)%nat ->
  moveHistory (recordMove a g) = lastn 20 (moveHistory g ++ [a]) /\
  (length (moveHistory (recordMove a g)) <= 20)%nat.
Proof.
  intros Hlen. unfold recordMove, lastn. cbv zeta. game_fields.
  rewrite length_app. cbn [length].
  destruct (20 <? length (moveHistory g) + 1)%nat eqn:E; game_fields.
  - apply Nat.ltb_lt in E.
    replace (length (moveHistory g) + 1 - 20)%nat with 1%nat by lia.
    destruct (moveHistory g ++ [a]) as [|m rest] eqn:El.
    { destruct (moveHistory g); discriminate. }
    cbn [tl skipn]. split; [reflexivity|].
    assert (Hl : length (m :: rest) = (length (moveHistory g) + 1)%nat)
      by (rewrite <- El, length_app; reflexivity).
    cbn [length] in Hl. lia.
  - apply Nat.ltb_ge in E.
    replace (length (moveHistory g) + 1 - 20)%nat with 0%nat by lia.
    cbn [skipn]. split; [reflexivity|]. rewrite length_app. cbn [length]. lia.
Qed.

(** Once [explorationBonus] has run, the cell of the player is visited. *)
Lemma explorationBonus_visited (g : Game) :
  In (player (explorationBonus g)) (visitedCells (explorationBonus g)).
Proof.
  unfold explorationBonus.
  destruct (existsb (isAt (x (player g)) (y (player g))) (visitedCells g)) eqn:E; cbn [negb].
  - apply existsb_isAt. exact E.
  - game_fields. apply in_or_app. right. left. reflexivity.
Qed.

Lemma recordMove_player (a : string) (g : Game) : player (recordMove a g) = player g.
Proof. unfold recordMove. cbv zeta. destruct (_ <? _)%nat; reflexivity. Qed.

Lemma explorationBonus_player (g : Game) : player (explorationBonus g) = player g.
Proof. unfold explorationBonus. destruct (negb _); reflexivity. Qed.

Lemma reachable_history (K : Constants) (w : World) :
  reachable K w ->
  (length (moveHistory (this w)) <= 20)%nat /\ In (player (this w)) (visitedCells (this w)).
Proof.
  induction 1 as [r r' g Hnew | w w' a result _ IH _ Hstep | w w' s _ _ Hreset].
  - revert Hnew. rewrite newGame_run. cbv zeta.
    destruct (firstFree _ _ 1000); [|discriminate].
    destruct (firstFree _ _ 1000); [|discriminate].
    intros [= <- _]. cbn [this freshGame moveHistory player visitedCells length In].
    split; [lia | auto].
  - destruct IH as (Hlen & _).
    destruct (step_frame K a w w' result Hstep) as (_ & _ & _ & Fp & _ & Fh & Fv & _).
    rewrite Fh, Fv, Fp. split; [apply recordMove_history; exact Hlen|].
    rewrite <- (recordMove_player a (movePlayer a (this w))).
    rewrite <- (explorationBonus_player (recordMove a (movePlayer a (this w)))).
    apply explorationBonus_visited.
  - revert Hreset. rewrite reset_run. cbv zeta.
    destruct (firstFree _ _ 1000); [|discriminate].
    destruct (firstFree _ _ 1000); [|discriminate].
    intros [= _ <-]. game_fields. cbn [length In]. split; [lia | auto].
Qed.

(** The remainder test of [tick] on a positive interval. *)
Lemma remainderIsZero_div (t n : Z) :
  0 <= t -> 0 < n ->
  if remainderIsZero (t + 1) n then (t + 1) / n = t / n + 1 else t / n <= (t + 1) / n.
Proof.
  intros Ht Hn. unfold remainderIsZero.
  destruct (n =? 0) eqn:E0; [apply Z.eqb_eq in E0; lia|].
  destruct (Z.rem (t + 1) n =? 0) eqn:E.
  - apply Z.eqb_eq in E. rewrite Z.rem_mod_nonneg in E by lia.
    pose proof (Z.div_mod (t + 1) n ltac:(lia)) as Hd. rewrite E in Hd.
    pose proof (Z.mul_div_le t n Hn) as Hle.
    pose proof (Z.mul_succ_div_gt t n Hn) as Hgt.
    assert (H1 : t / n < (t + 1) / n) by nia.
    assert (H2 : (t + 1) / n <= t / n + 1) by nia.
    lia.
  - apply Z.div_le_mono; lia.
Qed.

Lemma reachable_blocks (K : Constants) (w : World) :
  0 < TICK_SPAWN_INTERVAL K -> reachable K w ->
  0 <= tickCount (this w) /\
  Z.of_nat (length (redBlocks (this w))) <= tickCount (this w) / TICK_SPAWN_INTERVAL K /\
  Z.of_nat (length (greenBlocks (this w))) <= tickCount (this w) / TICK_SPAWN_INTERVAL K.
Proof.
  intros Hn.
  induction 1 as [r r' g Hnew | w w' a result _ IH _ Hstep | w w' s _ _ Hreset].
  - revert Hnew. rewrite newGame_run. cbv zeta.
    destruct (firstFree _ _ 1000); [|discriminate].
    destruct (firstFree _ _ 1000); [|discriminate].
    intros [= <- _]. cbn [this freshGame tickCount redBlocks greenBlocks length].
    rewrite Z.div_0_l by lia. simpl. lia.
  - destruct IH as (Ht & Hr & Hg).
    destruct (step_returns K a w w' result Hstep) as (w2 & Hc & Htick & _).
    destruct (checkCollisions_frame _ _ Hc) as (Hpf & _ & _ & Hrl & Hgl & _).
    destruct (tick_frame K _ _ Htick) as (Hpf2 & _ & _ & _ & _ & _ & _ & Hblocks).
    pose proof (shaped_sameItems a (this w)) as Hs. unfold sameItems in Hs.
    destruct Hs as (_ & _ & St & _ & _ & _ & Sr & Sg & _).
    assert (Mt : tickCount (movePlayer a (this w)) = tickCount (this w) /\
                 redBlocks (movePlayer a (this w)) = redBlocks (this w) /\
                 greenBlocks (movePlayer a (this w)) = greenBlocks (this w))
      by (destruct (movePlayer_effect a (this w)) as [-> | (_ & -> & _)]; auto).
    destruct Mt as (Mt & Mr & Mg).
    unfold samePlayfield in Hpf, Hpf2. cbn [this rng] in *. game_fields.
    destruct Hpf as (_ & _ & Pt & _). destruct Hpf2 as (_ & _ & Tt & _).
    assert (Et : tickCount (this w2) = tickCount (this w)) by congruence.
    rewrite Sr, Mr in Hrl. rewrite Sg, Mg in Hgl.
    rewrite Tt, Et. rewrite Et in Hblocks.
    pose proof (remainderIsZero_div (tickCount (this w)) (TICK_SPAWN_INTERVAL K) Ht Hn) as Hd.
    destruct (remainderIsZero _ _).
    + destruct Hblocks as (k & k2 & -> & ->). rewrite !length_app. cbn [length]. lia.
    + destruct Hblocks as (-> & -> & _). lia.
  - revert Hreset. rewrite reset_run. cbv zeta.
    destruct (firstFree _ _ 1000); [|discriminate].
    destruct (firstFree _ _ 1000); [|discriminate].
    intros [= _ <-]. game_fields. cbn [length]. rewrite Z.div_0_l by lia. simpl. lia.
Qed.

End LayoutFacts.

(** ** Grid environment: what a step picks up *)

Section OnePickupFacts.
Import Js Grid Layout.
Local Open Scope Z_scope.

Lemma filter_under_In (p : Pos) (l : list Pos) : filter (under p) l <> [] <-> In p l.
Proof.
  split.
  - destruct (filter (under p) l) as [|b rest] eqn:E; [intros H; contradiction H; reflexivity|].
    intros _. assert (Hb : In b (filter (under p) l)) by (rewrite E; left; reflexivity).
    apply filter_In in Hb. destruct Hb as [Hb Hu]. apply under_eq in Hu. subst b. exact Hb.
  - intros Hin E. assert (Hp : In p (filter (under p) l)).
    { apply filter_In. split; [exact Hin | apply under_eq; reflexivity]. }
    rewrite E in Hp. destruct Hp.
Qed.

(** With the items apart, the two loops of [checkCollisions] pick up one
    block at most: the green or the red one the player stands on. *)
Lemma blocksPicked_counts (w1 w' : World) :
  NoDup (redBlocks (this w1) ++ greenBlocks (this w1)) ->
  blocksPicked w1 w' ->
  exists G R : nat,
    (G + R <= 1)%nat /\
    (G = 1%nat <-> In (player (this w1)) (greenBlocks (this w1))) /\
    (R = 1%nat <-> In (player (this w1)) (redBlocks (this w1))) /\
    foodEaten (this w') = foodEaten (this w1) /\
    greenBlocksEaten (this w') = greenBlocksEaten (this w1) + Z.of_nat G /\
    redBlocksEaten (this w') = redBlocksEaten (this w1) + Z.of_nat R.
Proof.
  intros Hnd (_ & Hfe & Hge & Hre & _).
  set (p := player (this w1)) in *.
  set (G := length (filter (under p) (greenBlocks (this w1)))) in *.
  set (reds1 := fst (dropRandomReds G (redBlocks (this w1)) (rng w1))) in *.
  set (R := length (filter (under p) reds1)) in *.
  destruct (dropRandomReds_sub G (redBlocks (this w1)) (rng w1)) as (Hincl & Hnd1 & _ & _).
  fold reds1 in Hincl, Hnd1.
  assert (HG : (G <= 1)%nat)
    by (apply at_most_one_under; apply NoDup_app_remove_l in Hnd; exact Hnd).
  assert (HR : (R <= 1)%nat)
    by (apply at_most_one_under, Hnd1; apply NoDup_app_remove_r in Hnd; exact Hnd).
  assert (HGin : G <> 0%nat <-> In p (greenBlocks (this w1))).
  { rewrite <- filter_under_In. unfold G.
    destruct (filter (under p) (greenBlocks (this w1))); cbn [length];
      split; intros H; try discriminate; try congruence; try lia. }
  assert (Hapart : In p (redBlocks (this w1)) -> In p (greenBlocks (this w1)) -> False).
  { intros Hr Hg. apply in_split in Hr. destruct Hr as (l1 & l2 & El). rewrite El in Hnd.
    rewrite <- app_assoc in Hnd. cbn [app] in Hnd. apply NoDup_remove_2 in Hnd.
    apply Hnd. apply in_or_app. right. apply in_or_app. right. exact Hg. }
  assert (HRin : R <> 0%nat <-> In p (redBlocks (this w1))).
  { split.
    - intros H. apply Hincl. apply filter_under_In. unfold R in H.
      destruct (filter (under p) reds1); [contradiction H; reflexivity | discriminate].
    - intros Hin H.
      assert (HG0 : G = 0%nat).
      { destruct (Nat.eq_dec G 0) as [E | E]; [exact E|]. exfalso.
        apply (Hapart Hin). apply HGin. exact E. }
      assert (E1 : reds1 = redBlocks (this w1)) by (unfold reds1; rewrite HG0; reflexivity).
      apply (proj2 (filter_under_In p (redBlocks (this w1))) Hin).
      unfold R in H. rewrite E1 in H.
      destruct (filter (under p) (redBlocks (this w1))); [reflexivity | discriminate]. }
  exists G, R. split; [|split; [|split; [|auto]]].
  - destruct (Nat.eq_dec G 0) as [-> | HG0]; [lia|].
    destruct (Nat.eq_dec R 0) as [-> | HR0]; [lia|]. exfalso.
    apply Hapart; [apply HRin; exact HR0 | apply HGin; exact HG0].
  - rewrite <- HGin. lia.
  - rewrite <- HRin. lia.
Qed.

(** A call of [step] that returns, from well placed pieces: the numbers F,
    G and R of food, green and red pickups, [arrival] being the cell of the
    player once it has moved, or stayed. *)
Lemma step_pickups (K : Constants) (a : string) (w w' : World) (result : StepResult) :
  wellPlaced (this w) -> step K a w = (Return result, w') ->
  let g := this w in
  let g' := this w' in
  let arrival := player (movePlayer a g) in
  exists F G R : nat,
    (F + G + R <= 1)%nat /\
    (F = 1%nat <-> arrival = food g) /\
    (G = 1%nat <-> In arrival (greenBlocks g)) /\
    (R = 1%nat <-> In arrival (redBlocks g)) /\
    foodEaten g' = foodEaten g + Z.of_nat F /\
    greenBlocksEaten g' = greenBlocksEaten g + Z.of_nat G /\
    redBlocksEaten g' = redBlocksEaten g + Z.of_nat R.
Proof.
  cbv zeta. intros Hwp Hstep.
  destruct (step_returns K a w w' result Hstep) as (w2 & Hc & Ht & _).
  pose proof (shaped_itemsApart a (this w) Hwp) as Hap.
  pose proof (shaped_sameItems a (this w)) as Hs. unfold sameItems in Hs.
  destruct Hs as (_ & _ & _ & _ & Sp & Sf & Sr & Sg & Sfe & Sre & Sge).
  assert (Hm : food (movePlayer a (this w)) = food (this w) /\
               redBlocks (movePlayer a (this w)) = redBlocks (this w) /\
               greenBlocks (movePlayer a (this w)) = greenBlocks (this w) /\
               foodEaten (movePlayer a (this w)) = foodEaten (this w) /\
               redBlocksEaten (movePlayer a (this w)) = redBlocksEaten (this w) /\
               greenBlocksEaten (movePlayer a (this w)) = greenBlocksEaten (this w))
    by (destruct (movePlayer_effect a (this w)) as [-> | (_ & -> & _)]; repeat split).
  destruct Hm as (Mf & Mr & Mg & Mfe & Mre & Mge).
  destruct (tick_frame K w2 w' Ht) as (_ & _ & _ & Tfe & Tre & Tge & _).
  destruct (checkCollisions_returns _ _ Hc) as (w1 & Hw1 & Hnot & Hpick).
  cbn [this rng] in Hw1.
  set (wm := {| this := shaped a (this w); rng := rng w |}) in *.
  destruct Hap as (Hnd & Hobs & Hpo). unfold items in Hnd.
  inversion Hnd as [|? ? Hfood_out Hnd_blocks]; subst.
  destruct Hw1 as [(Hfood & ->) | (Hfood & k & Hk & ->)].
  - destruct (blocksPicked_counts wm w2 Hnd_blocks Hpick)
      as (G & R & HGR & HG & HR & Hfe & Hge & Hre).
    unfold wm in *. cbn [this] in *.
    rewrite Sp, Sg, Mg in HG. rewrite Sp, Sr, Mr in HR.
    exists 0%nat, G, R. split; [lia|]. split.
    + split; [discriminate|]. intros E. exfalso.
      rewrite <- Sp, <- Mf, <- Sf in E. apply under_eq in E. congruence.
    + split; [exact HG|]. split; [exact HR|].
      split; [cbn [Z.of_nat]; lia|]. split; lia.
  - assert (Epf : player (shaped a (this w)) = food (shaped a (this w)))
      by (apply under_eq; exact Hfood).
    assert (Hout : ~ In (player (this (relocated wm k)))
                        (redBlocks (this (relocated wm k)) ++ greenBlocks (this (relocated wm k)))).
    { unfold relocated, wm. cbn [this]. game_fields. rewrite Epf. exact Hfood_out. }
    assert (Hnd' : NoDup (redBlocks (this (relocated wm k)) ++ greenBlocks (this (relocated wm k))))
      by exact Hnd_blocks.
    destruct (blocksPicked_counts (relocated wm k) w2 Hnd' Hpick)
      as (G & R & HGR & HG & HR & Hfe & Hge & Hre).
    assert (HG0 : G = 0%nat).
    { destruct (Nat.eq_dec G 1) as [E | E]; [|lia].
      exfalso. apply Hout. apply in_or_app. right. apply HG. exact E. }
    assert (HR0 : R = 0%nat).
    { destruct (Nat.eq_dec R 1) as [E | E]; [|lia].
      exfalso. apply Hout. apply in_or_app. left. apply HR. exact E. }
    subst G R.
    unfold relocated, wm in Hfe, Hge, Hre, Hout. cbn [this] in Hfe, Hge, Hre, Hout. game_fields.
    rewrite Sr, Sg, Sp, Mr, Mg in Hout.
    exists 1%nat, 0%nat, 0%nat. split; [lia|]. split.
    + split; [intros _; congruence | reflexivity].
    + split; [split; [discriminate|]; intros Hin; exfalso; apply Hout;
              apply in_or_app; right; exact Hin|].
      split; [split; [discriminate|]; intros Hin; exfalso; apply Hout;
              apply in_or_app; left; exact Hin|].
      split; [cbn [Z.of_nat]; lia|]. split; cbn [Z.of_nat]; lia.
Qed.

(** X7. In a step from well placed pieces that returns, at most one item is
    picked up, the one on the cell the player arrives on: the food when that
    cell is the food's, a green block when it holds one, a red block when it
    holds one. A step whose move is rejected picks up nothing. *)
Theorem step_one_pickup (K : Constants) (a : string) (w w' : World) (result : StepResult) :
  wellPlaced (this w) -> step K a w = (Return result, w') ->
  let g := this w in
  let g' := this w' in
  let arrival := player (movePlayer a g) in
  let F := foodEaten g' - foodEaten g in
  let G := greenBlocksEaten g' - greenBlocksEaten g in
  let R := redBlocksEaten g' - redBlocksEaten g in
  0 <= F /\ 0 <= G /\ 0 <= R /\ F + G + R <= 1 /\
  (F = 1 <-> arrival = food g) /\
  (G = 1 <-> In arrival (greenBlocks g)) /\
  (R = 1 <-> In arrival (redBlocks g)) /\
  (arrival = player g -> F + G + R = 0).
Proof.
  cbv zeta. intros Hwp Hstep.
  destruct (step_pickups K a w w' result Hwp Hstep)
    as (F & G & R & Hsum & HF & HG & HR & Hfe & Hge & Hre).
  cbv zeta in HF, HG, HR.
  rewrite Hfe, Hge, Hre.
  replace (foodEaten (this w) + Z.of_nat F - foodEaten (this w)) with (Z.of_nat F) by lia.
  replace (greenBlocksEaten (this w) + Z.of_nat G - greenBlocksEaten (this w))
    with (Z.of_nat G) by lia.
  replace (redBlocksEaten (this w) + Z.of_nat R - redBlocksEaten (this w))
    with (Z.of_nat R) by lia.
  split; [lia|]. split; [lia|]. split; [lia|]. split; [lia|].
  split; [rewrite <- HF; lia|]. split; [rewrite <- HG; lia|]. split; [rewrite <- HR; lia|].
  intros Hstay. destruct Hwp as (_ & Hpi). unfold items in Hpi.
  assert (F <> 1%nat).
  { intros E. apply Hpi. left. symmetry. rewrite <- Hstay. apply HF. exact E. }
  assert (G <> 1%nat).
  { intros E. apply Hpi. right. apply in_or_app. right. rewrite <- Hstay. apply HG. exact E. }
  assert (R <> 1%nat).
  { intros E. apply Hpi. right. apply in_or_app. left. rewrite <- Hstay. apply HR. exact E. }
  lia.
Qed.

End OnePickupFacts.

(** ** Grid environment: invariants of the worlds a program can be in *)

Section ReachableFacts.
Import Js Grid Layout Samples.
Local Open Scope Z_scope.

(** The world the constructor yields from the draws of [idleDraws]. *)
Lemma idleStart_reachable (n : Z) :
  reachable (board20x15 n)
    {| this := gameOn {| x := 0; y := 0 |} {| x := 1; y := 0 |} [];
       rng := advance (rngOf idleDraws) 4 |}.
Proof. apply (reachable_new (board20x15 n) (rngOf idleDraws)). vm_compute. reflexivity. Qed.

Lemma idleDraws_fair (n : nat) : fairDraws (advance (rngOf idleDraws) n).
Proof.
  intros i. cbn [entropy advance rngOf].
  do 4 (destruct i as [|i]; [cbn [nth idleDraws]; split; [discriminate | reflexivity]|]).
  cbn [nth idleDraws]. destruct i; split; try discriminate; reflexivity.
Qed.

(** The sample game of the examples has its pieces well placed on the board. *)
Lemma sample_wellPlaced : wellPlaced (gameOn {| x := 0; y := 0 |} {| x := 1; y := 0 |} []).
Proof.
  apply (newGame_wellPlaced (board20x15 50) (rngOf idleDraws) (advance (rngOf idleDraws) 4)).
  vm_compute. reflexivity.
Qed.

Lemma sample_onBoard : allOnBoard (gameOn {| x := 0; y := 0 |} {| x := 1; y := 0 |} []).
Proof.
  unfold allOnBoard, items. split; [reflexivity|].
  constructor; [reflexivity | constructor].
Qed.

(** X2. The pieces of a world a program can be in, with draws in [0,1) on a
    board of positive size, are all on the board, whose size and obstacles
    are those the constructor laid out. *)
Theorem reachable_on_board (K : Constants) (w : World) :
  reachable K w -> fairDraws (rng w) -> 0 < BOARD_WIDTH K -> 0 < BOARD_HEIGHT K ->
  allOnBoard (this w) /\
  width (this w) = BOARD_WIDTH K /\ height (this w) = BOARD_HEIGHT K /\
  obstacles (this w) = distinctCells (crossObstacles (BOARD_WIDTH K) (BOARD_HEIGHT K)) [].
Proof.
  intros Hr Hfair HW HH. destruct (reachable_board K w Hr) as (Hw & Hh & Ho & Hb).
  auto.
Qed.

Lemma reachable_on_board_witness :
  allOnBoard (gameOn {| x := 0; y := 0 |} {| x := 1; y := 0 |} []).
Proof.
  apply (reachable_on_board (board20x15 50) _ (idleStart_reachable 50)).
  - apply idleDraws_fair.
  - reflexivity.
  - reflexivity.
Defined.

(** X3. The move history of a world a program can be in has at most 20
    entries, and a step that returns leaves the last 20 of the history with
    the action appended. *)
Theorem reachable_history_capped (K : Constants) (w : World) :
  reachable K w ->
  (length (moveHistory (this w)) <= 20)%nat /\
  forall a result w',
    step K a w = (Return result, w') ->
    moveHistory (this w') = lastn 20 (moveHistory (this w) ++ [a]).
Proof.
  intros Hr. destruct (reachable_history K w Hr) as (Hlen & _).
  split; [exact Hlen|]. intros a result w' Hstep.
  destruct (step_frame K a w w' result Hstep) as (_ & _ & _ & _ & _ & Fh & _).
  rewrite Fh. apply recordMove_history. exact Hlen.
Qed.

Lemma reachable_history_capped_witness :
  (length (moveHistory (gameOn {| x := 0; y := 0 |} {| x := 1; y := 0 |} [])) <= 20)%nat.
Proof.
  apply (reachable_history_capped (board20x15 50) _ (idleStart_reachable 50)).
Defined.

(** The marks [step] leaves: those of the game, and the cell the player
    is on after the move when it had none; the bonus comes with a new mark
    only. *)
Lemma explorationBonus_cells (g : Game) :
  (In (player g) (visitedCells g) -> explorationBonus g = g) /\
  (~ In (player g) (visitedCells g) ->
   visitedCells (explorationBonus g) = visitedCells g ++ [player g]).
Proof.
  unfold explorationBonus.
  destruct (existsb (isAt (x (player g)) (y (player g))) (visitedCells g)) eqn:E; cbn [negb].
  - split; [reflexivity|]. intros H. exfalso. apply H. apply existsb_isAt. exact E.
  - split; [|intros _; reflexivity].
    intros H. apply existsb_isAt in H. congruence.
Qed.

Lemma moved_visitedCells (a : string) (g : Game) :
  visitedCells (recordMove a (movePlayer a g)) = visitedCells g /\
  player (recordMove a (movePlayer a g)) = player (movePlayer a g).
Proof.
  split; [|apply recordMove_player].
  assert (E : visitedCells (movePlayer a g) = visitedCells g)
    by (destruct (movePlayer_effect a g) as [-> | (_ & -> & _)]; reflexivity).
  rewrite <- E. unfold recordMove. cbv zeta. destruct (_ <? _)%nat; reflexivity.
Qed.

Lemma step_visitedCells (K : Constants) (a : string) (w w' : World) (result : StepResult) :
  step K a w = (Return result, w') ->
  let g := this w in
  let g' := this w' in
  (In (player g') (visitedCells g) ->
   visitedCells g' = visitedCells g /\
   explorationBonus (recordMove a (movePlayer a g)) = recordMove a (movePlayer a g)) /\
  (~ In (player g') (visitedCells g) -> visitedCells g' = visitedCells g ++ [player g']).
Proof.
  cbv zeta. intros Hstep.
  destruct (step_frame K a w w' result Hstep) as (_ & _ & _ & Fp & _ & _ & Fv & _).
  destruct (moved_visitedCells a (this w)) as (Ev & Ep).
  destruct (explorationBonus_cells (recordMove a (movePlayer a (this w)))) as (Hin & Hout).
  rewrite Ev, Ep, <- Fp in Hin, Hout. rewrite Fv.
  split.
  - intros H. specialize (Hin H). rewrite Hin. split; [exact Ev | reflexivity].
  - intros H. exact (Hout H).
Qed.

Lemma reachable_visited_once (K : Constants) (w : World) :
  reachable K w -> NoDup (visitedCells (this w)).
Proof.
  induction 1 as [r r' g Hnew | w w' a result _ IH _ Hstep | w w' s _ _ Hreset].
  - revert Hnew. rewrite newGame_run. cbv zeta.
    destruct (firstFree _ _ 1000); [|discriminate].
    destruct (firstFree _ _ 1000); [|discriminate].
    intros [= <- _]. cbn [this freshGame visitedCells].
    constructor; [intros []|constructor].
  - destruct (step_visitedCells K a w w' result Hstep) as (Hin & Hout). cbv zeta in Hin, Hout.
    destruct (in_dec Pos_eq_dec (player (this w')) (visitedCells (this w))) as [H | H].
    + rewrite (proj1 (Hin H)). exact IH.
    + rewrite (Hout H). apply NoDup_app; [exact IH | constructor; [intros []|constructor]|].
      intros c Hc [<- | []]. exact (H Hc).
  - revert Hreset. rewrite reset_run. cbv zeta.
    destruct (firstFree _ _ 1000); [|discriminate].
    destruct (firstFree _ _ 1000); [|discriminate].
    intros [= _ <-]. game_fields. constructor; [intros []|constructor].
Qed.

(** X4. In a world reached by calls that return, the cell of the player is
    marked as visited and no cell is marked twice. A step that returns marks
    the cell the player is then on when it had no mark, and no other cell; a
    step whose move is rejected marks nothing, and the exploration bonus,
    which comes with a new mark only, is then not added. *)
Theorem reachable_player_visited (K : Constants) (w : World) :
  reachable K w ->
  let g := this w in
  In (player g) (visitedCells g) /\ NoDup (visitedCells g) /\
  forall a result w',
    step K a w = (Return result, w') ->
    let g' := this w' in
    (In (player g') (visitedCells g) -> visitedCells g' = visitedCells g) /\
    (~ In (player g') (visitedCells g) -> visitedCells g' = visitedCells g ++ [player g']) /\
    (player g' = player g ->
     visitedCells g' = visitedCells g /\
     explorationBonus (recordMove a (movePlayer a g)) = recordMove a (movePlayer a g)).
Proof.
  intros Hr. cbv zeta. destruct (reachable_history K w Hr) as (_ & Hv).
  split; [exact Hv|]. split; [exact (reachable_visited_once K w Hr)|].
  intros a result w' Hstep.
  destruct (step_visitedCells K a w w' result Hstep) as (Hin & Hout). cbv zeta in Hin, Hout.
  split; [intros H; apply Hin; exact H|]. split; [exact Hout|].
  intros Hsame. apply Hin. rewrite Hsame. exact Hv.
Qed.

Lemma reachable_player_visited_witness :
  In {| x := 0; y := 0 |}
     (visitedCells (gameOn {| x := 0; y := 0 |} {| x := 1; y := 0 |} [])).
Proof.
  apply (reachable_player_visited (board20x15 50) _ (idleStart_reachable 50)).
Defined.

(** X5. With a positive spawn interval, the board of a world a program can be
    in never holds more red blocks, nor more green blocks, than pairs have
    been spawned since the last reset: the tick count divided by the
    interval. *)
Theorem reachable_blocks_bounded (K : Constants) (w : World) :
  0 < TICK_SPAWN_INTERVAL K -> reachable K w ->
  0 <= tickCount (this w) /\
  Z.of_nat (length (redBlocks (this w))) <= tickCount (this w) / TICK_SPAWN_INTERVAL K /\
  Z.of_nat (length (greenBlocks (this w))) <= tickCount (this w) / TICK_SPAWN_INTERVAL K.
Proof. apply reachable_blocks. Qed.

Lemma reachable_blocks_bounded_witness :
  Z.of_nat (length (redBlocks (gameOn {| x := 0; y := 0 |} {| x := 1; y := 0 |} []))) <= 0 / 50.
Proof.
  apply (reachable_blocks_bounded (board20x15 50) _ eq_refl (idleStart_reachable 50)).
Defined.

Lemma reachable_wellPlaced_witness :
  wellPlaced (gameOn {| x := 0; y := 0 |} {| x := 1; y := 0 |} []).
Proof.
  apply (reachable_wellPlaced (board20x15 50) _ (idleStart_reachable 50)).
Defined.

End ReachableFacts.

(** ** Grid environment: reset, spawns and failing pickups *)

Section OutcomeFacts.
Import Js Grid Layout Samples.
Local Open Scope Z_scope.

(** X8. A call of [reset] that returns has zeroed the tick count and the
    score, emptied the blocks and the move history, and marked the cell of
    the player as the only visited one; the size of the board, the obstacles,
    the three pickup counters and the two penalty counters are as they were.
    The player is on a cell that was free, so neither where it was nor where
    the food or a block lay; the food is on a cell other than its old one and
    that of the player. *)
Theorem reset_effect (w w' : World) (s : GameState) :
  reset w = (Return s, w') ->
  let g := this w in
  let g' := this w' in
  (tickCount g' = 0 /\ score g' = 0%Q /\ redBlocks g' = [] /\ greenBlocks g' = [] /\
   moveHistory g' = [] /\ visitedCells g' = [player g']) /\
  (width g' = width g /\ height g' = height g /\ obstacles g' = obstacles g /\
   foodEaten g' = foodEaten g /\ redBlocksEaten g' = redBlocksEaten g /\
   greenBlocksEaten g' = greenBlocksEaten g /\
   cyclePenaltyCount g' = cyclePenaltyCount g /\ wallPenaltyCount g' = wallPenaltyCount g) /\
  (player g' <> player g /\ ~ In (player g') (items g) /\ ~ In (player g') (obstacles g)) /\
  (food g' <> food g /\ food g' <> player g' /\ ~ In (food g') (obstacles g)) /\
  s = getState g'.
Proof.
  rewrite reset_run. cbv zeta.
  destruct (firstFree (occupiedIn (this w)) _ 1000) as [k|] eqn:E1; [|discriminate].
  match goal with
  | |- context [firstFree ?o ?c 1000] => destruct (firstFree o c 1000) as [k2|] eqn:E2
  end; [|discriminate].
  intros [= <- <-]. cbn [this].
  apply firstFree_some in E1, E2.
  destruct E1 as (_ & F1 & _), E2 as (_ & F2 & _).
  apply occupiedIn_false in F1.
  unfold occupiedIn in F2. apply isOccupied_false in F2.
  destruct F1 as (P1 & P2 & P3), F2 as (Q1 & Q2 & Q3 & _).
  game_fields.
  set (p := drawnCell (width (this w)) (height (this w)) (rng w) k) in *.
  set (f := drawnCell (width (this w)) (height (this w)) _ k2) in *.
  split; [repeat split|]. split; [repeat split|].
  split; [auto|]. split; [|reflexivity].
  split; [|split].
  - intros E. rewrite <- E in Q2. rewrite (proj2 (isAt_eq _ _) eq_refl) in Q2. discriminate.
  - intros E. rewrite <- E in Q1. rewrite (proj2 (isAt_eq _ _) eq_refl) in Q1. discriminate.
  - apply existsb_isAt_false. exact Q3.
Qed.

Lemma reset_effect_witness :
  exists s w',
    reset (startWorld twoCells) = (Return s, w') /\
    player (this w') = {| x := 2; y := 0 |} /\ food (this w') = {| x := 3; y := 0 |} /\
    tickCount (this w') = 0.
Proof.
  destruct (reset (startWorld twoCells)) as [[s|e] w'] eqn:E.
  - exists s, w'. split; [reflexivity|].
    pose proof (reset_effect (startWorld twoCells) w' s E) as H. cbv zeta in H.
    destruct H as ((Ht & _) & _).
    vm_compute in E. injection E as _ <-. repeat split.
  - vm_compute in E. discriminate.
Defined.

(** X9. [spawnBonusPair] places the red block, pushes it, then places the green
    one: when it returns, one block has been pushed at the end of each list,
    each on a cell that was free, the two on different cells, and nothing
    else is written. It throws nothing but the board-full error, and is not
    atomic: when the second placement fails, the red block stays on the
    board without its green one, as happens when every draw scales to the
    same free cell. *)
Theorem spawnBonusPair_outcome (w : World) :
  let g := this w in
  match spawnBonusPair w with
  | (Return _, w') =>
      exists redPos greenPos,
        this w' = set_greenBlocks (set_redBlocks g (redBlocks g ++ [redPos]))
                                  (greenBlocks g ++ [greenPos]) /\
        occupiedIn g (x redPos) (y redPos) = false /\
        occupiedIn g (x greenPos) (y greenPos) = false /\
        redPos <> greenPos
  | (Throw e, w') =>
      e = boardFull /\
      (this w' = g \/
       exists redPos,
         occupiedIn g (x redPos) (y redPos) = false /\
         this w' = set_redBlocks g (redBlocks g ++ [redPos]))
  end /\
  (exists w0 w', spawnBonusPair w0 = (Throw boardFull, w') /\
                 redBlocks (this w') = redBlocks (this w0) ++ [{| x := 2; y := 1 |}] /\
                 greenBlocks (this w') = greenBlocks (this w0)).
Proof.
  cbv zeta. split.
  - rewrite spawnBonusPair_run. cbv zeta.
    destruct (firstFree (occupiedIn (this w)) _ 1000) as [k|] eqn:E1;
      [|split; [reflexivity | left; reflexivity]].
    match goal with
    | |- context [firstFree ?o ?c 1000] => destruct (firstFree o c 1000) as [k2|] eqn:E2
    end.
    + apply firstFree_some in E1, E2.
      destruct E1 as (_ & F1 & _), E2 as (_ & F2 & _).
      do 2 eexists. split; [reflexivity|]. split; [exact F1|].
      apply occupiedIn_false in F2. destruct F2 as (Q1 & Q2 & Q3).
      split.
      * apply occupiedIn_false. unfold items in *. game_fields.
        split; [exact Q1|]. split; [|exact Q3].
        intros Hin. apply Q2. cbn [In] in *. rewrite !in_app_iff in *. cbn [In]. tauto.
      * intros E. apply Q2. unfold items. game_fields. right.
        apply in_or_app. left. apply in_or_app. right. left. exact E.
    + apply firstFree_some in E1. destruct E1 as (_ & F1 & _).
      split; [reflexivity|]. right. eexists. split; [exact F1 | reflexivity].
  - exists {| this := gameOn {| x := 0; y := 0 |} {| x := 1; y := 0 |} [];
              rng := constantRng (1 # 10) |}.
    eexists. split; [vm_compute; reflexivity|]. split; reflexivity.
Qed.

(** X10. [checkCollisions] throws exactly when the player stands on the food and
    the 1000 cells drawn for it are occupied; it throws the board-full error
    and nothing else, having added 40 to the score and counted the pickup,
    with the food still under the player and no block touched. With the
    player off the food it always returns. *)
Theorem checkCollisions_throws (w : World) :
  let g := this w in
  let cell := drawnCell (width g) (height g) (rng w) in
  (fst (checkCollisions w) = Throw boardFull <->
   under (player g) (food g) = true /\
   forall k, (k < 1000)%nat -> occupiedIn g (x (cell k)) (y (cell k)) = true) /\
  (forall e, fst (checkCollisions w) = Throw e ->
     e = boardFull /\
     snd (checkCollisions w) =
     {| this := set_foodEaten (addScore 40 g) (foodEaten g + 1);
        rng := advance (rng w) 2002 |}) /\
  (under (player g) (food g) = false -> exists w', checkCollisions w = (Return tt, w')).
Proof.
  cbv zeta.
  destruct (under (player (this w)) (food (this w))) eqn:Hfood.
  - rewrite (checkCollisions_food w Hfood).
    destruct (firstFree (occupiedIn (this w)) _ 1000) as [k|] eqn:Hk.
    + assert (Hfree := Hk). apply firstFree_some in Hfree.
      destruct Hfree as (Hlt & Hfree & _).
      assert (Hnot : under (player (this (relocated w k))) (food (this (relocated w k))) = false).
      { unfold occupiedIn in Hfree. apply isOccupied_false in Hfree. apply Hfree. }
      destruct (checkCollisions_blocks (relocated w k) Hnot) as (w' & Hrun & _).
      rewrite Hrun. cbn [fst snd].
      split; [split; [discriminate|]|split; [discriminate | discriminate]].
      intros (_ & Hall). rewrite (Hall k Hlt) in Hfree. discriminate.
    + cbn [fst snd]. split; [split; [intros _|reflexivity]|].
      * split; [reflexivity|]. apply firstFree_none. exact Hk.
      * split; [intros e [= <-]; auto | discriminate].
  - destruct (checkCollisions_blocks w Hfood) as (w' & Hrun & _).
    rewrite Hrun. cbn [fst snd].
    split; [split; [discriminate | intros (H & _); discriminate]|].
    split; [discriminate|]. intros _. exists w'. reflexivity.
Qed.

(** X11. A move that is made from a cell of the board that is no obstacle is
    undone by the move in the opposite direction. *)
Theorem movePlayer_undo (a : string) (g : Game) :
  onBoard g (player g) -> ~ In (player g) (obstacles g) ->
  player (movePlayer a g) <> player g ->
  movePlayer (opposite a) (movePlayer a g) = g.
Proof.
  intros Hb Ho Hmoved.
  destruct (movePlayer_effect a g) as [Hsame | (Ha & Hmv & _)];
    [rewrite Hsame in Hmoved; contradiction|].
  rewrite Hmv.
  assert (Hcase : a = "up"%string \/ a = "down"%string \/ a = "left"%string \/ a = "right"%string)
    by (simpl in Ha; intuition auto).
  apply existsb_isAt_false in Ho. unfold onBoard in Hb.
  destruct g as [W H t sc fe re ge obs reds greens [px py] fd mh cp wp vc].
  unfold movePlayer, opposite, moved, isWithinBounds in *. game_fields. cbn [x y] in *.
  destruct Hcase as [-> | [-> | [-> | ->]]]; cbn [String.eqb Ascii.eqb Bool.eqb];
    cbv zeta; cbn [x y];
    match goal with
    | |- context [existsb (isAt ?cx ?cy) obs] =>
        replace cx with px by lia; replace cy with py by lia
    end; rewrite Hb, Ho; cbn [negb]; unfold set_player; cbn; reflexivity.
Qed.

Lemma movePlayer_undo_witness :
  movePlayer "left" (movePlayer "right" (gameOn {| x := 0; y := 0 |} {| x := 3; y := 3 |} [])) =
  gameOn {| x := 0; y := 0 |} {| x := 3; y := 3 |} [].
Proof.
  apply (movePlayer_undo "right" (gameOn {| x := 0; y := 0 |} {| x := 3; y := 3 |} [])).
  - reflexivity.
  - apply (proj1 (existsb_isAt_false _ _)). reflexivity.
  - vm_compute. discriminate.
Defined.

(** A step to the right from (0,0) onto the food on (1,0), which is placed
    anew on (2,0). *)
Lemma sample_step :
  exists result w',
    step (board20x15 50) "right" (startWorld twoCells) = (Return result, w') /\
    foodEaten (this w') = 1 /\ food (this w') = {| x := 2; y := 0 |}.
Proof.
  destruct (step (board20x15 50) "right" (startWorld twoCells)) as [[result|e] w'] eqn:E.
  - exists result, w'. split; [reflexivity|].
    vm_compute in E. injection E as _ <-. split; reflexivity.
  - vm_compute in E. discriminate.
Qed.

Lemma step_one_pickup_witness :
  exists result w',
    step (board20x15 50) "right" (startWorld twoCells) = (Return result, w') /\
    foodEaten (this w') - foodEaten (this (startWorld twoCells)) = 1.
Proof.
  destruct sample_step as (result & w' & Hstep & _).
  exists result, w'. split; [exact Hstep|].
  pose proof (step_one_pickup (board20x15 50) "right" (startWorld twoCells) w' result
                sample_wellPlaced Hstep) as H.
  cbv zeta in H. destruct H as (_ & _ & _ & _ & Hfood & _).
  apply Hfood. reflexivity.
Defined.

End OutcomeFacts.

(** ** Grid environment: the obstacle layouts on every board *)

Section LayoutOfObstacles.
Import Js Grid Layout Patterns.
Local Open Scope Z_scope.

Lemma range_from (lo hi : Z) (n : nat) :
  hi - lo + 1 = Z.of_nat n -> range lo hi = map (fun i => lo + Z.of_nat i) (seq 0 n).
Proof. intros H. unfold range. rewrite H, Nat2Z.id. reflexivity. Qed.

Lemma range_In (lo hi v : Z) : In v (range lo hi) <-> lo <= v <= hi.
Proof.
  unfold range. rewrite in_map_iff. split.
  - intros (i & <- & Hi). apply in_seq in Hi. lia.
  - intros Hv. exists (Z.to_nat (v - lo)). split; [lia|]. apply in_seq. lia.
Qed.

(** The cells of the cross are those of its two bars. *)
Lemma crossObstacles_In (W H : Z) (c : Pos) :
  In c (crossObstacles W H) <-> inCross {| x := (W - 1) / 2; y := (H - 1) / 2 |} c.
Proof.
  unfold crossObstacles, inCross. cbv zeta. cbn [x y].
  set (cx := (W - 1) / 2). set (cy := (H - 1) / 2).
  rewrite in_app_iff, !in_flat_map.
  split.
  - intros [(v & Hv & Hc) | (v & Hv & Hc)]; apply in_map_iff in Hc;
      destruct Hc as (u & <- & Hu); apply range_In in Hv, Hu; cbn [x y]; lia.
  - destruct c as [px py]. cbn [x y].
    intros [(Hx & Hy) | (Hx & Hy)]; [left; exists py | right; exists px];
      (split; [apply range_In; lia|]); apply in_map_iff;
      [exists px | exists py]; (split; [reflexivity | apply range_In; lia]).
Qed.

Lemma diamondObstacles_In (W H : Z) (c : Pos) :
  In c (diamondObstacles W H) <-> inDiamond {| x := (W - 1) / 2; y := (H - 1) / 2 |} c.
Proof.
  unfold diamondObstacles, inDiamond, diamondRow. cbv zeta. cbn [x y].
  set (cx := (W - 1) / 2). set (cy := (H - 1) / 2).
  rewrite !in_app_iff, !in_map_iff. cbn [In].
  destruct c as [px py]. cbn [x y].
  split.
  - intros [[E | []] | [(u & E & Hu) | [(u & E & Hu) | [(u & E & Hu) | [(u & E & Hu) |
           [(u & E & Hu) | [E | []]]]]]]];
      try (apply range_In in Hu); injection E as <- <-; lia.
  - intros Hd.
    assert (Hy : py = cy - 3 \/ py = cy - 2 \/ py = cy - 1 \/ py = cy \/
                 py = cy + 1 \/ py = cy + 2 \/ py = cy + 3) by lia.
    destruct Hy as [-> | [-> | [-> | [-> | [-> | [-> | ->]]]]]].
    + left. left. f_equal. lia.
    + right. left. exists px. split; [reflexivity | apply range_In; lia].
    + right. right. left. exists px. split; [reflexivity | apply range_In; lia].
    + right. right. right. left. exists px. split; [reflexivity | apply range_In; lia].
    + right. right. right. right. left. exists px. split; [reflexivity | apply range_In; lia].
    + right. right. right. right. right. left. exists px.
      split; [reflexivity | apply range_In; lia].
    + right. right. right. right. right. right. left. f_equal. lia.
Qed.

Lemma crossObstacles_shifted (W H : Z) :
  crossObstacles W H = map (shifted ((W - 1) / 2) ((H - 1) / 2)) (crossObstacles 1 1).
Proof.
  unfold crossObstacles. cbv zeta.
  change ((1 - 1) / 2) with 0.
  set (cx := (W - 1) / 2). set (cy := (H - 1) / 2).
  rewrite (range_from (cy - 4) (cy + 4) 9), (range_from (cx - 4) (cx + 4) 9),
          (range_from (cx - 1) (cx + 1) 3), (range_from (cy - 1) (cy + 1) 3) by lia.
  rewrite (range_from (0 - 4) (0 + 4) 9), (range_from (0 - 1) (0 + 1) 3) by lia.
  cbn [seq map flat_map app].
  unfold shifted. cbn [x y Z.of_nat Pos.of_succ_nat Pos.succ].
  repeat (apply f_equal2; [f_equal; lia|]). reflexivity.
Qed.

Lemma diamondObstacles_shifted (W H : Z) :
  diamondObstacles W H = map (shifted ((W - 1) / 2) ((H - 1) / 2)) (diamondObstacles 1 1).
Proof.
  unfold diamondObstacles, diamondRow. cbv zeta.
  change ((1 - 1) / 2) with 0.
  set (cx := (W - 1) / 2). set (cy := (H - 1) / 2).
  rewrite (range_from (cx - 1) (cx + 1) 3), (range_from (cx - 2) (cx + 2) 5),
          (range_from (cx - 3) (cx + 3) 7) by lia.
  rewrite (range_from (0 - 1) (0 + 1) 3), (range_from (0 - 2) (0 + 2) 5),
          (range_from (0 - 3) (0 + 3) 7) by lia.
  cbn [seq map flat_map app].
  unfold shifted. cbn [x y Z.of_nat Pos.of_succ_nat Pos.succ].
  repeat (apply f_equal2; [f_equal; lia|]). reflexivity.
Qed.

Lemma shifted_injective (dx dy : Z) (a b : Pos) : shifted dx dy a = shifted dx dy b -> a = b.
Proof.
  destruct a as [ax ay], b as [bx b_y]. unfold shifted. cbn [x y].
  intros [= E1 E2]. f_equal; lia.
Qed.

Lemma shifted_In (dx dy : Z) (a : Pos) (l : list Pos) :
  In (shifted dx dy a) (map (shifted dx dy) l) <-> In a l.
Proof.
  rewrite in_map_iff. split.
  - intros (b & E & Hb). apply shifted_injective in E. subst b. exact Hb.
  - intros Ha. exists a. auto.
Qed.

(** Moving a list of cells moves its distinct cells. *)
Lemma nodup_shifted (dx dy : Z) (l : list Pos) :
  nodup Pos_eq_dec (map (shifted dx dy) l) = map (shifted dx dy) (nodup Pos_eq_dec l).
Proof.
  induction l as [|a l IH]; [reflexivity|]. cbn [map nodup].
  destruct (in_dec Pos_eq_dec a l) as [Hin | Hout];
    destruct (in_dec Pos_eq_dec (shifted dx dy a) (map (shifted dx dy) l)) as [Hin' | Hout'].
  - exact IH.
  - exfalso. apply Hout'. apply shifted_In. exact Hin.
  - exfalso. apply Hout. apply (shifted_In dx dy). exact Hin'.
  - cbn [map]. rewrite IH. reflexivity.
Qed.

Lemma distinctCells_shifted (dx dy : Z) (l : list Pos) :
  forall seen,
  distinctCells (map (shifted dx dy) l) (map (shifted dx dy) seen) =
  map (shifted dx dy) (distinctCells l seen).
Proof.
  induction l as [|a l IH]; intros seen; [reflexivity|]. cbn [map distinctCells].
  assert (E : existsb (isAt (x (shifted dx dy a)) (y (shifted dx dy a)))
                      (map (shifted dx dy) seen) =
              existsb (isAt (x a) (y a)) seen).
  { destruct (existsb (isAt (x a) (y a)) seen) eqn:Ea.
    - apply existsb_isAt. apply shifted_In. apply existsb_isAt. exact Ea.
    - apply existsb_isAt_false. rewrite shifted_In. apply existsb_isAt_false. exact Ea. }
  rewrite E. destruct (existsb _ seen); [apply IH|].
  cbn [map]. f_equal. apply (IH (a :: seen)).
Qed.

Lemma distinctCells_In (l : list Pos) :
  forall seen c, In c (distinctCells l seen) <-> In c l /\ ~ In c seen.
Proof.
  induction l as [|a l IH]; intros seen c; cbn [distinctCells In]; [tauto|].
  destruct (existsb (isAt (x a) (y a)) seen) eqn:E.
  - apply existsb_isAt in E. rewrite IH. split; [tauto|].
    intros ([<- | Hc] & Hs); [contradiction | auto].
  - apply existsb_isAt_false in E. cbn [In]. rewrite IH. cbn [In].
    destruct (Pos_eq_dec a c) as [<- | Hne]; [tauto|]. tauto.
Qed.

Lemma distinctCells_NoDup (l : list Pos) :
  forall seen, NoDup (distinctCells l seen).
Proof.
  induction l as [|a l IH]; intros seen; cbn [distinctCells]; [constructor|].
  destruct (existsb (isAt (x a) (y a)) seen); [apply IH|].
  constructor; [|apply IH].
  intros Hin. apply distinctCells_In in Hin. destruct Hin as (_ & Hout).
  apply Hout. left. reflexivity.
Qed.

(** X12. What [setObstaclePattern] stores, on a board of any size. For
    [diamond]: 25 cells, no cell twice, those at most 3 steps from the centre.
    For [none]: nothing. For [normal] and for every other name: the 54
    entries of the two bars of the cross around the centre, which cover 45
    cells. *)
Theorem setObstaclePattern_cells (pattern : string) (g : Game) :
  let cells := obstacles (setObstaclePattern pattern g) in
  (pattern = "diamond"%string ->
   length cells = 25%nat /\ NoDup cells /\ forall c, In c cells <-> inDiamond (center g) c) /\
  (pattern = "none"%string -> cells = []) /\
  (pattern <> "diamond"%string -> pattern <> "none"%string ->
   length cells = 54%nat /\ length (nodup Pos_eq_dec cells) = 45%nat /\
   forall c, In c cells <-> inCross (center g) c) /\
  setObstaclePattern pattern g = set_obstacles g cells.
Proof.
  cbv zeta. unfold setObstaclePattern. cbv zeta. game_fields.
  split; [|split; [|split; [|reflexivity]]].
  - intros ->. cbn [String.eqb Ascii.eqb Bool.eqb].
    split; [rewrite diamondObstacles_shifted, length_map; reflexivity|].
    split; [|intros c; apply diamondObstacles_In].
    rewrite diamondObstacles_shifted.
    rewrite <- (nodup_fixed_point Pos_eq_dec (l := diamondObstacles 1 1))
      by (apply (NoDup_nodup Pos_eq_dec (diamondObstacles 1 1))).
    rewrite <- nodup_shifted. apply NoDup_nodup.
  - intros ->. reflexivity.
  - intros Hd Hn.
    assert (E : (if (pattern =? "normal")%string then crossObstacles (width g) (height g)
                 else if (pattern =? "diamond")%string then diamondObstacles (width g) (height g)
                 else if (pattern =? "none")%string then []
                 else crossObstacles (width g) (height g)) =
                crossObstacles (width g) (height g)).
    { destruct (pattern =? "normal")%string; [reflexivity|].
      destruct (pattern =? "diamond")%string eqn:E1; [apply String.eqb_eq in E1; contradiction|].
      destruct (pattern =? "none")%string eqn:E2; [apply String.eqb_eq in E2; contradiction|].
      reflexivity. }
    rewrite E.
    split; [rewrite crossObstacles_shifted, length_map; reflexivity|].
    split; [|intros c; apply crossObstacles_In].
    rewrite crossObstacles_shifted, nodup_shifted, length_map. reflexivity.
Qed.

(** The obstacles of the constructor, on a board of any size: the 45 cells
    of the cross, each once. *)
Lemma constructor_obstacles (W H : Z) :
  let cells := distinctCells (crossObstacles W H) [] in
  length cells = 45%nat /\ NoDup cells /\
  forall c, In c cells <-> In c (crossObstacles W H).
Proof.
  cbv zeta. split; [|split].
  - rewrite crossObstacles_shifted.
    rewrite (distinctCells_shifted _ _ (crossObstacles 1 1) []), length_map. reflexivity.
  - apply distinctCells_NoDup.
  - intros c. rewrite distinctCells_In. cbn [In]. tauto.
Qed.

(** X13. The obstacles lie on the board exactly when the board is large enough
    for them: 9 by 9 for the cross, 7 by 7 for the diamond. *)
Theorem obstacles_on_board (g : Game) :
  (Forall (onBoard g) (crossObstacles (width g) (height g)) <->
   9 <= width g /\ 9 <= height g) /\
  (Forall (onBoard g) (diamondObstacles (width g) (height g)) <->
   7 <= width g /\ 7 <= height g).
Proof.
  rewrite !Forall_forall. unfold onBoard, isWithinBounds.
  set (cx := (width g - 1) / 2). set (cy := (height g - 1) / 2).
  assert (Hb : forall c, (0 <=? x c) && (x c <? width g) && (0 <=? y c) && (y c <? height g) = true
                         <-> 0 <= x c < width g /\ 0 <= y c < height g).
  { intros c. rewrite !andb_true_iff, !Z.leb_le, !Z.ltb_lt. tauto. }
  assert (Cross : forall dx dy, Z.abs dx <= 4 /\ Z.abs dy <= 1 \/ Z.abs dx <= 1 /\ Z.abs dy <= 4 ->
                  In {| x := cx + dx; y := cy + dy |} (crossObstacles (width g) (height g))).
  { intros dx dy Hd. apply crossObstacles_In. unfold inCross. cbn [x y]. fold cx cy. lia. }
  assert (Diamond : forall dx dy, Z.abs dx + Z.abs dy <= 3 ->
                    In {| x := cx + dx; y := cy + dy |} (diamondObstacles (width g) (height g))).
  { intros dx dy Hd. apply diamondObstacles_In. unfold inDiamond. cbn [x y]. fold cx cy. lia. }
  split; split.
  - intros Hall.
    pose proof (proj1 (Hb _) (Hall _ (Cross (-4) 0 ltac:(lia)))) as H1.
    pose proof (proj1 (Hb _) (Hall _ (Cross 0 (-4) ltac:(lia)))) as H2.
    cbn [x y] in H1, H2. unfold cx, cy in *. clear Hb Cross Diamond.
    Z.div_mod_to_equations. lia.
  - intros (Hw & Hh) c Hc. apply Hb. apply crossObstacles_In in Hc.
    unfold inCross in Hc. cbn [x y] in Hc. fold cx cy in Hc. unfold cx, cy in *. clear Hb Cross Diamond.
    Z.div_mod_to_equations. lia.
  - intros Hall.
    pose proof (proj1 (Hb _) (Hall _ (Diamond (-3) 0 ltac:(lia)))) as H1.
    pose proof (proj1 (Hb _) (Hall _ (Diamond 0 (-3) ltac:(lia)))) as H2.
    cbn [x y] in H1, H2. unfold cx, cy in *. clear Hb Cross Diamond.
    Z.div_mod_to_equations. lia.
  - intros (Hw & Hh) c Hc. apply Hb. apply diamondObstacles_In in Hc.
    unfold inDiamond in Hc. cbn [x y] in Hc. fold cx cy in Hc. unfold cx, cy in *. clear Hb Cross Diamond.
    Z.div_mod_to_equations. lia.
Qed.

(** Whatever the name of the pattern, the cells stored lie in the cross
    around the centre. *)
Lemma setObstaclePattern_inCross (pattern : string) (g : Game) (c : Pos) :
  In c (obstacles (setObstaclePattern pattern g)) -> inCross (center g) c.
Proof.
  unfold setObstaclePattern. cbv zeta. game_fields.
  destruct (pattern =? "normal")%string; [apply crossObstacles_In|].
  destruct (pattern =? "diamond")%string.
  - intros Hc. apply diamondObstacles_In in Hc.
    unfold inDiamond, inCross, center in *. cbn [x y] in *. lia.
  - destruct (pattern =? "none")%string; [intros []|apply crossObstacles_In].
Qed.

(** A layout set on a freshly constructed game lies within its cross. *)
Lemma setObstaclePattern_within (K : Constants) (r r' : Rng) (g : Game) (pattern : string) :
  newGame K r = (Return g, r') ->
  incl (obstacles (setObstaclePattern pattern g)) (obstacles g) /\
  wellPlaced (setObstaclePattern pattern g).
Proof.
  intros Hnew.
  pose proof (newGame_wellPlaced K r r' g Hnew) as ((Hnd & Hobs & Hpo) & Hpi).
  pose proof (newGame_outcome K r) as Ho. rewrite Hnew in Ho.
  destruct Ho as (Hw & Hh & Hcells & _).
  assert (Hincl : incl (obstacles (setObstaclePattern pattern g)) (obstacles g)).
  { intros c Hc. rewrite Hcells, <- Hw, <- Hh.
    apply (proj2 (proj2 (constructor_obstacles (width g) (height g)))).
    apply crossObstacles_In. apply (setObstaclePattern_inCross pattern g c Hc). }
  split; [exact Hincl|].
  unfold wellPlaced, itemsApart.
  assert (Ei : items (setObstaclePattern pattern g) = items g) by reflexivity.
  assert (Ep : player (setObstaclePattern pattern g) = player g) by reflexivity.
  rewrite Ei, Ep.
  split; [split; [exact Hnd|split]|exact Hpi].
  - intros c Hc Hin. apply (Hobs c Hc). apply Hincl. exact Hin.
  - intros Hin. apply Hpo. apply Hincl. exact Hin.
Qed.

(** X14. Every layout [setObstaclePattern] can store lies within the cross of
    the constructor: changing the layout of a freshly constructed game puts
    no obstacle under the player, the food or a block. *)
Theorem setObstaclePattern_clear (K : Constants) (r r' : Rng) (g : Game) (pattern : string) :
  newGame K r = (Return g, r') ->
  incl (obstacles (setObstaclePattern pattern g)) (obstacles g) /\
  wellPlaced (setObstaclePattern pattern g).
Proof. apply setObstaclePattern_within. Qed.

Lemma setObstaclePattern_clear_witness :
  wellPlaced (setObstaclePattern "diamond"
                (gameOn {| x := 0; y := 0 |} {| x := 1; y := 0 |} [])).
Proof.
  apply (setObstaclePattern_clear (board20x15 50) (rngOf idleDraws)
           (advance (rngOf idleDraws) 4)
           (gameOn {| x := 0; y := 0 |} {| x := 1; y := 0 |} []) "diamond").
  vm_compute. reflexivity.
Defined.

End LayoutOfObstacles.

(** ** Feature extraction *)

Section FeatureFacts.
Import Js Grid Layout Features.
Local Open Scope Z_scope.

Lemma determineCategory_range (cx cy : Z) (state : GameState) (game : Game) :
  (determineCategory cx cy state game < numClasses)%nat.
Proof.
  unfold determineCategory, numClasses.
  repeat match goal with |- context [if ?c then _ else _] => destruct c end; lia.
Qed.

(** A category below [numClasses] is encoded without lengthening the
    array: the vector is the one-hot vector of the category. *)
Lemma oneHotEncode_oneHot (c : nat) : (c < numClasses)%nat -> oneHotEncode c numClasses = oneHot c.
Proof.
  unfold numClasses. intros Hc.
  do 6 (destruct c as [|c]; [reflexivity|]). lia.
Qed.

Lemma range_length (lo hi : Z) : length (range lo hi) = Z.to_nat (hi - lo + 1).
Proof. unfold range. rewrite length_map, length_seq. reflexivity. Qed.

Lemma range_nth (lo hi : Z) (i : nat) :
  (i < Z.to_nat (hi - lo + 1))%nat -> nth i (range lo hi) 0 = lo + Z.of_nat i.
Proof.
  intros Hi. unfold range.
  rewrite (nth_indep _ 0 (lo + Z.of_nat 0)) by (rewrite length_map, length_seq; exact Hi).
  pose proof (map_nth (fun k => lo + Z.of_nat k) (seq 0 (Z.to_nat (hi - lo + 1))) O i) as E.
  cbv beta in E. rewrite E, seq_nth by exact Hi. reflexivity.
Qed.

Lemma map_range_nth {B : Type} (f : Z -> B) (lo hi : Z) (i : nat) (d : B) :
  (i < Z.to_nat (hi - lo + 1))%nat -> nth i (map f (range lo hi)) d = f (lo + Z.of_nat i).
Proof.
  intros Hi.
  rewrite (nth_indep _ d (f 0)) by (rewrite length_map, range_length; exact Hi).
  rewrite map_nth, range_nth by exact Hi. reflexivity.
Qed.

(** [getFeatureVector], run. *)
Lemma getFeatureVector_run (state : GameState) (game : Game) :
  match state_food state with
  | None => getFeatureVector state game = Throw nullRead
  | Some _ =>
      exists fv, getFeatureVector state game = Return fv /\
        length (grid fv) = 9%nat /\ length (offset fv) = 2%nat /\
        forall i j, (i < 9)%nat -> (j < 9)%nat ->
          length (nth i (grid fv) []) = 9%nat /\
          nth j (nth i (grid fv) []) [] =
          oneHot (determineCategory (x (state_player state) + Z.of_nat j - 4)
                                    (y (state_player state) + Z.of_nat i - 4) state game)
  end.
Proof.
  unfold getFeatureVector. cbv zeta.
  destruct (state_food state) as [f|]; [|reflexivity].
  eexists. split; [reflexivity|]. cbn [grid offset length].
  change (gridSize / 2) with 4. change (- 4) with (-4).
  split; [rewrite length_map, range_length; reflexivity|]. split; [reflexivity|].
  intros i j Hi Hj.
  rewrite (map_range_nth _ (-4) 4 i []) by exact Hi.
  split; [rewrite length_map, range_length; reflexivity|].
  rewrite (map_range_nth _ (-4) 4 j []) by exact Hj.
  cbv zeta.
  rewrite oneHotEncode_oneHot by apply determineCategory_range.
  f_equal. f_equal; lia.
Qed.

(** X15. [getFeatureVector] throws on a snapshot without food and otherwise
    returns 9 rows of 9 one-hot vectors of 6 numbers and 2 offsets: the cell
    in row [i] and column [j] encodes the category of the cell [j - 4] columns
    and [i - 4] rows from the player, and no slot of a vector is empty. *)
Theorem getFeatureVector_shape (state : GameState) (game : Game) :
  match state_food state with
  | None => getFeatureVector state game = Throw nullRead
  | Some _ =>
      exists fv, getFeatureVector state game = Return fv /\
        length (grid fv) = 9%nat /\ length (offset fv) = 2%nat /\
        forall i j, (i < 9)%nat -> (j < 9)%nat ->
          length (nth i (grid fv) []) = 9%nat /\
          nth j (nth i (grid fv) []) [] =
          oneHot (determineCategory (x (state_player state) + Z.of_nat j - 4)
                                    (y (state_player state) + Z.of_nat i - 4) state game)
  end.
Proof. apply getFeatureVector_run. Qed.

(** X16. The feature extractor of the auto-play mode and the one of the
    training agree on every snapshot of a game. *)
Theorem getFeatureVector_agree (game : Game) :
  AutoPlay.getFeatureVector (getState game) game = getFeatureVector (getState game) game.
Proof. reflexivity. Qed.

Lemma isAt_cell (c o : Pos) : isAt (x c) (y c) o = true <-> c = o.
Proof. rewrite isAt_eq. split; congruence. Qed.

(** X17. With the pieces well placed on the board, a cell is seen as what lies
    on it: the player as 4, the food as 3, a green block as 2, a red block as
    1, an obstacle or a cell off the board as 0, and a free cell as 5. In
    particular the vector in the middle of the grid is that of the player. *)
Theorem determineCategory_faithful (g : Game) (c : Pos) :
  wellPlaced g -> allOnBoard g ->
  let cat := determineCategory (x c) (y c) (getState g) g in
  (cat = 4%nat <-> c = player g) /\
  (cat = 3%nat <-> c = food g) /\
  (cat = 2%nat <-> In c (greenBlocks g)) /\
  (cat = 1%nat <-> In c (redBlocks g)) /\
  (cat = 0%nat <-> ~ onBoard g c \/ In c (obstacles g)) /\
  (cat = 5%nat <-> onBoard g c /\ occupiedIn g (x c) (y c) = false) /\
  exists fv, getFeatureVector (getState g) g = Return fv /\
             nth 4 (nth 4 (grid fv) []) [] = oneHot 4.
Proof.
  intros ((Hnd & Hobs & Hpo) & Hpi) Hall. cbv zeta.
  apply allOnBoard_iff in Hall. destruct Hall as (Bp & Bf & Br & Bg).
  unfold items in *.
  inversion Hnd as [|? ? Hfood_out Hnd_blocks]; subst.
  assert (Hfo : ~ In (food g) (obstacles g)) by (apply Hobs; left; reflexivity).
  assert (Hro : forall q, In q (redBlocks g) -> ~ In q (obstacles g))
    by (intros q Hq; apply Hobs; right; apply in_or_app; auto).
  assert (Hgo : forall q, In q (greenBlocks g) -> ~ In q (obstacles g))
    by (intros q Hq; apply Hobs; right; apply in_or_app; auto).
  assert (Hrg : forall q, In q (redBlocks g) -> ~ In q (greenBlocks g)).
  { intros q Hr Hg. apply in_split in Hr. destruct Hr as (l1 & l2 & E).
    rewrite E, <- app_assoc in Hnd_blocks. cbn [app] in Hnd_blocks.
    apply NoDup_remove_2 in Hnd_blocks. apply Hnd_blocks.
    apply in_or_app. right. apply in_or_app. auto. }
  assert (Hfr : ~ In (food g) (redBlocks g))
    by (intros H; apply Hfood_out; apply in_or_app; auto).
  assert (Hfg : ~ In (food g) (greenBlocks g))
    by (intros H; apply Hfood_out; apply in_or_app; auto).
  assert (Hpf : player g <> food g) by (intros E; apply Hpi; left; symmetry; exact E).
  assert (Hpr : ~ In (player g) (redBlocks g))
    by (intros H; apply Hpi; right; apply in_or_app; auto).
  assert (Hpg : ~ In (player g) (greenBlocks g))
    by (intros H; apply Hpi; right; apply in_or_app; auto).
  assert (Hcat_of : forall c, determineCategory (x c) (y c) (getState g) g =
                 if negb (isWithinBounds g (x c) (y c)) then 0%nat
                 else if existsb (isAt (x c) (y c)) (obstacles g) then 0%nat
                 else if existsb (isAt (x c) (y c)) (redBlocks g) then 1%nat
                 else if existsb (isAt (x c) (y c)) (greenBlocks g) then 2%nat
                 else if isAt (x c) (y c) (food g) then 3%nat
                 else if isAt (x c) (y c) (player g) then 4%nat
                 else 5%nat).
  { clear c. intros c. unfold determineCategory, isWithinBounds, getState.
    cbn [state_obstacles state_redBlocks state_greenBlocks state_food state_player].
    replace ((x c <? 0) || (x c >=? width g) || (y c <? 0) || (y c >=? height g))
      with (negb ((0 <=? x c) && (x c <? width g) && (0 <=? y c) && (y c <? height g)));
      [reflexivity|].
    rewrite !Z.geb_leb.
    destruct (0 <=? x c) eqn:E1, (x c <? width g) eqn:E2, (0 <=? y c) eqn:E3,
             (y c <? height g) eqn:E4, (x c <? 0) eqn:E5, (width g <=? x c) eqn:E6,
             (y c <? 0) eqn:E7, (height g <=? y c) eqn:E8; try reflexivity; exfalso;
      rewrite ?Z.leb_le, ?Z.ltb_lt, ?Z.leb_gt, ?Z.ltb_ge in *; lia. }
  pose proof (Hcat_of c) as Hcat.
  assert (Hfree : occupiedIn g (x c) (y c) = false <->
                  c <> player g /\ c <> food g /\ ~ In c (redBlocks g) /\
                  ~ In c (greenBlocks g) /\ ~ In c (obstacles g)).
  { rewrite occupiedIn_false. unfold items. cbn [In]. rewrite in_app_iff.
    split; [intros (H1 & H2 & H3) | intros (H1 & H2 & H3 & H4 & H5)].
    - repeat split; auto.
    - split; [exact H1|]. split; [|exact H5]. intros [E | [E | E]]; auto. }
  split; [|split; [|split; [|split; [|split; [|split]]]]].
  7: { pose proof (getFeatureVector_run (getState g) g) as Hrun.
       change (state_food (getState g)) with (Some (food g)) in Hrun. cbv beta iota in Hrun.
       destruct Hrun as (fv & Hfv & _ & _ & Hcells).
       exists fv. split; [exact Hfv|].
       destruct (Hcells 4%nat 4%nat ltac:(lia) ltac:(lia)) as (_ & Hc). rewrite Hc.
       change (state_player (getState g)) with (player g).
       replace (x (player g) + Z.of_nat 4 - 4) with (x (player g)) by lia.
       replace (y (player g) + Z.of_nat 4 - 4) with (y (player g)) by lia.
       f_equal. rewrite (Hcat_of (player g)).
       unfold onBoard in Bp. rewrite Bp. cbn [negb].
       rewrite (proj2 (existsb_isAt_false _ _) Hpo), (proj2 (existsb_isAt_false _ _) Hpr),
               (proj2 (existsb_isAt_false _ _) Hpg).
       destruct (isAt (x (player g)) (y (player g)) (food g)) eqn:Ef;
         [apply isAt_cell in Ef; contradiction|].
       rewrite (proj2 (isAt_cell _ _) eq_refl). reflexivity. }
  all: assert (K1 : c = food g -> isWithinBounds g (x c) (y c) = true /\ ~ In c (obstacles g) /\
                    ~ In c (redBlocks g) /\ ~ In c (greenBlocks g) /\ c <> player g)
         by (intros ->; unfold onBoard in Bf; auto 10).
  all: assert (K2 : c = player g -> isWithinBounds g (x c) (y c) = true /\ ~ In c (obstacles g) /\
                    ~ In c (redBlocks g) /\ ~ In c (greenBlocks g) /\ c <> food g)
         by (intros ->; unfold onBoard in Bp; auto 10).
  all: assert (K3 : In c (redBlocks g) -> isWithinBounds g (x c) (y c) = true /\
                    ~ In c (obstacles g) /\ ~ In c (greenBlocks g))
         by (intros Hc; pose proof (Br c Hc) as Hb; unfold onBoard in Hb; auto).
  all: assert (K4 : In c (greenBlocks g) -> isWithinBounds g (x c) (y c) = true /\
                    ~ In c (obstacles g))
         by (intros Hc; pose proof (Bg c Hc) as Hb; unfold onBoard in Hb; auto).
  all: rewrite Hcat, ?Hfree; unfold onBoard; clear - K1 K2 K3 K4.
  all: destruct (isWithinBounds g (x c) (y c)); cbn [negb].
  all: destruct (existsb (isAt (x c) (y c)) (obstacles g)) eqn:Eo;
         [apply existsb_isAt in Eo | apply existsb_isAt_false in Eo].
  all: destruct (existsb (isAt (x c) (y c)) (redBlocks g)) eqn:Er;
         [apply existsb_isAt in Er | apply existsb_isAt_false in Er].
  all: destruct (existsb (isAt (x c) (y c)) (greenBlocks g)) eqn:Eg;
         [apply existsb_isAt in Eg | apply existsb_isAt_false in Eg].
  all: destruct (isAt (x c) (y c) (food g)) eqn:Ef;
         [apply isAt_cell in Ef
         |assert (Ef' : c <> food g) by (intros E; apply isAt_cell in E; congruence); clear Ef].
  all: destruct (isAt (x c) (y c) (player g)) eqn:Ep;
         [apply isAt_cell in Ep
         |assert (Ep' : c <> player g) by (intros E; apply isAt_cell in E; congruence); clear Ep].
  all: intuition (try discriminate; try congruence).
Qed.

Lemma determineCategory_faithful_witness :
  determineCategory 0 0 (getState (gameOn {| x := 0; y := 0 |} {| x := 1; y := 0 |} []))
                    (gameOn {| x := 0; y := 0 |} {| x := 1; y := 0 |} []) = 4%nat.
Proof.
  apply (proj1 (determineCategory_faithful
                  (gameOn {| x := 0; y := 0 |} {| x := 1; y := 0 |} []) {| x := 0; y := 0 |}
                  sample_wellPlaced sample_onBoard)).
  reflexivity.
Defined.

(** X18. With the player and the food on the board, each of the two offsets of
    the feature vector lies strictly between -5 and 5, and has the sign of
    the difference of the coordinates: it is 0 exactly when the food is in
    the column, or the row, of the player. *)
Theorem getFeatureVector_offset (g : Game) :
  onBoard g (player g) -> onBoard g (food g) ->
  exists fv dx dy,
    getFeatureVector (getState g) g = Return fv /\ offset fv = [dx; dy] /\
    (-5 < dx < 5)%Q /\ (-5 < dy < 5)%Q /\
    ((0 < dx)%Q <-> x (player g) < x (food g)) /\ ((dx == 0)%Q <-> x (food g) = x (player g)) /\
    ((0 < dy)%Q <-> y (player g) < y (food g)) /\ ((dy == 0)%Q <-> y (food g) = y (player g)).
Proof.
  unfold onBoard, isWithinBounds. rewrite !andb_true_iff, !Z.leb_le, !Z.ltb_lt.
  intros (((Hp1 & Hp2) & Hp3) & Hp4) (((Hf1 & Hf2) & Hf3) & Hf4).
  unfold getFeatureVector. cbv zeta. cbn [getState state_food state_player].
  do 3 eexists. split; [reflexivity|]. cbn [offset]. split; [reflexivity|].
  assert (Hq : forall d W : Z, 0 < W -> - W < d < W ->
               (-5 < 5 * inject_Z d / inject_Z W < 5)%Q /\
               ((0 < 5 * inject_Z d / inject_Z W)%Q <-> 0 < d) /\
               ((5 * inject_Z d / inject_Z W == 0)%Q <-> d = 0)).
  { intros d W HW Hd.
    assert (HWq : (0 < inject_Z W)%Q) by (change 0%Q with (inject_Z 0); rewrite <- Zlt_Qlt; lia).
    assert (Hd1 : (inject_Z d < inject_Z W)%Q) by (rewrite <- Zlt_Qlt; lia).
    assert (Hd2 : (- inject_Z W < inject_Z d)%Q)
      by (rewrite <- inject_Z_opp, <- Zlt_Qlt; lia).
    split; [split|split].
    - apply Qlt_shift_div_l; [exact HWq | lra].
    - apply Qlt_shift_div_r; [exact HWq | lra].
    - assert (E : (5 * inject_Z d == 5 * inject_Z d / inject_Z W * inject_Z W)%Q)
        by (field; lra).
      split.
      + intros H.
        pose proof (Qmult_lt_0_compat _ _ H HWq) as H2.
        remember (5 * inject_Z d / inject_Z W)%Q as q.
        assert (H3 : (inject_Z 0 < inject_Z d)%Q) by (change (inject_Z 0) with 0%Q; lra).
        rewrite <- Zlt_Qlt in H3. exact H3.
      + intros H. apply Qlt_shift_div_l; [exact HWq|].
        assert (H3 : (inject_Z 0 < inject_Z d)%Q) by (rewrite <- Zlt_Qlt; exact H).
        change (inject_Z 0) with 0%Q in H3. lra.
    - assert (E : (5 * inject_Z d == 5 * inject_Z d / inject_Z W * inject_Z W)%Q)
        by (field; lra).
      split.
      + intros H. remember (5 * inject_Z d / inject_Z W)%Q as q.
        assert (E1 : (q * inject_Z W == 0)%Q) by (rewrite H; ring).
        assert (E2 : (inject_Z d == inject_Z 0)%Q) by (change (inject_Z 0) with 0%Q; lra).
        unfold Qeq in E2. cbn [Qnum Qden inject_Z] in E2. lia.
      + intros ->. change (inject_Z 0) with 0%Q. field. lra. }
  destruct (Hq (x (food g) - x (player g)) (width g) ltac:(lia) ltac:(lia)) as (A1 & A2 & A3).
  destruct (Hq (y (food g) - y (player g)) (height g) ltac:(lia) ltac:(lia)) as (B1 & B2 & B3).
  split; [exact A1|]. split; [exact B1|].
  split; [rewrite A2; lia|]. split; [rewrite A3; lia|].
  split; [rewrite B2; lia|]. rewrite B3. lia.
Qed.

Lemma getFeatureVector_offset_witness :
  exists fv dx dy,
    getFeatureVector (getState (gameOn {| x := 0; y := 0 |} {| x := 1; y := 0 |} []))
                     (gameOn {| x := 0; y := 0 |} {| x := 1; y := 0 |} []) = Return fv /\
    offset fv = [dx; dy] /\ (0 < dx < 5)%Q /\ (dy == 0)%Q.
Proof.
  destruct (getFeatureVector_offset (gameOn {| x := 0; y := 0 |} {| x := 1; y := 0 |} []))
    as (fv & dx & dy & Hfv & Ho & Hdx & _ & Hpos & _ & _ & Hzero); [reflexivity | reflexivity |].
  exists fv, dx, dy. split; [exact Hfv|]. split; [exact Ho|].
  split; [split; [apply Hpos; reflexivity | apply Hdx] | apply Hzero; reflexivity].
Defined.

End FeatureFacts.

(** ** Samplers: what a batch holds *)

Section SamplingFacts.
Import Js Replay Layout Sampling.

Lemma item_fromBuffer (buffer : list Transition) (i : Z) :
  (0 <= i < Z.of_nat (length buffer))%Z -> fromBuffer buffer (item buffer i).
Proof.
  intros Hi. unfold item, fromBuffer.
  destruct (i <? 0)%Z eqn:E; [apply Z.ltb_lt in E; lia|].
  destruct (nth_error buffer (Z.to_nat i)) as [t|] eqn:En.
  - exists t. split; [reflexivity | apply (nth_error_In _ _ En)].
  - apply nth_error_None in En. lia.
Qed.

Lemma draw_fromBuffer (buffer : list Transition) (q : Q) :
  (0 <= q < 1)%Q -> buffer <> [] ->
  fromBuffer buffer (item buffer (Qfloor (q * inject_Z (Z.of_nat (length buffer))))).
Proof.
  intros Hq Hne. apply item_fromBuffer. apply scaled_draw_range; [exact Hq|].
  destruct buffer; [congruence | simpl; lia].
Qed.

Lemma draw_empty (q : Q) : @item Transition [] (Qfloor (q * inject_Z (Z.of_nat 0))) = None.
Proof.
  unfold item. destruct (_ <? 0)%Z; [reflexivity|]. apply nth_error_nil.
Qed.

(** [sampleRandomBatch], run: one draw per entry, in turn. *)
Lemma sampleRandomBatch_run (buffer : list Transition) (batchSize : nat) :
  forall rng,
  sampleRandomBatch buffer batchSize rng =
  (Return (map (fun k => item buffer (Qfloor (entropy rng (calls rng + k)
                                              * inject_Z (Z.of_nat (length buffer)))))
               (seq 0 batchSize)),
   advance rng batchSize).
Proof.
  induction batchSize as [|n IH]; intros rng.
  - cbn [sampleRandomBatch seq map]. unfold ret. f_equal.
    apply Rng_eq; simpl; [reflexivity | lia].
  - cbn [sampleRandomBatch]. unfold bind at 1. unfold randomBelow, bind, Math_random, ret.
    cbn [fst snd]. unfold bind. rewrite IH. cbn [seq map entropy calls].
    rewrite Nat.add_0_r, <- seq_shift, map_map.
    f_equal.
    + f_equal. f_equal. apply map_ext. intros k.
      replace (S (calls rng) + k)%nat with (calls rng + S k)%nat by lia. reflexivity.
    + apply Rng_eq; simpl; [reflexivity | lia].
Qed.

(** X19. [sampleRandomBatch] returns exactly [batchSize] entries, after one draw
    for each; an entry depends on its own draw only, so that equal draws give
    the same entry. With draws in [0,1) every entry is an entry of a buffer
    that is not empty; on an empty buffer every entry is [undefined]. *)
Theorem sampleRandomBatch_entries (buffer : list Transition) (batchSize : nat) (rng : Rng) :
  exists l,
    sampleRandomBatch buffer batchSize rng = (Return l, advance rng batchSize) /\
    length l = batchSize /\
    (forall i j, i < batchSize -> j < batchSize ->
       entropy rng (calls rng + i) = entropy rng (calls rng + j) ->
       nth_error l i = nth_error l j) /\
    (buffer = [] -> l = repeat None batchSize) /\
    (buffer <> [] -> fairDraws rng -> Forall (fromBuffer buffer) l).
Proof.
  rewrite sampleRandomBatch_run. eexists. split; [reflexivity|].
  split; [rewrite length_map, length_seq; reflexivity|]. split; [|split].
  - intros i j Hi Hj E.
    rewrite !nth_error_map, !nth_error_seq.
    apply Nat.ltb_lt in Hi, Hj. rewrite Hi, Hj. cbn [option_map Nat.add]. rewrite E. reflexivity.
  - intros ->. cbn [length].
    rewrite (map_ext _ (fun _ => None)) by (intros k; apply draw_empty).
    rewrite map_const, length_seq. reflexivity.
  - intros Hne Hfair. apply Forall_forall. intros e He.
    apply in_map_iff in He. destruct He as (k & <- & _).
    apply draw_fromBuffer; [apply Hfair | exact Hne].
Qed.

(** The uniform half, run: one draw per entry. *)
Lemma uniformLoop_run (buffer : list Transition) (halfBatch : nat) :
  forall acc rng,
  uniformLoop halfBatch buffer acc rng =
  (Return (acc ++ map (fun k => item buffer (Qfloor (entropy rng (calls rng + k)
                                                     * inject_Z (Z.of_nat (length buffer)))))
                      (seq 0 halfBatch)),
   advance rng halfBatch).
Proof.
  induction halfBatch as [|n IH]; intros acc rng.
  - cbn [uniformLoop seq map]. unfold ret. rewrite app_nil_r. f_equal.
    apply Rng_eq; simpl; [reflexivity | lia].
  - cbn [uniformLoop]. unfold bind at 1. unfold randomBelow, bind, Math_random, ret.
    cbn [fst snd]. rewrite IH. cbn [seq map entropy calls].
    rewrite Nat.add_0_r, <- seq_shift, map_map, <- app_assoc. cbn [app].
    f_equal.
    + f_equal. f_equal. f_equal. apply map_ext. intros k.
      replace (S (calls rng) + k)%nat with (calls rng + S k)%nat by lia. reflexivity.
    + apply Rng_eq; simpl; [reflexivity | lia].
Qed.

Lemma effectivePrioritiesFrom_length (rest : list Transition) :
  forall i len, length (effectivePrioritiesFrom i len rest) = length rest.
Proof.
  induction rest as [|t rest IH]; intros i len; cbn [effectivePrioritiesFrom length];
    [reflexivity|]. rewrite IH. reflexivity.
Qed.

(** One spin of the wheel pushes nothing or the entry at the first index
    whose cumulative share exceeds the draw. *)
Lemma rouletteLoop_pick (buffer : list Transition) (random total : Q) (ps : list Q) :
  forall (j : nat) (c : Q) (acc : list (option Transition)),
  (rouletteLoop buffer random total ps j c acc = acc /\
   forall k, k < length ps -> ~ (random < cumulativeAfter total (firstn (S k) ps) c)%Q) \/
  exists k, k < length ps /\
    rouletteLoop buffer random total ps j c acc = acc ++ [nth_error buffer (j + k)] /\
    (random < cumulativeAfter total (firstn (S k) ps) c)%Q /\
    forall i, i < k -> ~ (random < cumulativeAfter total (firstn (S i) ps) c)%Q.
Proof.
  induction ps as [|p ps IH]; intros j c acc; cbn [rouletteLoop length].
  - left. split; [reflexivity|]. intros k Hk. lia.
  - destruct (Qltb random (c + p / total)) eqn:E.
    + right. exists 0. split; [lia|]. rewrite Nat.add_0_r. split; [reflexivity|].
      split; [apply Qltb_lt in E; exact E|]. intros i Hi. lia.
    + assert (Hn : ~ (random < c + p / total)%Q).
      { intros H. apply Qltb_lt in H. congruence. }
      destruct (IH (S j) (c + p / total)%Q acc) as [(Hrun & Hall) | (k & Hk & Hrun & Hlt & Hbefore)].
      * left. split; [exact Hrun|]. intros [|k] Hk; [exact Hn|]. apply Hall. lia.
      * right. exists (S k). split; [lia|].
        replace (j + S k) with (S j + k) by lia. split; [exact Hrun|].
        split; [exact Hlt|]. intros [|i] Hi; [exact Hn|]. apply Hbefore. lia.
Qed.



(** The prioritized half pushes entries of the buffer only. *)
Lemma prioritizedLoop_fromBuffer (buffer : list Transition) (ps : list Q) (total : Q)
    (halfBatch : nat) :
  length ps <= length buffer ->
  forall acc rng, Forall (fromBuffer buffer) acc ->
  exists l,
    prioritizedLoop halfBatch buffer ps total acc rng = (Return l, advance rng halfBatch) /\
    Forall (fromBuffer buffer) l.
Proof.
  intros Hlen. induction halfBatch as [|n IH]; intros acc rng Hacc.
  - exists acc. cbn [prioritizedLoop]. unfold ret. split; [|exact Hacc].
    f_equal. apply Rng_eq; simpl; [reflexivity | lia].
  - cbn [prioritizedLoop]. unfold bind at 1. unfold Math_random. cbn [fst snd].
    set (acc' := rouletteLoop buffer (entropy rng (calls rng)) total ps 0 0%Q acc).
    assert (Hacc' : Forall (fromBuffer buffer) acc').
    { unfold acc'.
      destruct (rouletteLoop_pick buffer (entropy rng (calls rng)) total ps 0 0%Q acc)
        as [(-> & _) | (k & Hk & -> & _)]; [exact Hacc|].
      apply Forall_app. split; [exact Hacc|]. constructor; [|constructor].
      cbn [Nat.add]. destruct (nth_error buffer k) as [t|] eqn:E.
      - exists t. split; [reflexivity | apply (nth_error_In _ _ E)].
      - apply nth_error_None in E. lia. }
    destruct (IH acc' {| entropy := entropy rng; calls := S (calls rng) |} Hacc')
      as (l & Hrun & Hl).
    exists l. rewrite Hrun. split; [|exact Hl].
    f_equal. apply Rng_eq; simpl; [reflexivity | lia].
Qed.

(** X20. A batch of the hybrid sampler on a buffer that is long enough holds,
    for draws in [0,1), entries of the buffer only, and no [undefined]; the
    sampler has then made [2 * (batchSize / 2)] draws, one per uniform entry
    and one per spin of the wheel. *)
Theorem sampleEnhancedBatch_entries (buffer : list Transition) (batchSize : nat) (rng : Rng) :
  batchSize <= length buffer -> fairDraws rng ->
  exists l,
    sampleEnhancedBatch buffer batchSize rng = (Return l, advance rng (2 * (batchSize / 2))) /\
    Forall (fromBuffer buffer) l.
Proof.
  intros Hlen Hfair. unfold sampleEnhancedBatch.
  apply Nat.ltb_ge in Hlen. rewrite Hlen. apply Nat.ltb_ge in Hlen.
  unfold bind at 1. rewrite uniformLoop_run. cbn [app].
  set (u := map _ (seq 0 (batchSize / 2))).
  assert (Hu : Forall (fromBuffer buffer) u).
  { apply Forall_forall. intros e He. unfold u in He.
    apply in_map_iff in He. destruct He as (k & <- & Hk). apply in_seq in Hk.
    apply draw_fromBuffer; [apply Hfair|].
    intros ->. cbn [length] in Hlen.
    assert (batchSize / 2 = 0) by (replace batchSize with 0 by lia; reflexivity). lia. }
  destruct (prioritizedLoop_fromBuffer buffer
              (effectivePrioritiesFrom 0 (length buffer) buffer)
              (totalOf (effectivePrioritiesFrom 0 (length buffer) buffer))
              (batchSize / 2)
              ltac:(rewrite effectivePrioritiesFrom_length; lia)
              [] (advance rng (batchSize / 2)) (Forall_nil _))
    as (p & Hrun & Hp).
  unfold bind at 1. rewrite Hrun. unfold ret.
  exists (u ++ p). split; [|apply Forall_app; auto].
  f_equal. apply Rng_eq; simpl; [reflexivity | lia].
Qed.

Lemma sampleEnhancedBatch_entries_witness :
  exists l, fst (sampleEnhancedBatch [transitionOf 1; transitionOf 1] 2 (constantRng 0)) = Return l /\
            Forall (fromBuffer [transitionOf 1; transitionOf 1]) l.
Proof.
  destruct (sampleEnhancedBatch_entries [transitionOf 1; transitionOf 1] 2 (constantRng 0))
    as (l & Hrun & Hl).
  - simpl. lia.
  - intros i. simpl. split; [discriminate | reflexivity].
  - exists l. rewrite Hrun. split; [reflexivity | exact Hl].
Defined.

Lemma effectivePrioritiesFrom_nth (rest : list Transition) :
  forall (i0 len k : nat) (t : Transition),
  nth_error rest k = Some t ->
  nth_error (effectivePrioritiesFrom i0 len rest) k =
  Some (originalPriority t *
        Qpower_positive (inject_Z (Z.of_nat (i0 + k) + 1) / inject_Z (Z.of_nat len)) alpha)%Q.
Proof.
  induction rest as [|t' rest IH]; intros i0 len k t Hk; [destruct k; discriminate|].
  destruct k as [|k]; cbn [nth_error effectivePrioritiesFrom] in *.
  - injection Hk as ->. rewrite Nat.add_0_r. reflexivity.
  - rewrite (IH (S i0) len k t Hk). replace (S i0 + k) with (i0 + S k) by lia. reflexivity.
Qed.

(** X22. The effective priority of the entry at index [i] of the buffer is its
    priority, or the absolute value of its reward when it has none, times
    the square of [(i + 1) / buffer.length]: for an entry whose priority is
    not negative it lies between 0 and that priority, and it is that
    priority for the newest entry. *)
Theorem effectivePriority_bounds (buffer : list Transition) (i : nat) (t : Transition) :
  nth_error buffer i = Some t ->
  (forall p, priority t = Some p -> (0 <= p)%Q) ->
  exists e,
    nth_error (effectivePrioritiesFrom 0 (length buffer) buffer) i = Some e /\
    length (effectivePrioritiesFrom 0 (length buffer) buffer) = length buffer /\
    (0 <= e <= originalPriority t)%Q /\
    (S i = length buffer -> (e == originalPriority t)%Q).
Proof.
  intros Hi Hp.
  rewrite (effectivePrioritiesFrom_nth buffer 0 (length buffer) i t Hi).
  eexists. split; [reflexivity|]. split; [apply effectivePrioritiesFrom_length|].
  assert (Hlt : i < length buffer) by (apply nth_error_Some; congruence).
  assert (Ho : (0 <= originalPriority t)%Q).
  { unfold originalPriority. destruct (priority t) as [p|]; [apply Hp; reflexivity|].
    apply Qabs_nonneg. }
  cbn [Nat.add].
  set (w := (inject_Z (Z.of_nat i + 1) / inject_Z (Z.of_nat (length buffer)))%Q).
  change (Qpower_positive w alpha) with (w * w)%Q.
  assert (Hlen : (0 < inject_Z (Z.of_nat (length buffer)))%Q)
    by (change 0%Q with (inject_Z 0); rewrite <- Zlt_Qlt; lia).
  assert (Hw0 : (0 < w)%Q).
  { unfold w. apply Qlt_shift_div_l; [exact Hlen|].
    rewrite Qmult_0_l. change 0%Q with (inject_Z 0). rewrite <- Zlt_Qlt. lia. }
  assert (Hw1 : (w <= 1)%Q).
  { unfold w. apply Qle_shift_div_r; [exact Hlen|]. rewrite Qmult_1_l.
    rewrite <- Zle_Qle. lia. }
  assert (Hww0 : (0 <= w * w)%Q) by (apply Qmult_le_0_compat; lra).
  assert (Hww1 : (w * w <= 1)%Q).
  { apply Qle_trans with (1 * w)%Q; [|lra].
    apply Qmult_le_compat_r; lra. }
  split.
  - split; [apply Qmult_le_0_compat; assumption|].
    apply Qle_trans with (originalPriority t * 1)%Q; [|lra].
    rewrite !(Qmult_comm (originalPriority t)). apply Qmult_le_compat_r; assumption.
  - intros Hlast.
    assert (E : (w == 1)%Q).
    { unfold w. replace (Z.of_nat i + 1)%Z with (Z.of_nat (length buffer)) by lia.
      field. lra. }
    rewrite E. ring.
Qed.

Lemma effectivePriority_bounds_witness :
  exists e,
    nth_error (effectivePrioritiesFrom 0 2 [transitionOf 1; transitionOf 1]) 0 = Some e /\
    (0 <= e <= 1)%Q.
Proof.
  destruct (effectivePriority_bounds [transitionOf 1; transitionOf 1] 0 (transitionOf 1))
    as (e & He & _ & Hb & _).
  - reflexivity.
  - intros p [= <-]. discriminate.
  - exists e. split; [exact He | exact Hb].
Defined.

End SamplingFacts.

(** ** The training loop: stored rewards *)

Section TrainingFacts.
Import Js Grid Layout Training.
Local Open Scope Z_scope.

Lemma clipReward_cases (r : Q) :
  ((r - STEP_PENALTY < REWARD_MIN)%Q /\ (clipReward r == REWARD_MIN)%Q) \/
  ((REWARD_MAX < r - STEP_PENALTY)%Q /\ (clipReward r == REWARD_MAX)%Q) \/
  ((REWARD_MIN <= r - STEP_PENALTY <= REWARD_MAX)%Q /\ (clipReward r == r - STEP_PENALTY)%Q).
Proof.
  unfold clipReward, Math_max, Math_min, REWARD_MIN, REWARD_MAX, STEP_PENALTY. cbv zeta.
  destruct (Qltb (r - (5 # 100)) 20) eqn:E1.
  - apply Qltb_lt in E1.
    destruct (Qltb (-20) (r - (5 # 100))) eqn:E2.
    + apply Qltb_lt in E2. right. right. split; [lra | reflexivity].
    + assert (H2 : ~ (-20 < r - (5 # 100))%Q) by (intros H; apply Qltb_lt in H; congruence).
      destruct (Qeq_dec (r - (5 # 100)) (-20)) as [E | E].
      * right. right. split; [lra | rewrite E; reflexivity].
      * left. split; [lra | reflexivity].
  - assert (H1 : ~ (r - (5 # 100) < 20)%Q) by (intros H; apply Qltb_lt in H; congruence).
    assert (E2 : Qltb (-20) 20 = true) by reflexivity. rewrite E2.
    destruct (Qeq_dec (r - (5 # 100)) 20) as [E | E].
    + right. right. split; [lra | rewrite E; reflexivity].
    + right. left. split; [lra | reflexivity].
Qed.

(** X23. The reward of a step as the training stores it lies between -20 and
    20, and the priority stored with it is its absolute value, between 0 and
    20. The transition is the newest entry of the buffer, which holds at most
    [REPLAY_BUFFER_SIZE] entries after the push; nothing is pushed for a step
    that reports [done]. *)
Theorem recordStep_stored (replayBuffer : list Replay.Transition)
    (currentFeature nextFeature : Replay.Feature) (actionIndex : Z) (reward : Q) :
  let t := transitionFor currentFeature actionIndex (clipReward reward) nextFeature false in
  let pushed := recordStep replayBuffer currentFeature actionIndex reward nextFeature false in
  (exists kept, pushed = kept ++ [t] /\
                kept = skipn (length replayBuffer + 1 - Replay.REPLAY_BUFFER_SIZE) replayBuffer) /\
  (length pushed <= Replay.REPLAY_BUFFER_SIZE)%nat /\
  (-20 <= Replay.reward t <= 20)%Q /\
  (exists p, Replay.priority t = Some p /\ (p == Qabs (Replay.reward t))%Q /\ (0 <= p <= 20)%Q) /\
  ((-20 <= reward - (5 # 100) <= 20)%Q -> (Replay.reward t == reward - (5 # 100))%Q) /\
  recordStep replayBuffer currentFeature actionIndex reward nextFeature true = replayBuffer.
Proof.
  cbv zeta. unfold recordStep. rewrite pushTransition_newest.
  rewrite length_app. cbn [length].
  set (t := transitionFor _ _ _ _ _).
  assert (Hk : (length replayBuffer + 1 - Replay.REPLAY_BUFFER_SIZE <= length replayBuffer)%nat).
  { assert (H1 : (1 <= Replay.REPLAY_BUFFER_SIZE)%nat)
      by (apply Nat.leb_le; vm_compute; reflexivity).
    lia. }
  rewrite <- (skipn_snoc _ replayBuffer t Hk).
  assert (Hclip : (-20 <= clipReward reward <= 20)%Q).
  { destruct (clipReward_cases reward) as [(_ & E) | [(_ & E) | (Hb & E)]];
      rewrite E; unfold REWARD_MIN, REWARD_MAX, STEP_PENALTY in *; lra. }
  split; [eexists; split; reflexivity|].
  split; [rewrite length_app, length_skipn; cbn [length]; lia|].
  split; [exact Hclip|]. split; [|split; [|reflexivity]].
  - eexists. split; [reflexivity|]. split; [reflexivity|]. cbn [Replay.reward t transitionFor].
    split; [apply Qabs_nonneg|]. apply Qabs_Qle_condition. exact Hclip.
  - intros Hb. cbn [Replay.reward t transitionFor].
    destruct (clipReward_cases reward) as [(H & E) | [(H & E) | (_ & E)]];
      unfold REWARD_MIN, REWARD_MAX, STEP_PENALTY in *; [lra | lra | exact E].
Qed.

(** *** The purge *)

Lemma fifthUpTo_spec (n : nat) :
  fifthUpTo n = true -> forall k, (k <= n)%nat -> numToRemove k = Some (Z.of_nat (k / 5)).
Proof.
  induction n as [|n IH]; cbn [fifthUpTo]; intros H k Hk;
    apply andb_true_iff in H; destruct H as [H1 H2].
  - replace k with 0%nat by lia.
    destruct (numToRemove 0) as [z|]; [|discriminate]. apply Z.eqb_eq in H1. congruence.
  - destruct (Nat.eq_dec k (S n)) as [-> | Hne].
    + destruct (numToRemove (S n)) as [z|]; [|discriminate]. apply Z.eqb_eq in H1. congruence.
    + apply IH; [exact H2 | lia].
Qed.

(** X25. For every length a buffer can have, [Math.floor(length * 0.2)] computed
    in binary64 is the fifth of the length, rounded down. The purge, made at
    the end of every 500th episode, removes that many of the oldest entries
    and keeps the others in their order: four fifths of the buffer at least,
    so that a buffer that holds an entry still does. *)
Theorem purge_removes_fifth (episode : nat) (replayBuffer : list Replay.Transition) :
  (forall n, (n <= Replay.REPLAY_BUFFER_SIZE)%nat -> numToRemove n = Some (Z.of_nat (n / 5))) /\
  exists removed,
    replayBuffer = removed ++ Replay.purge episode replayBuffer /\
    length removed = (if (episode mod 500 =? 0)%nat then length replayBuffer / 5 else 0)%nat /\
    (4 * length replayBuffer <= 5 * length (Replay.purge episode replayBuffer))%nat /\
    (replayBuffer <> [] -> Replay.purge episode replayBuffer <> []).
Proof.
  split.
  - apply fifthUpTo_spec. vm_compute. reflexivity.
  - pose proof (Nat.div_mod_eq (length replayBuffer) 5) as Hdiv.
    pose proof (Nat.mod_upper_bound (length replayBuffer) 5 ltac:(lia)) as Hmod.
    unfold Replay.purge.
    destruct (episode mod 500 =? 0)%nat; cbn [andb].
    + destruct (0 <? length replayBuffer)%nat eqn:E.
      * exists (firstn (length replayBuffer / 5) replayBuffer).
        split; [symmetry; apply firstn_skipn|].
        split; [rewrite length_firstn; lia|].
        split; [rewrite length_skipn; lia|].
        intros _ Hnil. apply (f_equal (@length _)) in Hnil.
        rewrite length_skipn in Hnil. cbn [length] in Hnil.
        apply Nat.ltb_lt in E. lia.
      * apply Nat.ltb_ge in E. destruct replayBuffer; [|simpl in E; lia].
        exists []. repeat split; auto.
    + exists []. split; [reflexivity|]. split; [reflexivity|]. split; [lia | auto].
Qed.

End TrainingFacts.

(** ** The choice of an action *)

Section ActionFacts.
Import Js Grid Layout Training Entry.
Local Open Scope Z_scope.











End ActionFacts.

(** ** The play mode *)

Section PlayFacts.
Import Js Grid Layout Entry.
Local Open Scope Z_scope.

(** The handler of a key that does not end the program: nothing for a key
    that is no arrow, and for an arrow the move, its pickups and the tick. *)
Lemma onData_run (K : Constants) (key : string) (handler : M World unit) (w w' : World) :
  onData K key = Some handler -> handler w = (Return tt, w') ->
  w' = w \/
  exists direction w2,
    keyDirection key = Some direction /\
    checkCollisions {| this := movePlayer direction (this w); rng := rng w |} = (Return tt, w2) /\
    tick K w2 = (Return tt, w').
Proof.
  unfold onData. destruct (key =? ctrlC)%string; [discriminate|].
  intros [= <-]. destruct (keyDirection key) as [direction|].
  - rewrite run_update. unfold bind at 1.
    destruct (checkCollisions _) as [[[]|e] w2] eqn:Ec; [|discriminate].
    intros Ht. right. exists direction, w2. auto.
  - unfold ret. intros [= <-]. left. reflexivity.
Qed.

Lemma movePlayer_itemsApart (direction : string) (g : Game) :
  wellPlaced g -> itemsApart (movePlayer direction g).
Proof.
  intros ((Hnd & Hobs & Hpo) & _).
  destruct (movePlayer_effect direction g) as [-> | (_ & -> & _ & Hno)];
    unfold itemsApart, items in *; game_fields; auto.
Qed.

(** X29. In the play mode, whatever the arguments and the keys: the pieces stay
    well placed, under every obstacle pattern; nothing is recorded in the
    move history; and the score is made of pickups only, 40 for each food,
    25 for each green block and -20 for each red block picked up. *)
Theorem played_score (K : Constants) (args : list string) (w : World) :
  played K args w ->
  let g := this w in
  wellPlaced g /\ moveHistory g = [] /\
  (score g == 40 * inject_Z (foodEaten g) + 25 * inject_Z (greenBlocksEaten g)
              - 20 * inject_Z (redBlocksEaten g))%Q.
Proof.
  cbv zeta.
  induction 1 as [r r' g Hnew | w w' key handler _ IH Hkey Hrun].
  - cbn [this].
    split; [apply (setObstaclePattern_within K r r' g (obstacleType args) Hnew)|].
    revert Hnew. rewrite newGame_run. cbv zeta.
    destruct (firstFree _ _ 1000); [|discriminate].
    destruct (firstFree _ _ 1000); [|discriminate].
    intros [= <- _]. split; reflexivity.
  - destruct IH as (Hwp & Hh & Hsc).
    destruct (onData_run K key handler w w' Hkey Hrun)
      as [-> | (direction & w2 & _ & Hc & Ht)]; [auto|].
    pose proof (movePlayer_itemsApart direction (this w) Hwp) as Hap.
    assert (Hm : score (movePlayer direction (this w)) = score (this w) /\
                 moveHistory (movePlayer direction (this w)) = moveHistory (this w) /\
                 foodEaten (movePlayer direction (this w)) = foodEaten (this w) /\
                 redBlocksEaten (movePlayer direction (this w)) = redBlocksEaten (this w) /\
                 greenBlocksEaten (movePlayer direction (this w)) = greenBlocksEaten (this w))
      by (destruct (movePlayer_effect direction (this w)) as [-> | (_ & -> & _)]; auto).
    destruct Hm as (Ms & Mh & Mfe & Mre & Mge).
    set (wm := {| this := movePlayer direction (this w); rng := rng w |}) in *.
    split; [|split].
    + apply (tick_wellPlaced K w2 w'); [|exact Ht].
      apply (checkCollisions_wellPlaced wm w2); [exact Hap | exact Hc].
    + destruct (checkCollisions_frame wm w2 Hc) as (Hpf & _).
      destruct (tick_frame K w2 w' Ht) as (Hpf2 & _).
      unfold samePlayfield in Hpf, Hpf2. unfold wm in Hpf. game_fields.
      destruct Hpf as (_ & _ & _ & _ & _ & P6 & _).
      destruct Hpf2 as (_ & _ & _ & _ & _ & T6 & _). congruence.
    + destruct (tick_frame K w2 w' Ht) as (_ & Tsc & _ & Tfe & Tre & Tge & _).
      destruct (checkCollisions_returns wm w2 Hc) as (w1 & Hw1 & _ & Hpick).
      destruct Hpick as (Psc & Pfe & Pge & Pre & _).
      rewrite Tsc, Tfe, Tre, Tge, Psc, Pfe, Pge, Pre.
      destruct Hw1 as [(_ & ->) | (_ & k & _ & ->)].
      * unfold wm. cbn [this]. rewrite Ms, Mfe, Mre, Mge, Hsc, !inject_Z_plus. ring.
      * unfold relocated, wm. cbn [this]. game_fields.
        rewrite Ms, Mfe, Mre, Mge, Hsc, !inject_Z_plus. change (inject_Z 1) with 1%Q. ring.
Qed.

Lemma played_score_witness :
  wellPlaced (setObstaclePattern "diamond"
                (gameOn {| x := 0; y := 0 |} {| x := 1; y := 0 |} [])).
Proof.
  apply (played_score (board20x15 50) ["--play"; "--obstacle"; "diamond"]%string
           {| this := setObstaclePattern "diamond"
                        (gameOn {| x := 0; y := 0 |} {| x := 1; y := 0 |} []);
              rng := advance (rngOf idleDraws) 4 |}).
  apply (played_start (board20x15 50) ["--play"; "--obstacle"; "diamond"]%string
           (rngOf idleDraws) (advance (rngOf idleDraws) 4)
           (gameOn {| x := 0; y := 0 |} {| x := 1; y := 0 |} [])).
  vm_compute. reflexivity.
Defined.

End PlayFacts.
